(** * TicTacToeOL: the board engine, the session registry and the
      websocket protocol loop of [main.py], embedded in Rocq.

    Python values are modelled as follows.
    - [int] is [Z]; [bool] is [bool]; [str] is [string].
    - A Python list is a [list]; indexing follows Python: a negative
      index counts from the end and an index out of range raises
      [IndexError].
    - An exception is a value of [exn]; a computation that can raise
      returns a [result].
    - An object with identity (a [GameSession], a connection) is a
      reference into a store, so that two holders of the same object see
      each other's mutations. *)

From Stdlib Require Import ZArith Lia Ascii.
From stdpp Require Import base list strings pretty gmap.

Local Open Scope Z_scope.

(** ** Exceptions and fallible computations *)

Inductive exn : Type :=
  | IndexError
  | ValueError
  | MaxSizeException (message : string).

Inductive result (A : Type) : Type :=
  | Ok (a : A)
  | Raise (e : exn).
Arguments Ok {A} a.
Arguments Raise {A} e.

#[global] Instance exn_eq_dec : EqDecision exn.
Proof. solve_decision. Defined.

#[global] Instance result_eq_dec {A} `{EqDecision A} : EqDecision (result A).
Proof. solve_decision. Defined.

#[global] Instance result_ret : MRet result := λ A, Ok.
#[global] Instance result_bind : MBind result := λ A B f m,
  match m with
  | Ok a => f a
  | Raise e => Raise e
  end.

(** ** Python list primitives *)

(** The position a Python index denotes in a sequence of length [n]. *)
Definition py_index (n : nat) (i : Z) : result nat :=
  let j := if i <? 0 then i + Z.of_nat n else i in
  if (0 <=? j) && (j <? Z.of_nat n) then Ok (Z.to_nat j) else Raise IndexError.

(** [l[i]] *)
Definition py_getitem {A} (l : list A) (i : Z) : result A :=
  k ← py_index (length l) i;
  match l !! k with
  | Some a => Ok a
  | None => Raise IndexError
  end.

(** [l[i] = v] *)
Definition py_setitem {A} (l : list A) (i : Z) (v : A) : result (list A) :=
  k ← py_index (length l) i;
  Ok (<[k := v]> l).

(** [range(n)] *)
Definition range (n : Z) : list Z := seqZ 0 n.

(** [all(f(a) for a in l)]: the generator is consumed up to the first
    false element, so later elements are not evaluated. *)
Fixpoint py_all {A} (f : A → result bool) (l : list A) : result bool :=
  match l with
  | [] => Ok true
  | a :: l' => b ← f a; if b : bool then py_all f l' else Ok false
  end.

(** A [for] loop whose body may [return]: [Some r] is the value returned
    by the first iteration that returns, [None] means the loop ran to its
    end. *)
Fixpoint for_return {A R} (l : list A) (body : A → result (option R))
  : result (option R) :=
  match l with
  | [] => Ok None
  | a :: l' =>
      r ← body a;
      match r with
      | Some v => Ok (Some v)
      | None => for_return l' body
      end
  end.

(** A list comprehension [[b for a in l for b in f(a)]]. *)
Fixpoint collect {A B} (f : A → result (list B)) (l : list A) : result (list B) :=
  match l with
  | [] => Ok []
  | a :: l' => bs ← f a; rest ← collect f l'; Ok (bs ++ rest)
  end.

(** [l.remove(x)]: deletes the first occurrence, [ValueError] if there is
    none. *)
Fixpoint py_remove (x : nat) (l : list nat) : result (list nat) :=
  match l with
  | [] => Raise ValueError
  | y :: l' => if bool_decide (y = x) then Ok l' else l'' ← py_remove x l'; Ok (y :: l'')
  end.

(** ** Enumerations *)

Module TicPieceState.
Inductive t : Type := Check | Circle | Empty.

#[global] Instance eq_dec : EqDecision t.
Proof. solve_decision. Defined.

Definition value (c : t) : string :=
  match c with
  | Check => "Check"
  | Circle => "Circle"
  | Empty => "-"
  end.
End TicPieceState.

Module GameState.
Inductive t : Type := Circle | Check | Draw | Playing.

#[global] Instance eq_dec : EqDecision t.
Proof. solve_decision. Defined.

Definition value (s : t) : string :=
  match s with
  | Circle => "Circle"
  | Check => "Check"
  | Draw => "Draw"
  | Playing => "Playing"
  end.
End GameState.

(** ** Strings: [json.dumps] and [str.replace] *)

Definition dquote : string := String "034"%char "".
Definition backslash : string := String "092"%char "".

Definition hex_digit (n : N) : ascii :=
  ascii_of_N (if (n <? 10)%N then 48 + n else 87 + n).

(** The escape [json.dumps] writes for one character of a string
    (characters are taken as code points below 256). *)
Definition json_escape_char (c : ascii) : string :=
  let n := N_of_ascii c in
  if (n =? 34)%N then backslash +:+ dquote
  else if (n =? 92)%N then backslash +:+ backslash
  else if (n =? 10)%N then backslash +:+ "n"
  else if (n =? 13)%N then backslash +:+ "r"
  else if (n =? 9)%N then backslash +:+ "t"
  else if (n =? 8)%N then backslash +:+ "b"
  else if (n =? 12)%N then backslash +:+ "f"
  else if (32 <=? n)%N && (n <=? 126)%N then String c ""
  else backslash +:+ "u00" +:+
       String (hex_digit (n / 16)) (String (hex_digit (n mod 16)) "").

Fixpoint json_escape (s : string) : string :=
  match s with
  | "" => ""
  | String c s' => json_escape_char c +:+ json_escape s'
  end.

(** [json.dumps(s)] for a string. *)
Definition json_str (s : string) : string := dquote +:+ json_escape s +:+ dquote.

(** [", ".join(items)] *)
Fixpoint join (sep : string) (items : list string) : string :=
  match items with
  | [] => ""
  | [x] => x
  | x :: rest => x +:+ sep +:+ join sep rest
  end.

(** [json.dumps(l)] for a list, with the default separators. *)
Definition json_list {A} (enc : A → string) (l : list A) : string :=
  "[" +:+ join ", " (enc <$> l) +:+ "]".

Fixpoint strip_prefix (p s : string) : option string :=
  match p with
  | "" => Some s
  | String a p' =>
      match s with
      | "" => None
      | String b s' => if Ascii.eqb a b then strip_prefix p' s' else None
      end
  end.

(** The left-to-right scan of [str.replace]: [skip] counts the characters
    of a match that are still to be dropped. *)
Fixpoint replace_from (old new : string) (skip : nat) (s : string) : string :=
  match s with
  | "" => ""
  | String c s' =>
      match skip with
      | S k => replace_from old new k s'
      | O =>
          match strip_prefix old s with
          | Some _ => new +:+ replace_from old new (String.length old - 1) s'
          | None => String c (replace_from old new 0 s')
          end
      end
  end.

(** [s.replace(old, new)] for a non-empty [old]. *)
Definition str_replace (s old new : string) : string := replace_from old new 0 s.

(** ** The board engine: class [TicTacToe] *)

Module TicTacToe.
Import TicPieceState.

Record t : Type := Build { size : Z; board : list (list TicPieceState.t) }.

(** A method reads and may mutate [self], and returns or raises. *)
Definition Method (A : Type) : Type := t → result A * t.

(** [TicTacToe(size)] *)
Definition init (size : Z) : result t :=
  if (size <? 3) || (size >? 25)
  then Raise (MaxSizeException "Invalid board size. Size must be between 3 and 25.")
  else Ok (Build size ((λ _, (λ _, Empty) <$> range size) <$> range size)).

(** [self.board[i][j]] *)
Definition get_cell (self : t) (i j : Z) : result TicPieceState.t :=
  row ← py_getitem (board self) i;
  py_getitem row j.

(** [self.board[i][j] = piece]: the row object [self.board[i]] is
    updated in place. *)
Definition set_cell (self : t) (i j : Z) (piece : TicPieceState.t) : result t :=
  row ← py_getitem (board self) i;
  row' ← py_setitem row j piece;
  k ← py_index (length (board self)) i;
  Ok (Build (size self) (<[k := row']> (board self))).

Definition is_coordinate_valid (self : t) (x y : Z) : result bool :=
  if (0 <=? x) && (x <? size self) then
    if (0 <=? y) && (y <? size self) then
      cell ← get_cell self x y;
      Ok (bool_decide (cell = Empty))
    else Ok false
  else Ok false.

Definition place_piece (x y : Z) (piece : TicPieceState.t) : Method bool :=
  λ self,
    match is_coordinate_valid self x y with
    | Raise e => (Raise e, self)
    | Ok false => (Ok false, self)
    | Ok true =>
        match set_cell self x y piece with
        | Ok self' => (Ok true, self')
        | Raise e => (Raise e, self)
        end
    end.

(** [all(self.board[i][j] == piece for (i, j) in cells)] *)
Definition all_cells (self : t) (piece : TicPieceState.t) (cells : list (Z * Z))
  : result bool :=
  py_all (λ '(i, j), c ← get_cell self i j; Ok (bool_decide (c = piece))) cells.

Definition check_win (self : t) (piece : TicPieceState.t) : result bool :=
  let n := size self in
  r ← for_return (range n) (λ i,
         row ← all_cells self piece ((λ j, (i, j)) <$> range n);
         if row : bool then Ok (Some true) else
         col ← all_cells self piece ((λ j, (j, i)) <$> range n);
         if col : bool then Ok (Some true) else Ok None);
  match r with
  | Some b => Ok b
  | None =>
      d ← all_cells self piece ((λ i, (i, i)) <$> range n);
      if d : bool then Ok true else
      a ← all_cells self piece ((λ i, (i, n - i - 1)) <$> range n);
      if a : bool then Ok true else Ok false
  end.

(** [all(cell == piece for cell in row)] *)
Definition row_all (piece : TicPieceState.t) (row : list TicPieceState.t) : bool :=
  forallb (λ cell, bool_decide (cell = piece)) row.

(** [all(row[col] == piece for row in self.board)] *)
Definition col_all (self : t) (piece : TicPieceState.t) (col : Z) : result bool :=
  py_all (λ row, c ← py_getitem row col; Ok (bool_decide (c = piece))) (board self).

Definition check_game_status (self : t) : result GameState.t :=
  r ← for_return (board self) (λ row,
         if row_all Circle row then Ok (Some GameState.Circle) else
         if row_all Check row then Ok (Some GameState.Check) else Ok None);
  match r with
  | Some s => Ok s
  | None =>
      r ← for_return (range (size self)) (λ col,
             c ← col_all self Circle col;
             if c : bool then Ok (Some GameState.Circle) else
             c ← col_all self Check col;
             if c : bool then Ok (Some GameState.Check) else Ok None);
      match r with
      | Some s => Ok s
      | None =>
          w ← check_win self Circle;
          if w : bool then Ok GameState.Circle else
          w ← check_win self Check;
          if w : bool then Ok GameState.Check else
          if forallb (λ cell, bool_decide (cell ≠ Empty)) (concat (board self))
          then Ok GameState.Draw
          else Ok GameState.Playing
      end
  end.

(** The string [get_board] returns. *)
Definition get_board_value (self : t) : string :=
  let game_board := (λ row : list TicPieceState.t, value <$> row) <$> board self in
  json_list (json_list json_str) game_board.

Definition get_board : Method string :=
  λ self, (Ok (get_board_value self), self).

(** The list of empty cells [place_random_piece] chooses from. *)
Definition empty_cells (self : t) : result (list (Z * Z)) :=
  collect (λ i,
    collect (λ j,
      c ← get_cell self i j;
      Ok (if bool_decide (c = Empty) then [(i, j)] else []))
      (range (size self)))
    (range (size self)).

(** [random.choice(seq)] for a non-empty [seq]: the element at the
    position drawn by the generator, here the number [rnd]. *)
Definition random_choice {A} `{Inhabited A} (rnd : nat) (seq : list A) : A :=
  seq !!! (rnd `mod` length seq)%nat.

Definition place_random_piece (rnd : nat) (piece : TicPieceState.t) : Method bool :=
  λ self,
    match empty_cells self with
    | Raise e => (Raise e, self)
    | Ok [] => (Ok false, self)
    | Ok cells =>
        let '(x, y) := random_choice rnd cells in
        match set_cell self x y piece with
        | Ok self' => (Ok true, self')
        | Raise e => (Raise e, self)
        end
    end.
End TicTacToe.

(** ** Sessions, wire messages and the shared state of the process *)

Module GameSession.
(** [players] holds the [DefaultWebSocketSession] objects of the joined
    connections; such an object is identified with its connection. *)
Record t : Type := Build {
  name : string;
  players : list nat;
  board : TicTacToe.t;
  time : Z
}.

(** [GameSession(name, board)], with [now] the value of [time.time()]. *)
Definition init (name : string) (board : TicTacToe.t) (now : Z) : t :=
  Build name [] board now.

#[global] Instance inhabited : Inhabited t :=
  populate (Build "" [] (TicTacToe.Build 0 []) 0).
End GameSession.

Module Position.
Record t : Type := Build { x : Z; y : Z; type : TicPieceState.t }.
End Position.

Module ServerResponse.
Record t : Type := Build { op : Z; data : string }.

(** [.json()]: the text sent over the socket. *)
Definition json (r : t) : string :=
  "{" +:+ json_str "op" +:+ ": " +:+ pretty (op r) +:+ ", "
      +:+ json_str "data" +:+ ": " +:+ json_str (data r) +:+ "}".
End ServerResponse.

(** Where the coroutine [game] of a connection stands: inside its
    [while True] loop with its local variables, or finished (returned, or
    ended by an exception it does not handle). *)
Inductive conn_state : Type :=
  | Active (game_instance : nat) (ai : bool)
  | Terminated (error : option exn).

(** [heap] is the store of [GameSession] objects, a reference being a
    position in it; [game_instances] is the global list of references;
    [outbox] logs every text sent, with the connection it was sent to. *)
Record World : Type := MkWorld {
  heap : list GameSession.t;
  game_instances : list nat;
  conns : gmap nat conn_state;
  outbox : list (nat * string)
}.

Definition Handler (A : Type) : Type := World → result A * World.

#[global] Instance handler_ret : MRet Handler := λ A a w, (Ok a, w).
#[global] Instance handler_bind : MBind Handler := λ A B f m w,
  match m w with
  | (Ok a, w') => f a w'
  | (Raise e, w') => (Raise e, w')
  end.

Definition lift_result {A} (r : result A) : Handler A := λ w, (r, w).

Definition get_instances : Handler (list nat) := λ w, (Ok (game_instances w), w).

Definition set_instances (l : list nat) : Handler () := λ w,
  (Ok (), MkWorld (heap w) l (conns w) (outbox w)).

(** The object a reference points to. *)
Definition deref (g : nat) : Handler GameSession.t := λ w, (Ok (heap w !!! g), w).

Definition store (g : nat) (s : GameSession.t) : Handler () := λ w,
  (Ok (), MkWorld (<[g := s]> (heap w)) (game_instances w) (conns w) (outbox w)).

(** A new object; its reference is returned. *)
Definition alloc (s : GameSession.t) : Handler nat := λ w,
  (Ok (length (heap w)),
   MkWorld (heap w ++ [s]) (game_instances w) (conns w) (outbox w)).

(** [await player.send(data)], for a player whose coroutine is running:
    the text is delivered. The coroutine of a player can have ended while
    the player is still in [players] (a [break] does not take it out); a
    send to such a player is refused by the transport, which this
    definition does not reproduce. The statements on the messages of a
    turn on an arbitrary session therefore take [players_connected] as a
    hypothesis; it holds of every registered session of a world reached
    from the empty one ([reachable_players_connected]). *)
Definition send (player : nat) (data : string) : Handler () := λ w,
  (Ok (), MkWorld (heap w) (game_instances w) (conns w) (outbox w ++ [(player, data)])).

Fixpoint for_each {A} (l : list A) (body : A → Handler ()) : Handler () :=
  match l with
  | [] => mret ()
  | a :: l' => _ ← body a; for_each l' body
  end.

(** A call of a board method on [game_instance.board]. *)
Definition board_call {A} (g : nat) (m : TicTacToe.Method A) : Handler A :=
  s ← deref g;
  let '(r, b) := m (GameSession.board s) in
  _ ← store g (GameSession.Build (GameSession.name s) (GameSession.players s) b
                 (GameSession.time s));
  lift_result r.

(** [next((game for game in game_instances if game.name == name), None)] *)
Definition find_game (name : string) : Handler (option nat) := λ w,
  (Ok (head (filter (λ g, GameSession.name (heap w !!! g) = name) (game_instances w))), w).

(** [create_game(size, name)]; [uuid] is the value of [str(uuid4())] and
    [now] the value of [time.time()]. The name in the response is
    returned. *)
Definition create_game (size : Z) (name : option string) (uuid : string) (now : Z)
  : Handler string :=
  let name := match name with
              | None | Some "" => uuid
              | Some n => n
              end in
  board ← lift_result (TicTacToe.init size);
  game_instance ← alloc (GameSession.init name board now);
  l ← get_instances;
  _ ← set_instances (l ++ [game_instance]);
  mret name.

(** [game]: from the accept to the first message of the loop. *)
Definition game_accept (c : nat) (name : string) (ai : bool) : Handler conn_state :=
  game_instance ← find_game name;
  match game_instance with
  | None => mret (Terminated None)
  | Some g =>
      s ← deref g;
      _ ← store g (GameSession.Build (GameSession.name s) (GameSession.players s ++ [c])
                     (GameSession.board s) (GameSession.time s));
      b ← board_call g TicTacToe.get_board;
      _ ← send c (ServerResponse.json (ServerResponse.Build 0 b));
      mret (Active g ai)
  end.

(** The sweep of old games. *)
Definition sweep (now : Z) : Handler () := λ w,
  set_instances
    (filter (λ g, now - GameSession.time (heap w !!! g) < 600) (game_instances w)) w.

(** [game]: one turn of the loop, for the received [position]; [rnd] is
    the draw of the random generator and [now] the value of
    [time.time()]. *)
Definition game_message (g : nat) (ai : bool) (position : Position.t)
    (rnd : nat) (now : Z) : Handler conn_state :=
  let player_type := Position.type position in
  _ ← board_call g (TicTacToe.place_piece (Position.x position) (Position.y position)
                      player_type);
  _ ← (if ai then
         if bool_decide (player_type = TicPieceState.Check)
         then board_call g (TicTacToe.place_random_piece rnd TicPieceState.Circle)
         else board_call g (TicTacToe.place_random_piece rnd TicPieceState.Check)
       else mret false);
  b ← board_call g TicTacToe.get_board;
  let board_data := str_replace (str_replace b "Circle" "O") "Check" "X" in
  let response := ServerResponse.json (ServerResponse.Build 0 board_data) in
  s ← deref g;
  _ ← for_each (GameSession.players s) (λ player, send player response);
  s ← deref g;
  current_state ← lift_result (TicTacToe.check_game_status (GameSession.board s));
  if bool_decide (current_state ≠ GameState.Playing) then
    let end_response :=
      ServerResponse.json (ServerResponse.Build 1 (GameState.value current_state)) in
    s ← deref g;
    _ ← for_each (GameSession.players s) (λ player, send player end_response);
    l ← get_instances;
    l' ← lift_result (py_remove g l);
    _ ← set_instances l';
    mret (Terminated None)
  else
    _ ← sweep now;
    mret (Active g ai).

(** [game]: the handler of [WebSocketDisconnect]. *)
Definition game_disconnect (c : nat) (g : nat) : Handler conn_state :=
  s ← deref g;
  players' ← lift_result (py_remove c (GameSession.players s));
  _ ← store g (GameSession.Build (GameSession.name s) players'
                 (GameSession.board s) (GameSession.time s));
  if bool_decide (players' = []) then
    l ← get_instances;
    l' ← lift_result (py_remove g l);
    _ ← set_instances l';
    mret (Terminated None)
  else mret (Terminated None).

(** Running the coroutine of connection [c] up to its next suspension:
    its new state is recorded; an exception it does not handle ends it. *)
Definition run_conn (c : nat) (h : Handler conn_state) (w : World) : World :=
  let '(r, w') := h w in
  let st := match r with
            | Ok st => st
            | Raise e => Terminated (Some e)
            end in
  MkWorld (heap w') (game_instances w') (<[c := st]> (conns w')) (outbox w').

(** What the process reacts to. The code a coroutine runs between two
    suspensions in [receive_text] is taken as one step: the process is
    single-threaded, and a [send] to a running coroutine is logged in
    [outbox] and returns. A
    [Message] carries the [Position] that [Position.parse_raw] built from
    the received text; a text it rejects is not modelled. *)
Inductive event : Type :=
  | Create (size : Z) (name : option string) (uuid : string) (now : Z)
  | Connect (c : nat) (name : string) (ai : bool)
  | Message (c : nat) (position : Position.t) (rnd : nat) (now : Z)
  | Disconnect (c : nat).

Definition step (e : event) (w : World) : World :=
  match e with
  | Create size name uuid now => snd (create_game size name uuid now w)
  | Connect c name ai => run_conn c (game_accept c name ai) w
  | Message c position rnd now =>
      match conns w !! c with
      | Some (Active g ai) => run_conn c (game_message g ai position rnd now) w
      | _ => w
      end
  | Disconnect c =>
      match conns w !! c with
      | Some (Active g _) => run_conn c (game_disconnect c g) w
      | _ => w
      end
  end.

Definition run (es : list event) (w : World) : World := foldl (λ w e, step e w) w es.

Definition empty_world : World := MkWorld [] [] ∅ [].

(** ** Vocabulary of the statements *)

(** The cell in row [i], column [j] of a board, when there is one. *)
Definition cell_at (b : TicTacToe.t) (i j : nat) : option TicPieceState.t :=
  TicTacToe.board b !! i ≫= (.!! j).

(** The grid is square and its side is the recorded [size]. *)
Definition wf (b : TicTacToe.t) : Prop :=
  TicTacToe.size b = Z.of_nat (length (TicTacToe.board b)) ∧
  Forall (λ row, length row = length (TicTacToe.board b)) (TicTacToe.board b).

Definition side (b : TicTacToe.t) : nat := length (TicTacToe.board b).

Definition row_full (b : TicTacToe.t) (p : TicPieceState.t) (i : nat) : Prop :=
  ∀ j, (j < side b)%nat → cell_at b i j = Some p.

Definition col_full (b : TicTacToe.t) (p : TicPieceState.t) (j : nat) : Prop :=
  ∀ i, (i < side b)%nat → cell_at b i j = Some p.

Definition diag_full (b : TicTacToe.t) (p : TicPieceState.t) : Prop :=
  ∀ i, (i < side b)%nat → cell_at b i i = Some p.

Definition anti_full (b : TicTacToe.t) (p : TicPieceState.t) : Prop :=
  ∀ i, (i < side b)%nat → cell_at b i (side b - 1 - i)%nat = Some p.

(** Some full row, some full column or one of the two main diagonals
    consists entirely of [p]. *)
Definition has_line (b : TicTacToe.t) (p : TicPieceState.t) : Prop :=
  (∃ i, (i < side b)%nat ∧ row_full b p i) ∨
  (∃ j, (j < side b)%nat ∧ col_full b p j) ∨
  diag_full b p ∨ anti_full b p.

Definition no_empty (b : TicTacToe.t) : Prop :=
  ∀ i j, cell_at b i j ≠ Some TicPieceState.Empty.

(** Row [i] (column [j]) is full of Circle or full of Check. *)
Definition row_decided (b : TicTacToe.t) (i : nat) : Prop :=
  row_full b TicPieceState.Circle i ∨ row_full b TicPieceState.Check i.

Definition col_decided (b : TicTacToe.t) (j : nat) : Prop :=
  col_full b TicPieceState.Circle j ∨ col_full b TicPieceState.Check j.

(** The bodies of the two loops at the head of [check_game_status]. *)
Definition row_scan (row : list TicPieceState.t) : result (option GameState.t) :=
  if TicTacToe.row_all TicPieceState.Circle row then Ok (Some GameState.Circle) else
  if TicTacToe.row_all TicPieceState.Check row then Ok (Some GameState.Check)
  else Ok None.

Definition col_scan (b : TicTacToe.t) (col : Z) : result (option GameState.t) :=
  c ← TicTacToe.col_all b TicPieceState.Circle col;
  if c : bool then Ok (Some GameState.Circle) else
  c ← TicTacToe.col_all b TicPieceState.Check col;
  if c : bool then Ok (Some GameState.Check) else Ok None.

(** The three conditions under which a placement is accepted. *)
Definition placeable (b : TicTacToe.t) (x y : Z) : Prop :=
  0 ≤ x < TicTacToe.size b ∧ 0 ≤ y < TicTacToe.size b ∧
  cell_at b (Z.to_nat x) (Z.to_nat y) = Some TicPieceState.Empty.

(** A cell holds a mark. *)
Definition occupied (b : TicTacToe.t) (i j : nat) : Prop :=
  ∃ p, cell_at b i j = Some p ∧ p ≠ TicPieceState.Empty.

(** The token of a cell after the display substitution. *)
Definition display (c : TicPieceState.t) : string :=
  match c with
  | TicPieceState.Circle => "O"
  | TicPieceState.Check => "X"
  | TicPieceState.Empty => "-"
  end.

(** The token of a cell between the two replacements. *)
Definition half_display (c : TicPieceState.t) : string :=
  match c with
  | TicPieceState.Circle => "O"
  | TicPieceState.Check => "Check"
  | TicPieceState.Empty => "-"
  end.

(** The JSON-encoded 2-D array of display tokens of a board. *)
Definition display_board (b : TicTacToe.t) : string :=
  json_list (json_list json_str)
    ((λ row : list TicPieceState.t, display <$> row) <$> TicTacToe.board b).

(** *** Decoding a snapshot

    A snapshot is read back as ordered rows of ordered cell tokens: a
    bracketed, comma-separated list of bracketed, comma-separated quoted
    tokens. *)

Definition parse_token (s : string) : option (TicPieceState.t * string) :=
  match strip_prefix (json_str "Check") s with
  | Some rest => Some (TicPieceState.Check, rest)
  | None =>
      match strip_prefix (json_str "Circle") s with
      | Some rest => Some (TicPieceState.Circle, rest)
      | None =>
          match strip_prefix (json_str "-") s with
          | Some rest => Some (TicPieceState.Empty, rest)
          | None => None
          end
      end
  end.

(** Items up to the closing bracket; [fuel] bounds the number of items. *)
Fixpoint parse_items {A} (item : string → option (A * string)) (fuel : nat)
    (s : string) : option (list A * string) :=
  match fuel with
  | O => None
  | S fuel' =>
      match item s with
      | None => None
      | Some (a, rest) =>
          match strip_prefix "]" rest with
          | Some rest' => Some ([a], rest')
          | None =>
              match strip_prefix ", " rest with
              | None => None
              | Some rest' =>
                  match parse_items item fuel' rest' with
                  | Some (l, r) => Some (a :: l, r)
                  | None => None
                  end
              end
          end
      end
  end.

Definition parse_list {A} (item : string → option (A * string)) (s : string)
  : option (list A * string) :=
  match strip_prefix "[" s with
  | None => None
  | Some rest =>
      match strip_prefix "]" rest with
      | Some rest' => Some ([], rest')
      | None => parse_items item (String.length rest) rest
      end
  end.

Definition decode_board (s : string) : option (list (list TicPieceState.t)) :=
  match parse_list (parse_list parse_token) s with
  | Some (g, "") => Some g
  | _ => None
  end.

(** *** Sample boards *)

Definition fresh3 : TicTacToe.t :=
  TicTacToe.Build 3
    [[TicPieceState.Empty; TicPieceState.Empty; TicPieceState.Empty];
     [TicPieceState.Empty; TicPieceState.Empty; TicPieceState.Empty];
     [TicPieceState.Empty; TicPieceState.Empty; TicPieceState.Empty]].

(** Check holds row 0 and Circle holds row 1. *)
Definition two_lines3 : TicTacToe.t :=
  TicTacToe.Build 3
    [[TicPieceState.Check; TicPieceState.Check; TicPieceState.Check];
     [TicPieceState.Circle; TicPieceState.Circle; TicPieceState.Circle];
     [TicPieceState.Empty; TicPieceState.Empty; TicPieceState.Empty]].

(** The fresh board after Check was placed on [(0, 0)]. *)
Definition check_corner3 : TicTacToe.t :=
  TicTacToe.Build 3
    [[TicPieceState.Check; TicPieceState.Empty; TicPieceState.Empty];
     [TicPieceState.Empty; TicPieceState.Empty; TicPieceState.Empty];
     [TicPieceState.Empty; TicPieceState.Empty; TicPieceState.Empty]].

(** Check on the first two cells of row 0, and on all of row 0. *)
Definition check_pair3 : TicTacToe.t :=
  TicTacToe.Build 3
    [[TicPieceState.Check; TicPieceState.Check; TicPieceState.Empty];
     [TicPieceState.Empty; TicPieceState.Empty; TicPieceState.Empty];
     [TicPieceState.Empty; TicPieceState.Empty; TicPieceState.Empty]].

Definition check_row3 : TicTacToe.t :=
  TicTacToe.Build 3
    [[TicPieceState.Check; TicPieceState.Check; TicPieceState.Check];
     [TicPieceState.Empty; TicPieceState.Empty; TicPieceState.Empty];
     [TicPieceState.Empty; TicPieceState.Empty; TicPieceState.Empty]].

(** Reading back the data of a state update, whose tokens are the
    display tokens. *)
Definition parse_display_token (s : string) : option (TicPieceState.t * string) :=
  match strip_prefix (json_str "X") s with
  | Some rest => Some (TicPieceState.Check, rest)
  | None =>
      match strip_prefix (json_str "O") s with
      | Some rest => Some (TicPieceState.Circle, rest)
      | None =>
          match strip_prefix (json_str "-") s with
          | Some rest => Some (TicPieceState.Empty, rest)
          | None => None
          end
      end
  end.

Definition decode_display (s : string) : option (list (list TicPieceState.t)) :=
  match parse_list (parse_list parse_display_token) s with
  | Some (g, "") => Some g
  | _ => None
  end.

(** The number of cells that hold a mark. *)
Definition filled (b : TicTacToe.t) : nat :=
  length (filter (λ c, c ≠ TicPieceState.Empty) (concat (TicTacToe.board b))).

(** *** Sequences of board operations *)

(** A successful placement sequence: every [place_piece] returns [True]. *)
Fixpoint place_all (moves : list Position.t) (b : TicTacToe.t) : option TicTacToe.t :=
  match moves with
  | [] => Some b
  | m :: moves' =>
      match TicTacToe.place_piece (Position.x m) (Position.y m) (Position.type m) b with
      | (Ok true, b') => place_all moves' b'
      | _ => None
      end
  end.

(** The mark a placement sequence leaves on cell [(i, j)]: that of the
    last move on this cell, [Empty] when there is none. *)
Fixpoint last_mark (moves : list Position.t) (i j : nat) (acc : TicPieceState.t)
  : TicPieceState.t :=
  match moves with
  | [] => acc
  | m :: moves' =>
      last_mark moves' i j
        (if bool_decide (Position.x m = Z.of_nat i ∧ Position.y m = Z.of_nat j)
         then Position.type m else acc)
  end.

(** A board operation: a placement or a random placement. *)
Inductive board_op : Type :=
  | Place (x y : Z) (piece : TicPieceState.t)
  | PlaceRandom (rnd : nat) (piece : TicPieceState.t).

Definition apply_op (o : board_op) (b : TicTacToe.t) : TicTacToe.t :=
  match o with
  | Place x y piece => snd (TicTacToe.place_piece x y piece b)
  | PlaceRandom rnd piece => snd (TicTacToe.place_random_piece rnd piece b)
  end.

Definition apply_ops (os : list board_op) (b : TicTacToe.t) : TicTacToe.t :=
  foldl (λ b o, apply_op o b) b os.

(** *** Worlds *)

Definition with_board (s : GameSession.t) (b : TicTacToe.t) : GameSession.t :=
  GameSession.Build (GameSession.name s) (GameSession.players s) b (GameSession.time s).

Definition with_players (s : GameSession.t) (l : list nat) : GameSession.t :=
  GameSession.Build (GameSession.name s) l (GameSession.board s) (GameSession.time s).

(** The world in which the object [g] has been replaced by [s]. *)
Definition set_session (g : nat) (s : GameSession.t) (w : World) : World :=
  MkWorld (<[g := s]> (heap w)) (game_instances w) (conns w) (outbox w).

Definition set_registry (l : list nat) (w : World) : World :=
  MkWorld (heap w) l (conns w) (outbox w).

Definition add_outbox (msgs : list (nat * string)) (w : World) : World :=
  MkWorld (heap w) (game_instances w) (conns w) (outbox w ++ msgs).

(** One text for each player, in join order. *)
Definition broadcast (players : list nat) (text : string) : list (nat * string) :=
  (λ p, (p, text)) <$> players.

(** The op 0 message whose data is the array of display tokens. *)
Definition state_update (b : TicTacToe.t) : string :=
  ServerResponse.json (ServerResponse.Build 0 (display_board b)).

(** The op 1 message of an outcome. *)
Definition terminal_message (st : GameState.t) : string :=
  ServerResponse.json (ServerResponse.Build 1 (GameState.value st)).

(** The other of the two marks. *)
Definition other_mark (m : TicPieceState.t) : option TicPieceState.t :=
  match m with
  | TicPieceState.Check => Some TicPieceState.Circle
  | TicPieceState.Circle => Some TicPieceState.Check
  | TicPieceState.Empty => None
  end.

(** The mark the automated opponent plays after a move of type [m]. *)
Definition opponent_mark (m : TicPieceState.t) : TicPieceState.t :=
  match m with
  | TicPieceState.Check => TicPieceState.Circle
  | TicPieceState.Circle => TicPieceState.Check
  | TicPieceState.Empty => TicPieceState.Check
  end.

(** Every player of the session is a connection whose coroutine is still
    in its loop, so that a message can be sent to it. *)
Definition players_connected (w : World) (s : GameSession.t) : Prop :=
  ∀ p, p ∈ GameSession.players s → ∃ g ai, conns w !! p = Some (Active g ai).

(** The board after the attempt of the player and the move of the
    automated opponent of one turn. *)
Definition board_after_turn (ai : bool) (position : Position.t) (rnd : nat)
    (b : TicTacToe.t) : TicTacToe.t :=
  let b1 := snd (TicTacToe.place_piece (Position.x position) (Position.y position)
                   (Position.type position) b) in
  if ai then
    snd (TicTacToe.place_random_piece rnd
           (if bool_decide (Position.type position = TicPieceState.Check)
            then TicPieceState.Circle else TicPieceState.Check) b1)
  else b1.

(** The sessions the sweep at time [now] keeps. *)
Definition young (now : Z) (w : World) (g : nat) : Prop :=
  now - GameSession.time (heap w !!! g) < 600.

#[global] Instance young_dec now w g : Decision (young now w g).
Proof. unfold young. apply _. Defined.

(** The name of a created session: the one asked for, or the generated
    identifier when none (or the empty one) was given. *)
Definition resolved_name (name : option string) (uuid : string) : string :=
  match name with
  | None | Some "" => uuid
  | Some n => n
  end.



(** What holds of every world the process can be in: the boards are
    well-formed, the registry holds distinct references to existing
    objects, and so does every connection in its loop. *)
Definition world_ok (w : World) : Prop :=
  Forall (λ s, wf (GameSession.board s)) (heap w) ∧
  Forall (λ g, (g < length (heap w))%nat) (game_instances w) ∧
  NoDup (game_instances w) ∧
  ∀ c g ai, conns w !! c = Some (Active g ai) → (g < length (heap w))%nat.

(** The connections of a sequence of events are distinct sockets: each
    [Connect] carries an identifier no earlier connection had. *)
Fixpoint fresh_connections (es : list event) (w : World) : Prop :=
  match es with
  | [] => True
  | e :: es' =>
      match e with
      | Connect c _ _ => conns w !! c = None
      | _ => True
      end ∧ fresh_connections es' (step e w)
  end.

(** The players of a registered session are distinct connections that
    are in their loop on this session, and every player of any session is
    a connection of the world. *)
Definition registry_live (w : World) : Prop :=
  (∀ g s, g ∈ game_instances w → heap w !! g = Some s →
          NoDup (GameSession.players s) ∧
          ∀ p, p ∈ GameSession.players s → ∃ ai, conns w !! p = Some (Active g ai)) ∧
  (∀ g s p, heap w !! g = Some s → p ∈ GameSession.players s → is_Some (conns w !! p)).

(** *** Sample worlds *)

Definition move (x y : Z) (t : TicPieceState.t) : Position.t := Position.Build x y t.

(** One session, two players, the second joining after the first move. *)
Definition joined_after_move : World :=
  run [Create 3 (Some "g1") "uuid" 0; Connect 1 "g1" false;
       Message 1 (move 0 0 TicPieceState.Check) 0 1; Connect 2 "g1" false]
    empty_world.

(** The first player then fills row 0, up to its last cell and entirely. *)
Definition one_to_go : World :=
  step (Message 1 (move 0 1 TicPieceState.Check) 0 2) joined_after_move.

Definition row_completed : World :=
  step (Message 1 (move 0 2 TicPieceState.Check) 0 3) one_to_go.

(** One session with one player, who moves 700 time units after the
    creation. *)
Definition one_player : World :=
  run [Create 3 (Some "g1") "uuid" 0; Connect 1 "g1" false] empty_world.

Definition moved_late : World :=
  step (Message 1 (move 0 0 TicPieceState.Check) 0 700) one_player.

(** Two sessions of the same name, created 500 time units apart; a player
    of the first moves at time 700. *)
Definition same_name_before : World :=
  run [Create 3 (Some "g1") "uuid1" 0; Create 3 (Some "g1") "uuid2" 500;
       Connect 1 "g1" false] empty_world.


(** The player of the swept session plays on, up to the last cell of
    row 0. *)
Definition late_one_to_go : World :=
  step (Message 1 (move 0 1 TicPieceState.Check) 0 701) moved_late.

(** One session whose only player has the automated opponent on. *)
Definition with_opponent : World :=
  run [Create 3 (Some "g1") "uuid" 0; Connect 1 "g1" true] empty_world.

(** This player sends two moves off the board; the automated opponent
    draws the first empty cell each time. *)
Definition off_board_twice : World :=
  run [Message 1 (move 5 5 TicPieceState.Circle) 0 1;
       Message 1 (move 5 5 TicPieceState.Circle) 0 2] with_opponent.

(** * Properties *)

(** ** Python list primitives *)

Section primitives.
Context {A : Type}.
Implicit Types (l : list A) (i : Z) (k : nat).

Lemma py_index_nonneg n i :
  0 ≤ i < Z.of_nat n → py_index n i = Ok (Z.to_nat i).
Proof.
  intros Hi. unfold py_index.
  destruct (Z.ltb_spec i 0); [lia|].
  destruct (Z.leb_spec 0 i); [|lia].
  destruct (Z.ltb_spec i (Z.of_nat n)); [done|lia].
Qed.

Lemma py_index_lt n i k : py_index n i = Ok k → (k < n)%nat.
Proof.
  unfold py_index. intros H.
  destruct (_ && _) eqn:E; [|done].
  apply andb_prop in E as [E1%Z.leb_le E2%Z.ltb_lt].
  injection H as <-. lia.
Qed.

Lemma py_index_nonneg_inv n i k :
  0 ≤ i → py_index n i = Ok k → k = Z.to_nat i ∧ i < Z.of_nat n.
Proof.
  unfold py_index. intros Hi H.
  destruct (Z.ltb_spec i 0); [lia|].
  destruct (_ && _) eqn:E; [|done].
  apply andb_prop in E as [E1%Z.leb_le E2%Z.ltb_lt].
  injection H as <-. done.
Qed.

Lemma py_getitem_Ok l i a :
  py_getitem l i = Ok a ↔ ∃ k, py_index (length l) i = Ok k ∧ l !! k = Some a.
Proof.
  unfold py_getitem. destruct (py_index (length l) i) as [k|e] eqn:E; simpl.
  - destruct (l !! k) as [a'|] eqn:El; split.
    + intros [= <-]. eauto.
    + intros (k' & [= <-] & ?). congruence.
    + done.
    + intros (k' & [= <-] & ?). congruence.
  - split; [done|]. by intros (k' & ? & _).
Qed.

Lemma py_getitem_nonneg l i a :
  0 ≤ i → l !! Z.to_nat i = Some a → py_getitem l i = Ok a.
Proof.
  intros Hi Hl. apply py_getitem_Ok. exists (Z.to_nat i). split; [|done].
  apply py_index_nonneg. apply lookup_lt_Some in Hl. lia.
Qed.

Lemma py_getitem_in_range l i :
  0 ≤ i < Z.of_nat (length l) → ∃ a, py_getitem l i = Ok a ∧ l !! Z.to_nat i = Some a.
Proof.
  intros Hi. destruct (lookup_lt_is_Some_2 l (Z.to_nat i)) as [a Ha]; [lia|].
  exists a. split; [|done]. apply py_getitem_nonneg; [lia|done].
Qed.
End primitives.

Lemma elem_of_range n i : i ∈ range n ↔ 0 ≤ i < n.
Proof. unfold range. rewrite elem_of_seqZ. lia. Qed.

(** ** Reading and writing cells *)

Import TicTacToe.

Lemma get_cell_Ok b i j c :
  get_cell b i j = Ok c ↔
  ∃ ki kj row, py_index (side b) i = Ok ki ∧ board b !! ki = Some row ∧
               py_index (length row) j = Ok kj ∧ row !! kj = Some c.
Proof.
  unfold get_cell, side. split.
  - destruct (py_getitem (board b) i) as [row|e] eqn:E; [|done]. simpl.
    intros H. apply py_getitem_Ok in E as (ki & ? & ?).
    apply py_getitem_Ok in H as (kj & ? & ?). eauto 10.
  - intros (ki & kj & row & H1 & H2 & H3 & H4).
    assert (py_getitem (board b) i = Ok row) as -> by (apply py_getitem_Ok; eauto).
    simpl. apply py_getitem_Ok; eauto.
Qed.

Lemma wf_row_length b i row : wf b → board b !! i = Some row → length row = side b.
Proof.
  intros [_ Hrows] Hrow. rewrite Forall_lookup in Hrows. by apply (Hrows i).
Qed.

Lemma wf_size b : wf b → size b = Z.of_nat (side b).
Proof. by intros [? _]. Qed.

Lemma wf_cell_at_is_Some b i j :
  wf b → (i < side b)%nat → (j < side b)%nat → is_Some (cell_at b i j).
Proof.
  intros Hwf Hi Hj. unfold cell_at.
  destruct (lookup_lt_is_Some_2 (board b) i Hi) as [row Hrow]. rewrite Hrow. simpl.
  apply lookup_lt_is_Some_2. by rewrite (wf_row_length b i row).
Qed.

Lemma cell_at_lt b i j c : wf b → cell_at b i j = Some c → (i < side b ∧ j < side b)%nat.
Proof.
  unfold cell_at. intros Hwf H.
  destruct (board b !! i) as [row|] eqn:Hrow; [|done]. simpl in H.
  split; [by eapply lookup_lt_Some|].
  rewrite <- (wf_row_length b i row) by done. by eapply lookup_lt_Some.
Qed.

(** On a well-formed board a read inside the grid returns the cell. *)
Lemma get_cell_wf b i j :
  wf b → 0 ≤ i < size b → 0 ≤ j < size b →
  ∃ c, get_cell b i j = Ok c ∧ cell_at b (Z.to_nat i) (Z.to_nat j) = Some c.
Proof.
  intros Hwf Hi Hj. rewrite (wf_size b Hwf) in Hi, Hj.
  destruct (wf_cell_at_is_Some b (Z.to_nat i) (Z.to_nat j) Hwf) as [c Hc]; [lia..|].
  exists c. split; [|done]. unfold cell_at in Hc.
  destruct (board b !! Z.to_nat i) as [row|] eqn:Hrow; [|done]. simpl in Hc.
  apply get_cell_Ok. exists (Z.to_nat i), (Z.to_nat j), row.
  rewrite (wf_row_length b _ row Hwf Hrow).
  rewrite !py_index_nonneg by lia. done.
Qed.

(** A write to a readable cell succeeds and changes that cell only. *)
Lemma set_cell_after_get b i j c p :
  get_cell b i j = Ok c →
  ∃ ki kj b', set_cell b i j p = Ok b' ∧ size b' = size b ∧ side b' = side b ∧
    py_index (side b) i = Ok ki ∧
    (∀ row, board b !! ki = Some row → py_index (length row) j = Ok kj) ∧
    (∀ k, length <$> (board b' !! k) = length <$> (board b !! k)) ∧
    cell_at b ki kj = Some c ∧
    ∀ i' j', cell_at b' i' j' =
             if bool_decide (i' = ki ∧ j' = kj) then Some p else cell_at b i' j'.
Proof.
  intros (ki & kj & row & H1 & H2 & H3 & H4)%get_cell_Ok.
  exists ki, kj, (Build (size b) (<[ki := <[kj := p]> row]> (board b))).
  assert (ki < side b)%nat as Hki by (by eapply py_index_lt).
  assert (kj < length row)%nat as Hkj by (by eapply py_index_lt).
  repeat split.
  - unfold set_cell. unfold side in H1.
    assert (py_getitem (board b) i = Ok row) as -> by (apply py_getitem_Ok; eauto).
    simpl. unfold py_setitem. rewrite H3. simpl. rewrite H1. done.
  - unfold side. simpl. by rewrite length_insert.
  - done.
  - intros row' ?. by simplify_eq.
  - intros k. simpl. destruct (decide (k = ki)) as [->|Hne].
    + rewrite list_lookup_insert_eq by done. rewrite H2. simpl.
      by rewrite length_insert.
    + by rewrite list_lookup_insert_ne.
  - unfold cell_at. by rewrite H2.
  - intros i' j'. unfold cell_at. simpl.
    destruct (decide (i' = ki)) as [->|Hne].
    + rewrite list_lookup_insert_eq by done. rewrite H2. simpl.
      destruct (decide (j' = kj)) as [->|Hne'].
      * rewrite bool_decide_eq_true_2 by done. by rewrite list_lookup_insert_eq.
      * rewrite bool_decide_eq_false_2 by (intros [??]; congruence).
        by rewrite list_lookup_insert_ne.
    + rewrite bool_decide_eq_false_2 by (intros [??]; congruence).
      by rewrite list_lookup_insert_ne.
Qed.

Lemma set_cell_wf b i j p b' : wf b → set_cell b i j p = Ok b' → wf b'.
Proof.
  intros Hwf H. unfold set_cell in H.
  destruct (py_getitem (board b) i) as [row|] eqn:E1; [|done]. simpl in H.
  destruct (py_setitem row j p) as [row'|] eqn:E2; [|done]. simpl in H.
  destruct (py_index _ i) as [k|] eqn:E3; [|done]. simpl in H. injection H as <-.
  apply py_getitem_Ok in E1 as (k' & ? & Hrow).
  assert (k' = k) as -> by congruence.
  unfold py_setitem in E2. destruct (py_index (length row) j) as [kj|]; [|done].
  simpl in E2. injection E2 as <-.
  destruct Hwf as [Hsz Hrows]. split; simpl.
  - by rewrite length_insert.
  - rewrite length_insert. apply Forall_insert; [done|].
    rewrite length_insert. rewrite Forall_lookup in Hrows. by apply (Hrows k).
Qed.

(** ** [place_piece] *)

Lemma is_coordinate_valid_Ok_true b x y :
  is_coordinate_valid b x y = Ok true ↔
  0 ≤ x < size b ∧ 0 ≤ y < size b ∧ get_cell b x y = Ok TicPieceState.Empty.
Proof.
  unfold is_coordinate_valid.
  destruct (Z.leb_spec 0 x), (Z.ltb_spec x (size b)); simpl;
    try (split; [done|lia]).
  destruct (Z.leb_spec 0 y), (Z.ltb_spec y (size b)); simpl;
    try (split; [done|lia]).
  destruct (get_cell b x y) as [c|e]; simpl.
  - destruct c; simpl; split; (done || (intros (_ & _ & ?); done) || auto).
  - split; [done|]. by intros (_ & _ & ?).
Qed.

Lemma is_coordinate_valid_wf b x y :
  wf b →
  is_coordinate_valid b x y = Ok true ∧ placeable b x y ∨
  is_coordinate_valid b x y = Ok false ∧ ¬ placeable b x y.
Proof.
  intros Hwf. unfold placeable.
  destruct (decide (0 ≤ x < size b)) as [Hx|Hx]; last first.
  { right. split; [|tauto]. unfold is_coordinate_valid.
    destruct (Z.leb_spec 0 x), (Z.ltb_spec x (size b)); simpl; (done || lia). }
  destruct (decide (0 ≤ y < size b)) as [Hy|Hy]; last first.
  { right. split; [|tauto]. unfold is_coordinate_valid.
    destruct (Z.leb_spec 0 x), (Z.ltb_spec x (size b)); simpl; try lia.
    destruct (Z.leb_spec 0 y), (Z.ltb_spec y (size b)); simpl; (done || lia). }
  destruct (get_cell_wf b x y Hwf Hx Hy) as (c & Hget & Hcell).
  destruct (decide (c = TicPieceState.Empty)) as [->|Hne].
  - left. split; [|done]. by apply is_coordinate_valid_Ok_true.
  - right. split; [|rewrite Hcell; intros (_ & _ & [= ?]); done].
    unfold is_coordinate_valid.
    destruct (Z.leb_spec 0 x), (Z.ltb_spec x (size b)); simpl; try lia.
    destruct (Z.leb_spec 0 y), (Z.ltb_spec y (size b)); simpl; try lia.
    rewrite Hget. simpl. by rewrite bool_decide_eq_false_2.
Qed.

(** An accepted placement writes the mark on one cell that was empty. *)
Lemma place_piece_true b x y p b' :
  place_piece x y p b = (Ok true, b') →
  0 ≤ x < size b ∧ 0 ≤ y < size b ∧ size b' = size b ∧ side b' = side b ∧
  (∀ k, length <$> (board b' !! k) = length <$> (board b !! k)) ∧
  cell_at b (Z.to_nat x) (Z.to_nat y) = Some TicPieceState.Empty ∧
  ∀ i j, cell_at b' i j =
         if bool_decide (i = Z.to_nat x ∧ j = Z.to_nat y) then Some p else cell_at b i j.
Proof.
  unfold place_piece.
  destruct (is_coordinate_valid b x y) as [[]|] eqn:Hv; [|done..].
  apply is_coordinate_valid_Ok_true in Hv as (Hx & Hy & Hget).
  destruct (set_cell_after_get b x y _ p Hget)
    as (ki & kj & b'' & -> & Hsz & Hside & Hki & Hkj & Hlen & Hc & Hcells).
  intros [= <-].
  apply py_index_nonneg_inv in Hki as [-> _]; [|lia].
  assert (kj = Z.to_nat y) as ->.
  { unfold cell_at in Hc. destruct (board b !! Z.to_nat x) as [row|] eqn:E; [|done].
    specialize (Hkj row eq_refl).
    by apply py_index_nonneg_inv in Hkj as [-> _]; [|lia]. }
  done.
Qed.

Lemma place_piece_not_true b x y p r b' :
  place_piece x y p b = (r, b') → r ≠ Ok true → b' = b.
Proof.
  unfold place_piece.
  destruct (is_coordinate_valid b x y) as [[]|]; [|by intros [= _ <-]..].
  destruct (set_cell b x y p); by intros [= <- <-].
Qed.

Lemma place_piece_wf b x y p : wf b → wf (snd (place_piece x y p b)).
Proof.
  intros Hwf. unfold place_piece.
  destruct (is_coordinate_valid b x y) as [[]|]; [|done..].
  destruct (set_cell b x y p) eqn:E; [|done]. simpl. by eapply set_cell_wf.
Qed.

(** A placement that is not acceptable is refused and changes nothing. *)
Lemma place_piece_refused b x y mark :
  wf b → ¬ placeable b x y → place_piece x y mark b = (Ok false, b).
Proof.
  intros Hwf Hno. unfold place_piece.
  destruct (is_coordinate_valid_wf b x y Hwf) as [[_ ?]|[-> _]]; done.
Qed.

(** An acceptable placement is accepted and writes the target cell. *)
Lemma place_piece_accepted b x y mark :
  wf b → placeable b x y →
  ∃ b', place_piece x y mark b = (Ok true, b') ∧ wf b' ∧ size b' = size b ∧
    ∀ i j, cell_at b' i j =
           if bool_decide (i = Z.to_nat x ∧ j = Z.to_nat y)
           then Some mark else cell_at b i j.
Proof.
  intros Hwf Hp.
  destruct (place_piece x y mark b) as [r b'] eqn:E.
  assert (r = Ok true) as ->.
  { revert E. unfold place_piece.
    destruct (is_coordinate_valid_wf b x y Hwf) as [[Hv _]|[_ ?]]; [|done].
    rewrite Hv. apply is_coordinate_valid_Ok_true in Hv as (_ & _ & Hget).
    destruct (set_cell_after_get b x y _ mark Hget) as (? & ? & ? & -> & _).
    by intros [= <-]. }
  assert (wf b') as Hwf'.
  { pose proof (place_piece_wf b x y mark Hwf) as H. by rewrite E in H. }
  apply place_piece_true in E as (_ & _ & Hsz & _ & _ & _ & Hcells).
  by exists b'.
Qed.

(** C1 (as amended). On a well-formed board, [place_piece x y mark]
    returns [True] exactly when [0 <= x < size], [0 <= y < size] and the
    target cell is Empty. In that case the target cell receives [mark] and
    every other cell, and the size, are unchanged; a second placement on
    the same cell is then refused without a change, provided [mark] is
    Check or Circle. In every other case it returns [False] and the board
    is unchanged. *)
Theorem place_piece_spec b x y mark :
  wf b →
  (placeable b x y →
     ∃ b', place_piece x y mark b = (Ok true, b') ∧ wf b' ∧ size b' = size b ∧
       (∀ i j, cell_at b' i j =
               if bool_decide (i = Z.to_nat x ∧ j = Z.to_nat y)
               then Some mark else cell_at b i j) ∧
       (mark ≠ TicPieceState.Empty →
        ∀ mark', place_piece x y mark' b' = (Ok false, b'))) ∧
  (¬ placeable b x y → place_piece x y mark b = (Ok false, b)) ∧
  (fst (place_piece x y mark b) = Ok true ↔ placeable b x y).
Proof.
  intros Hwf. split_and!.
  - intros Hp.
    destruct (place_piece_accepted b x y mark Hwf Hp) as (b' & Hrun & Hwf' & Hsz & Hcells).
    exists b'. split_and!; try done.
    intros Hmark mark'. apply place_piece_refused; [done|].
    intros (_ & _ & Hc). rewrite Hcells, bool_decide_eq_true_2 in Hc by done.
    congruence.
  - by apply place_piece_refused.
  - split.
    + intros H. destruct (place_piece x y mark b) as [r b'] eqn:E. simpl in H. subst r.
      apply place_piece_true in E as (? & ? & _ & _ & _ & ? & _). done.
    + intros Hp. destruct (place_piece_accepted b x y mark Hwf Hp) as (b' & -> & _).
      done.
Qed.

(** C1, witness: the first move on a fresh board of side 3. *)
Lemma place_piece_spec_witness :
  wf fresh3 ∧
  (fst (place_piece 0 0 TicPieceState.Check fresh3) = Ok true ↔ placeable fresh3 0 0).
Proof.
  split.
  - split; [reflexivity|]. repeat constructor.
  - apply (place_piece_spec fresh3 0 0 TicPieceState.Check).
    split; [reflexivity|]. repeat constructor.
Defined.

(** C1, counterexample to the claim as stated: a placement of the Empty
    mark on an empty cell is accepted and leaves the cell empty, so the
    same placement is accepted a second time. *)
Lemma place_piece_replay_of_empty_accepted :
  TicTacToe.init 3 = Ok fresh3 ∧
  place_piece 0 0 TicPieceState.Empty fresh3 = (Ok true, fresh3) ∧
  fst (place_piece 0 0 TicPieceState.Empty
         (snd (place_piece 0 0 TicPieceState.Empty fresh3))) = Ok true.
Proof. by vm_compute. Qed.

(** ** [place_random_piece] *)

Lemma collect_Ok_elem {A B} (f : A → result (list B)) l r x :
  collect f l = Ok r → x ∈ r → ∃ a bs, a ∈ l ∧ f a = Ok bs ∧ x ∈ bs.
Proof.
  revert r. induction l as [|a l IH]; intros r; simpl.
  - intros [= <-] H. by apply elem_of_nil in H.
  - destruct (f a) as [bs|] eqn:Ha; [|done]. simpl.
    destruct (collect f l) as [rest|] eqn:Hl; [|done]. simpl.
    intros [= <-] [H|H]%elem_of_app.
    + exists a, bs. split_and!; [left|done..].
    + destruct (IH rest eq_refl H) as (a' & bs' & ? & ? & ?).
      exists a', bs'. split_and!; [by right|done..].
Qed.

Lemma empty_cells_elem b cells x y :
  empty_cells b = Ok cells → (x, y) ∈ cells →
  get_cell b x y = Ok TicPieceState.Empty.
Proof.
  intros H Hin. unfold empty_cells in H.
  destruct (collect_Ok_elem _ _ _ _ H Hin) as (i & bs & _ & Hbs & Hin').
  destruct (collect_Ok_elem _ _ _ _ Hbs Hin') as (j & cs & _ & Hcs & Hin'').
  destruct (get_cell b i j) as [c|] eqn:Hc; [|done]. simpl in Hcs.
  injection Hcs as <-. case_bool_decide as Hd.
  - apply list_elem_of_singleton in Hin''. by simplify_eq.
  - by apply elem_of_nil in Hin''.
Qed.

Lemma random_choice_elem {A} `{Inhabited A} rnd (seq : list A) :
  seq ≠ [] → random_choice rnd seq ∈ seq.
Proof.
  intros Hne. unfold random_choice. apply list_elem_of_lookup_total_2.
  apply Nat.mod_upper_bound. by destruct seq.
Qed.

(** An accepted random placement writes the mark on one cell that was
    empty. *)
Lemma place_random_piece_true rnd b p b' :
  place_random_piece rnd p b = (Ok true, b') →
  ∃ ki kj, size b' = size b ∧ side b' = side b ∧
    cell_at b ki kj = Some TicPieceState.Empty ∧
    ∀ i j, cell_at b' i j =
           if bool_decide (i = ki ∧ j = kj) then Some p else cell_at b i j.
Proof.
  unfold place_random_piece.
  destruct (empty_cells b) as [cells|] eqn:Hcells; [|done].
  destruct cells as [|c0 cells']; [done|].
  destruct (random_choice rnd (c0 :: cells')) as [x y] eqn:Hch.
  assert ((x, y) ∈ c0 :: cells') as Hin.
  { rewrite <- Hch. by apply random_choice_elem. }
  pose proof (empty_cells_elem b _ x y Hcells Hin) as Hget.
  destruct (set_cell_after_get b x y _ p Hget)
    as (ki & kj & b'' & -> & Hsz & Hside & _ & _ & _ & Hc & Hrest).
  intros [= <-]. by exists ki, kj.
Qed.

Lemma place_random_piece_not_true rnd b p r b' :
  place_random_piece rnd p b = (r, b') → r ≠ Ok true → b' = b.
Proof.
  unfold place_random_piece.
  destruct (empty_cells b) as [cells|]; [|by intros [= _ <-]].
  destruct cells as [|c0 cells']; [by intros [= _ <-]|].
  destruct (random_choice rnd (c0 :: cells')) as [x y].
  destruct (set_cell b x y p); by intros [= <- <-].
Qed.

(** One board operation changes at most one cell, and only an empty one. *)
Lemma apply_op_cells o b :
  size (apply_op o b) = size b ∧ side (apply_op o b) = side b ∧
  ∀ i j, cell_at (apply_op o b) i j = cell_at b i j ∨
         cell_at b i j = Some TicPieceState.Empty.
Proof.
  destruct o as [x y p|rnd p]; simpl.
  - destruct (place_piece x y p b) as [r b'] eqn:E. simpl.
    destruct (decide (r = Ok true)) as [->|Hr].
    + apply place_piece_true in E as (_ & _ & ? & ? & _ & Hc & Hcells).
      split_and!; [done..|]. intros i j. rewrite Hcells.
      case_bool_decide as Hd; [|by left]. destruct Hd as [-> ->]. by right.
    + apply place_piece_not_true in E as ->; [|done]. by split_and!; [..|left].
  - destruct (place_random_piece rnd p b) as [r b'] eqn:E. simpl.
    destruct (decide (r = Ok true)) as [->|Hr].
    + apply place_random_piece_true in E as (ki & kj & ? & ? & Hc & Hcells).
      split_and!; [done..|]. intros i j. rewrite Hcells.
      case_bool_decide as Hd; [|by left]. destruct Hd as [-> ->]. by right.
    + apply place_random_piece_not_true in E as ->; [|done].
      by split_and!; [..|left].
Qed.

(** C10. Whatever sequence of placements and random placements is run on
    a board, its size stays the same, every cell that holds Check or
    Circle keeps its mark (so the occupied cells only grow), and each
    single operation changes no cell other than an empty one. *)
Theorem marks_are_permanent (os : list board_op) (b : TicTacToe.t) :
  size (apply_ops os b) = size b ∧
  side (apply_ops os b) = side b ∧
  (∀ i j p, cell_at b i j = Some p → p ≠ TicPieceState.Empty →
            cell_at (apply_ops os b) i j = Some p) ∧
  (∀ i j, occupied b i j → occupied (apply_ops os b) i j) ∧
  (∀ o i j, cell_at (apply_op o b) i j ≠ cell_at b i j →
            cell_at b i j = Some TicPieceState.Empty).
Proof.
  assert (∀ os b,
    size (apply_ops os b) = size b ∧ side (apply_ops os b) = side b ∧
    ∀ i j p, cell_at b i j = Some p → p ≠ TicPieceState.Empty →
             cell_at (apply_ops os b) i j = Some p) as Hseq.
  { clear. induction os as [|o os IH]; intros b; [done|].
    unfold apply_ops. simpl. fold (apply_ops os (apply_op o b)).
    destruct (IH (apply_op o b)) as (Hsz & Hside & Hcells).
    destruct (apply_op_cells o b) as (Hsz' & Hside' & Hcells').
    split_and!; [congruence..|].
    intros i j p Hp Hne. apply Hcells; [|done].
    destruct (Hcells' i j) as [->|Hempty]; [done|congruence]. }
  destruct (Hseq os b) as (Hsz & Hside & Hcells).
  split_and!; [done..| |].
  - intros i j (p & Hp & Hne). exists p. split; [|done]. by apply Hcells.
  - intros o i j Hdiff. destruct (apply_op_cells o b) as (_ & _ & Hc).
    by destruct (Hc i j).
Qed.

(** ** Loops *)

Lemma py_all_spec {A} (f : A → result bool) (l : list A) :
  (∀ a, a ∈ l → ∃ v, f a = Ok v) →
  ∃ r, py_all f l = Ok r ∧ (r = true ↔ ∀ a, a ∈ l → f a = Ok true).
Proof.
  induction l as [|a l IH]; intros Hok; simpl.
  - exists true. split; [done|]. split; [|done]. intros _ a Ha.
    by apply elem_of_nil in Ha.
  - destruct (Hok a) as [v Hv]; [left|]. rewrite Hv. simpl. destruct v.
    + destruct IH as (r & -> & Hr); [intros a' Ha'; apply Hok; by right|].
      exists r. split; [done|]. rewrite Hr. split.
      * intros H a' [->|Ha']%elem_of_cons; auto.
      * intros H a' Ha'. apply H. by right.
    + exists false. split; [done|]. split; [done|]. intros H.
      specialize (H a). rewrite Hv in H. by discriminate H; left.
Qed.

Lemma for_return_spec {A R} (body : A → result (option R)) (l : list A) :
  (∀ a, a ∈ l → ∃ o, body a = Ok o) →
  ∃ r, for_return l body = Ok r ∧
       match r with
       | Some v => ∃ a, a ∈ l ∧ body a = Ok (Some v)
       | None => ∀ a, a ∈ l → body a = Ok None
       end.
Proof.
  induction l as [|a l IH]; intros Hok; simpl.
  - exists None. split; [done|]. intros a Ha. by apply elem_of_nil in Ha.
  - destruct (Hok a) as [o Ho]; [left|]. rewrite Ho. simpl. destruct o as [v|].
    + exists (Some v). split; [done|]. exists a. split; [left|done].
    + destruct IH as (r & -> & Hr); [intros a' Ha'; apply Hok; by right|].
      exists r. split; [done|]. destruct r as [v|].
      * destruct Hr as (a' & ? & ?). exists a'. split; [by right|done].
      * intros a' [->|Ha']%elem_of_cons; auto.
Qed.

(** ** Lines of a board *)

(** A scan of the cells [f 0], ..., [f (size - 1)], all inside the grid,
    tells whether they all hold [p]. *)
Lemma all_cells_line b p (f : Z → Z * Z) (g : nat → nat * nat) :
  wf b →
  (∀ k, 0 ≤ k < size b →
        0 ≤ (f k).1 < size b ∧ 0 ≤ (f k).2 < size b ∧
        g (Z.to_nat k) = (Z.to_nat (f k).1, Z.to_nat (f k).2)) →
  ∃ r, all_cells b p (f <$> range (size b)) = Ok r ∧
       (r = true ↔ ∀ k, (k < side b)%nat → cell_at b (g k).1 (g k).2 = Some p).
Proof.
  intros Hwf Hf. unfold all_cells.
  set (body := λ '(i, j), c ← get_cell b i j; Ok (bool_decide (c = p))).
  assert (∀ k, 0 ≤ k < size b →
            body (f k) = Ok (bool_decide (cell_at b (g (Z.to_nat k)).1 (g (Z.to_nat k)).2 = Some p)))
    as Hbody.
  { intros k Hk. destruct (Hf k Hk) as (Hi & Hj & ->). simpl.
    destruct (f k) as [i j]. simpl in *.
    destruct (get_cell_wf b i j Hwf Hi Hj) as (c & -> & ->). simpl. f_equal.
    apply bool_decide_ext. split; congruence. }
  destruct (py_all_spec body (f <$> range (size b))) as (r & Hr & Hiff).
  { intros a (k & -> & Hk%elem_of_range)%list_elem_of_fmap. rewrite Hbody; eauto. }
  exists r. split; [done|]. rewrite Hiff. split.
  - intros H k Hk.
    assert (0 ≤ Z.of_nat k < size b) as Hk' by (rewrite (wf_size b Hwf); lia).
    specialize (H (f (Z.of_nat k))). rewrite Hbody in H by done.
    rewrite Nat2Z.id in H. eapply bool_decide_eq_true_1.
    assert (∀ x y : bool, Ok x = Ok y → x = y) as Hinj by (by intros ?? [= ?]).
    apply Hinj, H. apply list_elem_of_fmap_2. by apply elem_of_range.
  - intros H a (k & -> & Hk%elem_of_range)%list_elem_of_fmap.
    rewrite Hbody by done. f_equal. apply bool_decide_eq_true_2, H.
    rewrite (wf_size b Hwf) in Hk. lia.
Qed.

Lemma check_win_spec b p :
  wf b → ∃ r, check_win b p = Ok r ∧ (r = true ↔ has_line b p).
Proof.
  intros Hwf. unfold check_win.
  set (body := λ i : Z,
         row ← all_cells b p ((λ j, (i, j)) <$> range (size b));
         if row : bool then Ok (Some true) else
         col ← all_cells b p ((λ j, (j, i)) <$> range (size b));
         if col : bool then Ok (Some true) else Ok None).
  assert (∀ i, 0 ≤ i < size b →
            ∃ o, body i = Ok o ∧ (o = Some true ∨ o = None) ∧
                 (o = Some true ↔
                  row_full b p (Z.to_nat i) ∨ col_full b p (Z.to_nat i))) as Hbody.
  { intros i Hi. unfold body.
    destruct (all_cells_line b p (λ j, (i, j)) (λ k, (Z.to_nat i, k)) Hwf)
      as (r1 & -> & Hr1); [by intros k Hk|].
    destruct (all_cells_line b p (λ j, (j, i)) (λ k, (k, Z.to_nat i)) Hwf)
      as (r2 & Hr2e & Hr2); [by intros k Hk|].
    simpl in Hr1, Hr2. fold (row_full b p (Z.to_nat i)) in Hr1.
    fold (col_full b p (Z.to_nat i)) in Hr2. simpl.
    destruct r1.
    { exists (Some true). split_and!; [done|by left|]. split; [|done].
      intros _. left. by apply Hr1. }
    rewrite Hr2e. simpl. destruct r2.
    { exists (Some true). split_and!; [done|by left|]. split; [|done].
      intros _. right. by apply Hr2. }
    exists None. split_and!; [done|by right|]. split; [done|].
    intros [H|H]; [apply Hr1 in H|apply Hr2 in H]; done. }
  destruct (for_return_spec body (range (size b))) as (r & -> & Hr).
  { intros i Hi%elem_of_range. destruct (Hbody i Hi) as (o & ? & _). eauto. }
  simpl. destruct r as [v|].
  - destruct Hr as (i & Hi%elem_of_range & Hv).
    destruct (Hbody i Hi) as (o & Ho & Hcases & Hiff).
    assert (o = Some v) as -> by congruence.
    assert (v = true) as -> by (destruct Hcases; congruence).
    exists true. split; [done|]. split; [|done]. intros _.
    assert (Z.to_nat i < side b)%nat as Hlt by (rewrite (wf_size b Hwf) in Hi; lia).
    destruct Hiff as [[Hfull|Hfull] _]; [done|left|right; left]; eauto.
  - assert (∀ i, (i < side b)%nat → ¬ row_full b p i ∧ ¬ col_full b p i) as Hnone.
    { intros i Hi.
      assert (0 ≤ Z.of_nat i < size b) as Hi' by (rewrite (wf_size b Hwf); lia).
      destruct (Hbody _ Hi') as (o & Ho & _ & Hiff).
      rewrite Hr in Ho by (by apply elem_of_range). injection Ho as <-.
      rewrite Nat2Z.id in Hiff. destruct Hiff as [_ Hiff].
      split; intros Hfull; by discriminate Hiff; auto. }
    destruct (all_cells_line b p (λ i, (i, i)) (λ k, (k, k)) Hwf)
      as (r1 & -> & Hr1); [by intros k Hk|].
    destruct (all_cells_line b p (λ i, (i, size b - i - 1))
                (λ k, (k, side b - 1 - k)%nat) Hwf) as (r2 & Hr2e & Hr2).
    { intros k Hk. simpl. split_and!; [lia..|]. f_equal.
      rewrite (wf_size b Hwf) in *. lia. }
    simpl in Hr1, Hr2. fold (diag_full b p) in Hr1. fold (anti_full b p) in Hr2.
    simpl. destruct r1.
    { exists true. split; [done|]. split; [|done]. intros _. right; right; left.
      by apply Hr1. }
    rewrite Hr2e. simpl. destruct r2.
    { exists true. split; [done|]. split; [|done]. intros _. right; right; right.
      by apply Hr2. }
    exists false. split; [done|]. split; [done|].
    intros [(i & Hi & H)|[(i & Hi & H)|[H|H]]].
    + by destruct (Hnone i Hi).
    + by destruct (Hnone i Hi).
    + by apply Hr1 in H.
    + by apply Hr2 in H.
Qed.

Lemma row_all_true p (row : list TicPieceState.t) :
  row_all p row = true ↔ ∀ j, (j < length row)%nat → row !! j = Some p.
Proof.
  unfold row_all. induction row as [|c row IH]; simpl.
  - split; [|done]. intros _ j Hj. lia.
  - rewrite andb_true_iff, bool_decide_eq_true, IH. split.
    + intros [-> H] [|j] Hj; [done|]. apply H. lia.
    + intros H. split.
      * specialize (H 0%nat). simpl in H. by injection H; [|lia].
      * intros j Hj. apply (H (S j)). lia.
Qed.

Lemma row_full_row_all b p i row :
  wf b → board b !! i = Some row → row_full b p i ↔ row_all p row = true.
Proof.
  intros Hwf Hrow. rewrite row_all_true, (wf_row_length b i row Hwf Hrow).
  unfold row_full, cell_at. by rewrite Hrow.
Qed.

Lemma col_all_spec b p col :
  wf b → 0 ≤ col < size b →
  ∃ r, col_all b p col = Ok r ∧ (r = true ↔ col_full b p (Z.to_nat col)).
Proof.
  intros Hwf Hcol. unfold col_all.
  set (body := λ row : list TicPieceState.t,
                 c ← py_getitem row col; Ok (bool_decide (c = p))).
  assert (∀ i row, board b !! i = Some row →
            body row = Ok (bool_decide (cell_at b i (Z.to_nat col) = Some p))) as Hbody.
  { intros i row Hrow. unfold body, cell_at. rewrite Hrow. simpl.
    destruct (py_getitem_in_range row col) as (c & -> & ->).
    { rewrite (wf_row_length b i row Hwf Hrow), <- (wf_size b Hwf). done. }
    simpl. f_equal. apply bool_decide_ext. split; congruence. }
  destruct (py_all_spec body (board b)) as (r & Hr & Hiff).
  { intros row (i & Hi)%list_elem_of_lookup. rewrite (Hbody i row Hi). eauto. }
  exists r. split; [done|]. rewrite Hiff. unfold col_full. split.
  - intros H i Hi. destruct (lookup_lt_is_Some_2 (board b) i Hi) as [row Hrow].
    specialize (H row). rewrite (Hbody i row Hrow) in H.
    eapply bool_decide_eq_true_1.
    assert (∀ x y : bool, Ok x = Ok y → x = y) as Hinj by (by intros ?? [= ?]).
    apply Hinj, H. apply list_elem_of_lookup. eauto.
  - intros H row (i & Hi)%list_elem_of_lookup. rewrite (Hbody i row Hi). f_equal.
    apply bool_decide_eq_true_2, H. by eapply lookup_lt_Some.
Qed.

Lemma no_empty_spec b :
  forallb (λ cell, bool_decide (cell ≠ TicPieceState.Empty)) (concat (board b)) = true
  ↔ no_empty b.
Proof.
  unfold no_empty, cell_at. generalize (board b) as g.
  induction g as [|row g IH]; simpl.
  - split; [|done]. intros _ i j. by destruct i.
  - rewrite forallb_app, andb_true_iff, IH. split.
    + intros [Hrow Hg] [|i] j; simpl; [|apply Hg].
      intros Hj. apply list_elem_of_lookup_2 in Hj.
      rewrite forallb_forall in Hrow. apply list_elem_of_In, Hrow in Hj.
      by apply bool_decide_eq_true_1 in Hj.
    + intros H. split.
      * apply forallb_forall. intros c (j & Hj)%list_elem_of_In%list_elem_of_lookup.
        apply bool_decide_eq_true_2. intros ->. by apply (H 0%nat j).
      * intros i j. apply (H (S i) j).
Qed.

(** What each answer of [check_game_status] says about the board. *)
Lemma check_game_status_sound b :
  wf b →
  ∃ s, check_game_status b = Ok s ∧
       match s with
       | GameState.Circle => has_line b TicPieceState.Circle
       | GameState.Check => has_line b TicPieceState.Check
       | GameState.Draw =>
           ¬ has_line b TicPieceState.Circle ∧ ¬ has_line b TicPieceState.Check ∧
           no_empty b
       | GameState.Playing =>
           ¬ has_line b TicPieceState.Circle ∧ ¬ has_line b TicPieceState.Check ∧
           ¬ no_empty b
       end.
Proof.
  intros Hwf. unfold check_game_status.
  set (rows := λ row : list TicPieceState.t,
         if row_all TicPieceState.Circle row then Ok (Some GameState.Circle) else
         if row_all TicPieceState.Check row then Ok (Some GameState.Check)
         else Ok None).
  destruct (for_return_spec rows (board b)) as (r & -> & Hr).
  { intros row _. unfold rows. repeat case_match; eauto. }
  simpl. destruct r as [s|].
  { destruct Hr as (row & (i & Hi)%list_elem_of_lookup & Hs). exists s.
    split; [done|]. unfold rows in Hs.
    assert (i < side b)%nat as Hlt by (by eapply lookup_lt_Some).
    destruct (row_all TicPieceState.Circle row) eqn:E1.
    { injection Hs as <-. left. exists i. split; [done|].
      by apply (row_full_row_all b _ i row). }
    destruct (row_all TicPieceState.Check row) eqn:E2; [|done].
    injection Hs as <-. left. exists i. split; [done|].
    by apply (row_full_row_all b _ i row). }
  clear Hr rows.
  set (cols := λ col : Z,
         c ← col_all b TicPieceState.Circle col;
         if c : bool then Ok (Some GameState.Circle) else
         c ← col_all b TicPieceState.Check col;
         if c : bool then Ok (Some GameState.Check) else Ok None).
  assert (∀ col, 0 ≤ col < size b →
            ∃ o, cols col = Ok o ∧
              match o with
              | Some GameState.Circle => col_full b TicPieceState.Circle (Z.to_nat col)
              | Some GameState.Check => col_full b TicPieceState.Check (Z.to_nat col)
              | Some _ => False
              | None => True
              end) as Hcols.
  { intros col Hcol. unfold cols.
    destruct (col_all_spec b TicPieceState.Circle col Hwf Hcol) as (r1 & -> & Hr1).
    destruct (col_all_spec b TicPieceState.Check col Hwf Hcol) as (r2 & Hr2e & Hr2).
    simpl. destruct r1.
    { exists (Some GameState.Circle). split; [done|]. by apply Hr1. }
    rewrite Hr2e. simpl. destruct r2.
    { exists (Some GameState.Check). split; [done|]. by apply Hr2. }
    by exists None. }
  destruct (for_return_spec cols (range (size b))) as (r & -> & Hr).
  { intros col Hcol%elem_of_range. destruct (Hcols col Hcol) as (o & ? & _). eauto. }
  simpl. destruct r as [s|].
  { destruct Hr as (col & Hcol%elem_of_range & Hs). exists s. split; [done|].
    destruct (Hcols col Hcol) as (o & Ho & Hmatch).
    assert (o = Some s) as -> by congruence.
    assert (Z.to_nat col < side b)%nat as Hlt
      by (rewrite (wf_size b Hwf) in Hcol; lia).
    destruct s; try done; right; left; eauto. }
  destruct (check_win_spec b TicPieceState.Circle Hwf) as (w1 & -> & Hw1).
  destruct (check_win_spec b TicPieceState.Check Hwf) as (w2 & Hw2e & Hw2).
  simpl. destruct w1.
  { exists GameState.Circle. split; [done|]. by apply Hw1. }
  rewrite Hw2e. simpl. destruct w2.
  { exists GameState.Check. split; [done|]. by apply Hw2. }
  assert (¬ has_line b TicPieceState.Circle) as Hn1 by (by intros ?%Hw1).
  assert (¬ has_line b TicPieceState.Check) as Hn2 by (by intros ?%Hw2).
  destruct (forallb _ _) eqn:E.
  - exists GameState.Draw. split; [done|]. split_and!; [done..|].
    by apply no_empty_spec.
  - exists GameState.Playing. split; [done|]. split_and!; [done..|].
    intros ?%no_empty_spec. congruence.
Qed.

(** *** The order of the scan *)

Lemma for_return_at {A R} (body : A → result (option R)) (l1 : list A) a l2 v :
  (∀ a', a' ∈ l1 → body a' = Ok None) → body a = Ok (Some v) →
  for_return (l1 ++ a :: l2) body = Ok (Some v).
Proof.
  induction l1 as [|a0 l1 IH]; intros Hl1 Ha; simpl.
  - by rewrite Ha.
  - rewrite (Hl1 a0) by left. simpl. apply IH; [|done].
    intros a' Ha'. apply Hl1. by right.
Qed.

Lemma for_return_all_none {A R} (body : A → result (option R)) (l : list A) :
  (∀ a, a ∈ l → body a = Ok None) → for_return l body = Ok (@None R).
Proof.
  induction l as [|a l IH]; intros Hl; simpl; [done|].
  rewrite (Hl a) by left. simpl. apply IH. intros a' Ha'. apply Hl. by right.
Qed.

(** The loop returns what its first returning iteration returns. *)
Lemma for_return_lookup {A R} (body : A → result (option R)) (l : list A) i a v :
  l !! i = Some a →
  (∀ i' a', (i' < i)%nat → l !! i' = Some a' → body a' = Ok None) →
  body a = Ok (Some v) →
  for_return l body = Ok (Some v).
Proof.
  intros Hi Hbefore Ha. rewrite <- (take_drop_middle l i a Hi).
  apply for_return_at; [|done].
  intros a' (i' & Hi')%list_elem_of_lookup.
  apply lookup_take_Some in Hi' as [Hl Hlt]. by eapply Hbefore.
Qed.

Lemma check_game_status_scans b :
  check_game_status b =
    r ← for_return (board b) row_scan;
    match r with
    | Some s => Ok s
    | None =>
        r ← for_return (range (size b)) (col_scan b);
        match r with
        | Some s => Ok s
        | None =>
            w ← check_win b TicPieceState.Circle;
            if w : bool then Ok GameState.Circle else
            w ← check_win b TicPieceState.Check;
            if w : bool then Ok GameState.Check else
            if forallb (λ cell, bool_decide (cell ≠ TicPieceState.Empty))
                 (concat (board b))
            then Ok GameState.Draw
            else Ok GameState.Playing
        end
    end.
Proof. reflexivity. Qed.

Lemma full_of_one_mark b (f : nat → option TicPieceState.t) p q :
  (0 < side b)%nat →
  (∀ k, (k < side b)%nat → f k = Some p) → (∀ k, (k < side b)%nat → f k = Some q) →
  p = q.
Proof. intros Hpos Hp Hq. specialize (Hp 0%nat Hpos). specialize (Hq 0%nat Hpos). congruence. Qed.

Lemma row_scan_spec b i row :
  wf b → board b !! i = Some row →
  (row_full b TicPieceState.Circle i → row_scan row = Ok (Some GameState.Circle)) ∧
  (row_full b TicPieceState.Check i → row_scan row = Ok (Some GameState.Check)) ∧
  (¬ row_decided b i → row_scan row = Ok None).
Proof.
  intros Hwf Hrow. pose proof (lookup_lt_Some _ _ _ Hrow) as Hi.
  pose proof (row_full_row_all b TicPieceState.Circle i row Hwf Hrow) as H1.
  pose proof (row_full_row_all b TicPieceState.Check i row Hwf Hrow) as H2.
  unfold row_scan, row_decided. split_and!.
  - intros Hfull. by rewrite (proj1 H1 Hfull).
  - intros Hfull.
    assert (row_all TicPieceState.Circle row = false) as ->.
    { apply not_true_is_false. intros E1. apply H1 in E1.
      assert (TicPieceState.Circle = TicPieceState.Check); [|done].
      apply (full_of_one_mark b (λ j, cell_at b i j)); [unfold side; lia|done..]. }
    by rewrite (proj1 H2 Hfull).
  - intros Hno.
    assert (row_all TicPieceState.Circle row = false) as ->
      by (apply not_true_is_false; intros E; apply H1 in E; tauto).
    assert (row_all TicPieceState.Check row = false) as ->
      by (apply not_true_is_false; intros E; apply H2 in E; tauto).
    done.
Qed.

Lemma col_scan_spec b j :
  wf b → (j < side b)%nat →
  (col_full b TicPieceState.Circle j →
   col_scan b (Z.of_nat j) = Ok (Some GameState.Circle)) ∧
  (col_full b TicPieceState.Check j →
   col_scan b (Z.of_nat j) = Ok (Some GameState.Check)) ∧
  (¬ col_decided b j → col_scan b (Z.of_nat j) = Ok None).
Proof.
  intros Hwf Hj.
  assert (0 ≤ Z.of_nat j < size b) as Hcol by (rewrite (wf_size b Hwf); lia).
  destruct (col_all_spec b TicPieceState.Circle _ Hwf Hcol) as (r1 & Hr1 & H1).
  destruct (col_all_spec b TicPieceState.Check _ Hwf Hcol) as (r2 & Hr2 & H2).
  rewrite Nat2Z.id in H1, H2.
  unfold col_scan, col_decided. rewrite Hr1. simpl. split_and!.
  - intros Hfull. by rewrite (proj2 H1 Hfull).
  - intros Hfull. destruct r1.
    + assert (TicPieceState.Circle = TicPieceState.Check); [|done].
      apply (full_of_one_mark b (λ i, cell_at b i j)); [lia|by apply H1|done].
    + rewrite Hr2. simpl. by rewrite (proj2 H2 Hfull).
  - intros Hno. destruct r1; [destruct H1 as [H1 _]; tauto|].
    rewrite Hr2. simpl. destruct r2; [destruct H2 as [H2 _]; tauto|done].
Qed.

Lemma row_loop_none b :
  wf b → (∀ i, (i < side b)%nat → ¬ row_decided b i) →
  for_return (board b) row_scan = Ok None.
Proof.
  intros Hwf Hno. apply for_return_all_none.
  intros row (i & Hi)%list_elem_of_lookup.
  apply (row_scan_spec b i row Hwf Hi), Hno. by eapply lookup_lt_Some.
Qed.

Lemma col_loop_none b :
  wf b → (∀ j, (j < side b)%nat → ¬ col_decided b j) →
  for_return (range (size b)) (col_scan b) = Ok None.
Proof.
  intros Hwf Hno. apply for_return_all_none.
  intros col Hcol%elem_of_range. rewrite (wf_size b Hwf) in Hcol.
  rewrite <- (Z2Nat.id col) by lia.
  apply (col_scan_spec b (Z.to_nat col) Hwf); [lia|]. apply Hno. lia.
Qed.

(** The first full row decides, then the first full column, then the
    diagonals of Circle, then those of Check. *)
Lemma check_game_status_order b s :
  wf b → check_game_status b = Ok s →
  (∀ i, (i < side b)%nat → (∀ i', (i' < i)%nat → ¬ row_decided b i') →
     (row_full b TicPieceState.Circle i → s = GameState.Circle) ∧
     (row_full b TicPieceState.Check i → s = GameState.Check)) ∧
  ((∀ i, (i < side b)%nat → ¬ row_decided b i) →
   ∀ j, (j < side b)%nat → (∀ j', (j' < j)%nat → ¬ col_decided b j') →
     (col_full b TicPieceState.Circle j → s = GameState.Circle) ∧
     (col_full b TicPieceState.Check j → s = GameState.Check)) ∧
  ((∀ i, (i < side b)%nat → ¬ row_decided b i) →
   (∀ j, (j < side b)%nat → ¬ col_decided b j) →
   (diag_full b TicPieceState.Circle ∨ anti_full b TicPieceState.Circle →
    s = GameState.Circle) ∧
   (¬ (diag_full b TicPieceState.Circle ∨ anti_full b TicPieceState.Circle) →
    diag_full b TicPieceState.Check ∨ anti_full b TicPieceState.Check →
    s = GameState.Check)).
Proof.
  intros Hwf Hs. rewrite check_game_status_scans in Hs. split_and!.
  - intros i Hi Habove.
    destruct (lookup_lt_is_Some_2 (board b) i Hi) as [row Hrow].
    destruct (row_scan_spec b i row Hwf Hrow) as (H1 & H2 & _).
    assert (∀ v, row_scan row = Ok (Some v) → s = v) as Hfirst.
    { intros v Hv.
      rewrite (for_return_lookup row_scan (board b) i row v Hrow) in Hs; [|..|done].
      - simpl in Hs. congruence.
      - intros i' row' Hlt Hrow'.
        by apply (row_scan_spec b i' row' Hwf Hrow'), Habove. }
    split; intros Hfull; apply Hfirst; auto.
  - intros Hrows j Hj Hleft. rewrite (row_loop_none b Hwf Hrows) in Hs. simpl in Hs.
    destruct (col_scan_spec b j Hwf Hj) as (H1 & H2 & _).
    assert (range (size b) !! j = Some (Z.of_nat j)) as Hlook.
    { unfold range. by rewrite lookup_seqZ_lt by (rewrite (wf_size b Hwf); lia). }
    assert (∀ v, col_scan b (Z.of_nat j) = Ok (Some v) → s = v) as Hfirst.
    { intros v Hv.
      rewrite (for_return_lookup (col_scan b) _ j _ v Hlook) in Hs; [|..|done].
      - simpl in Hs. congruence.
      - intros j' col' Hlt Hcol'. unfold range in Hcol'.
        apply lookup_seqZ in Hcol' as [-> _]. rewrite Z.add_0_l.
        apply (col_scan_spec b j' Hwf); [lia|]. by apply Hleft. }
    split; intros Hfull; apply Hfirst; auto.
  - intros Hrows Hcols.
    rewrite (row_loop_none b Hwf Hrows) in Hs. simpl in Hs.
    rewrite (col_loop_none b Hwf Hcols) in Hs. simpl in Hs.
    destruct (check_win_spec b TicPieceState.Circle Hwf) as (w1 & Hw1 & Hiff1).
    destruct (check_win_spec b TicPieceState.Check Hwf) as (w2 & Hw2 & Hiff2).
    rewrite Hw1 in Hs. simpl in Hs.
    assert (∀ p, (p = TicPieceState.Circle ∨ p = TicPieceState.Check) →
                 has_line b p ↔ diag_full b p ∨ anti_full b p) as Hlines.
    { intros p Hp. unfold has_line. split; [|tauto].
      intros [(i & Hi & H)|[(j & Hj & H)|H]]; [| |done].
      - exfalso. apply (Hrows i Hi). destruct Hp as [-> | ->]; [by left|by right].
      - exfalso. apply (Hcols j Hj). destruct Hp as [-> | ->]; [by left|by right]. }
    split.
    + intros Hd. apply (Hlines _ (or_introl eq_refl)), Hiff1 in Hd. subst w1.
      by injection Hs.
    + intros Hnd Hd. destruct w1.
      { exfalso. apply Hnd, (Hlines _ (or_introl eq_refl)). by apply Hiff1. }
      rewrite Hw2 in Hs. simpl in Hs.
      apply (Hlines _ (or_intror eq_refl)), Hiff2 in Hd. subst w2.
      by injection Hs.
Qed.

(** C2 (as amended). On a well-formed board [check_game_status] returns
    an answer. It answers with a mark's win only if some full row, some
    full column or one of the two main diagonals consists entirely of that
    mark; if such a line exists for one mark and none for the other, that
    mark's win is the answer; if such lines exist for both marks, the
    answer is the win of the first found in the order of the scan: the
    mark of the topmost row that is full of one mark; when there is no
    such row, the mark of the leftmost column that is full of one mark;
    when there is no such row or column, Circle if a diagonal is full of
    Circle, and otherwise Check. It answers Draw exactly when neither mark
    has such a line and no cell is Empty, and Playing exactly when neither
    mark has such a line and some cell is Empty. *)
Theorem check_game_status_spec b :
  wf b →
  ∃ s, check_game_status b = Ok s ∧
    (s = GameState.Circle → has_line b TicPieceState.Circle) ∧
    (s = GameState.Check → has_line b TicPieceState.Check) ∧
    (has_line b TicPieceState.Circle → ¬ has_line b TicPieceState.Check →
     s = GameState.Circle) ∧
    (has_line b TicPieceState.Check → ¬ has_line b TicPieceState.Circle →
     s = GameState.Check) ∧
    (has_line b TicPieceState.Circle ∨ has_line b TicPieceState.Check →
     s = GameState.Circle ∨ s = GameState.Check) ∧
    (∀ i, (i < side b)%nat → (∀ i', (i' < i)%nat → ¬ row_decided b i') →
       (row_full b TicPieceState.Circle i → s = GameState.Circle) ∧
       (row_full b TicPieceState.Check i → s = GameState.Check)) ∧
    ((∀ i, (i < side b)%nat → ¬ row_decided b i) →
     ∀ j, (j < side b)%nat → (∀ j', (j' < j)%nat → ¬ col_decided b j') →
       (col_full b TicPieceState.Circle j → s = GameState.Circle) ∧
       (col_full b TicPieceState.Check j → s = GameState.Check)) ∧
    ((∀ i, (i < side b)%nat → ¬ row_decided b i) →
     (∀ j, (j < side b)%nat → ¬ col_decided b j) →
     (diag_full b TicPieceState.Circle ∨ anti_full b TicPieceState.Circle →
      s = GameState.Circle) ∧
     (¬ (diag_full b TicPieceState.Circle ∨ anti_full b TicPieceState.Circle) →
      diag_full b TicPieceState.Check ∨ anti_full b TicPieceState.Check →
      s = GameState.Check)) ∧
    (s = GameState.Draw ↔
     ¬ has_line b TicPieceState.Circle ∧ ¬ has_line b TicPieceState.Check ∧
     no_empty b) ∧
    (s = GameState.Playing ↔
     ¬ has_line b TicPieceState.Circle ∧ ¬ has_line b TicPieceState.Check ∧
     ¬ no_empty b).
Proof.
  intros Hwf. destruct (check_game_status_sound b Hwf) as (s & Hs & Hmatch).
  destruct (check_game_status_order b s Hwf Hs) as (Hrows & Hcols & Hdiags).
  exists s. split; [done|].
  split_and!; [..|exact Hrows|exact Hcols|exact Hdiags| |];
    destruct s; try done; try tauto; try (intros; tauto);
    try (split; [done|tauto]).
Qed.

(** C2, witness: on the board where Check holds row 0 and Circle row 1,
    the topmost full row decides for Check. *)
Lemma check_game_status_spec_witness :
  wf two_lines3 ∧
  row_full two_lines3 TicPieceState.Check 0 ∧
  has_line two_lines3 TicPieceState.Circle ∧
  check_game_status two_lines3 = Ok GameState.Check.
Proof.
  assert (wf two_lines3) as Hwf by (split; [reflexivity|repeat constructor]).
  assert (row_full two_lines3 TicPieceState.Check 0) as Hrow.
  { intros j Hj. change (side two_lines3) with 3%nat in Hj.
    destruct j as [|[|[|j]]]; [reflexivity..|lia]. }
  assert (has_line two_lines3 TicPieceState.Circle) as Hline.
  { left. exists 1%nat. split; [vm_compute; lia|].
    intros j Hj. change (side two_lines3) with 3%nat in Hj.
    destruct j as [|[|[|j]]]; [reflexivity..|lia]. }
  split; [exact Hwf|]. split; [exact Hrow|]. split; [exact Hline|].
  destruct (check_game_status_spec two_lines3 Hwf)
    as (s & Hs & _ & _ & _ & _ & _ & Hrows & _).
  destruct (Hrows 0%nat) as [_ Hcheck].
  - vm_compute. lia.
  - intros i' Hi'. lia.
  - rewrite Hs. f_equal. exact (Hcheck Hrow).
Defined.

(** C2, counterexample to the claim as stated: the board below is reached
    by placements from the fresh board; its row 1 consists entirely of
    Circle, yet the answer is the win of Check, which holds row 0. *)
Lemma check_game_status_two_lines :
  apply_ops [Place 0 0 TicPieceState.Check; Place 0 1 TicPieceState.Check;
             Place 1 0 TicPieceState.Circle; Place 1 1 TicPieceState.Circle;
             Place 0 2 TicPieceState.Check; PlaceRandom 0 TicPieceState.Circle]
    fresh3 = two_lines3 ∧
  has_line two_lines3 TicPieceState.Circle ∧
  check_game_status two_lines3 = Ok GameState.Check ∧
  check_game_status two_lines3 ≠ Ok GameState.Circle.
Proof.
  split_and!; [by vm_compute| |by vm_compute|by vm_compute].
  left. exists 1%nat. split; [vm_compute; lia|].
  intros j Hj. change (side two_lines3) with 3%nat in Hj.
  destruct j as [|[|[|j]]]; [done..|lia].
Qed.

(** The scenarios of the specification. *)
Example scenario_first_move :
  check_game_status (snd (place_piece 0 0 TicPieceState.Check fresh3))
  = Ok GameState.Playing.
Proof. by vm_compute. Qed.

Example scenario_row_of_check :
  check_game_status
    (apply_ops [Place 0 0 TicPieceState.Check; Place 0 1 TicPieceState.Check;
                Place 0 2 TicPieceState.Check] fresh3)
  = Ok GameState.Check.
Proof. by vm_compute. Qed.

Example scenario_draw :
  check_game_status
    (TicTacToe.Build 3
       [[TicPieceState.Check; TicPieceState.Circle; TicPieceState.Check];
        [TicPieceState.Check; TicPieceState.Circle; TicPieceState.Circle];
        [TicPieceState.Circle; TicPieceState.Check; TicPieceState.Check]])
  = Ok GameState.Draw.
Proof. by vm_compute. Qed.

(** ** Strings *)

Lemma str_app_cons (x : ascii) (a b : string) :
  String x a +:+ b = String x (a +:+ b).
Proof. reflexivity. Qed.

Lemma str_app_assoc (a b c : string) : (a +:+ b) +:+ c = a +:+ (b +:+ c).
Proof. induction a as [|x a IH]; [done|]. by rewrite !str_app_cons, IH. Qed.

Lemma str_app_nil_r (a : string) : a +:+ "" = a.
Proof. induction a as [|x a IH]; [done|]. by rewrite str_app_cons, IH. Qed.

Lemma str_length_app (a b : string) :
  String.length (a +:+ b) = (String.length a + String.length b)%nat.
Proof. induction a as [|x a IH]; [done|]. rewrite str_app_cons. simpl. by rewrite IH. Qed.

Lemma strip_prefix_app (p rest : string) : strip_prefix p (p +:+ rest) = Some rest.
Proof.
  induction p as [|x p IH]; [done|].
  rewrite str_app_cons. simpl. by rewrite Ascii.eqb_refl.
Qed.

(** A text transformation that works through a serialized list item by
    item. *)
Section through_lists.
Context (R : string → string).
Context (R_open : ∀ rest, R ("[" +:+ rest) = "[" +:+ R rest).
Context (R_close : ∀ rest, R ("]" +:+ rest) = "]" +:+ R rest).
Context (R_sep : ∀ rest, R (", " +:+ rest) = ", " +:+ R rest).
Context {A : Type} (enc enc' : A → string).
Context (R_item : ∀ a rest, R (enc a +:+ rest) = enc' a +:+ R rest).

Lemma through_join (l : list A) rest :
  R (join ", " (enc <$> l) +:+ rest) = join ", " (enc' <$> l) +:+ R rest.
Proof.
  induction l as [|a l IH]; [done|].
  destruct l as [|a' l]; [apply R_item|].
  change (join ", " (enc <$> a :: a' :: l))
    with (enc a +:+ ", " +:+ join ", " (enc <$> a' :: l)).
  change (join ", " (enc' <$> a :: a' :: l))
    with (enc' a +:+ ", " +:+ join ", " (enc' <$> a' :: l)).
  rewrite !str_app_assoc, R_item, R_sep, IH. done.
Qed.

Lemma through_json_list (l : list A) rest :
  R (json_list enc l +:+ rest) = json_list enc' l +:+ R rest.
Proof.
  unfold json_list. rewrite !str_app_assoc, R_open, through_join, R_close. done.
Qed.
End through_lists.

Lemma json_list_fmap {A B} (enc : B → string) (f : A → B) (l : list A) :
  json_list enc (f <$> l) = json_list (λ a, enc (f a)) l.
Proof. unfold json_list. by rewrite <- list_fmap_compose. Qed.

Lemma json_list_ext {A} (enc enc' : A → string) (l : list A) :
  (∀ a, enc a = enc' a) → json_list enc l = json_list enc' l.
Proof.
  intros H. unfold json_list. do 3 f_equal. apply list_fmap_ext. auto.
Qed.

(** A board serialized with some choice of tokens. *)
Lemma board_tokens (tok : TicPieceState.t → string) (g : list (list TicPieceState.t)) :
  json_list (json_list json_str) ((λ row : list TicPieceState.t, tok <$> row) <$> g)
  = json_list (json_list (λ c, json_str (tok c))) g.
Proof.
  rewrite json_list_fmap. apply json_list_ext. intros row. apply json_list_fmap.
Qed.

Lemma replace_board (old new : string) (tok tok' : TicPieceState.t → string)
    (g : list (list TicPieceState.t)) :
  (∀ rest, replace_from old new 0 ("[" +:+ rest) = "[" +:+ replace_from old new 0 rest) →
  (∀ rest, replace_from old new 0 ("]" +:+ rest) = "]" +:+ replace_from old new 0 rest) →
  (∀ rest, replace_from old new 0 (", " +:+ rest) = ", " +:+ replace_from old new 0 rest) →
  (∀ c rest, replace_from old new 0 (json_str (tok c) +:+ rest)
             = json_str (tok' c) +:+ replace_from old new 0 rest) →
  str_replace
    (json_list (json_list json_str) ((λ row : list TicPieceState.t, tok <$> row) <$> g))
    old new
  = json_list (json_list json_str) ((λ row : list TicPieceState.t, tok' <$> row) <$> g).
Proof.
  intros Hopen Hclose Hsep Htok. rewrite !board_tokens. unfold str_replace.
  rewrite <- (str_app_nil_r (json_list (json_list (λ c, json_str (tok c))) g)).
  rewrite (through_json_list _ Hopen Hclose Hsep _
             (json_list (λ c, json_str (tok' c)))).
  - apply str_app_nil_r.
  - intros row rest. by apply through_json_list.
Qed.

(** The two replacements of the broadcast turn the snapshot into the
    array of display tokens. *)
Lemma replace_get_board b :
  str_replace (str_replace (get_board_value b) "Circle" "O") "Check" "X"
  = display_board b.
Proof.
  unfold get_board_value, display_board.
  rewrite (replace_board "Circle" "O" TicPieceState.value half_display);
    [|done..|by intros []].
  apply replace_board; [done..|by intros []].
Qed.

(** ** Reading a snapshot back *)

Section parse.
Context {A : Type} (enc : A → string) (item : string → option (A * string)).
Context (item_enc : ∀ a rest, item (enc a +:+ rest) = Some (a, rest)).
Context (enc_not_close : ∀ a rest, strip_prefix "]" (enc a +:+ rest) = None).

Lemma enc_length (a : A) : (1 ≤ String.length (enc a))%nat.
Proof.
  specialize (enc_not_close a "]"). destruct (enc a); [done|]. simpl. lia.
Qed.

Lemma join_length (l : list A) rest :
  (length l ≤ String.length (join ", " (enc <$> l) +:+ rest))%nat.
Proof.
  induction l as [|a l IH]; [simpl; lia|].
  destruct l as [|a' l].
  - simpl. rewrite str_length_app. pose proof (enc_length a). lia.
  - change (join ", " (enc <$> a :: a' :: l))
      with (enc a +:+ ", " +:+ join ", " (enc <$> a' :: l)).
    rewrite !str_app_assoc, str_length_app. pose proof (enc_length a).
    rewrite str_length_app. simpl in *. lia.
Qed.

Lemma parse_items_join (l : list A) fuel rest :
  l ≠ [] → (length l ≤ fuel)%nat →
  parse_items item fuel (join ", " (enc <$> l) +:+ "]" +:+ rest) = Some (l, rest).
Proof.
  revert fuel. induction l as [|a l IH]; [done|]. intros fuel _ Hfuel.
  destruct fuel as [|fuel]; [simpl in Hfuel; lia|].
  destruct l as [|a' l].
  - simpl. by rewrite item_enc.
  - change (join ", " (enc <$> a :: a' :: l))
      with (enc a +:+ ", " +:+ join ", " (enc <$> a' :: l)).
    rewrite !str_app_assoc. simpl. rewrite item_enc. simpl.
    rewrite IH; [done|done|simpl in *; lia].
Qed.

Lemma parse_list_json_list (l : list A) rest :
  parse_list item (json_list enc l +:+ rest) = Some (l, rest).
Proof.
  unfold parse_list, json_list. rewrite !str_app_assoc, strip_prefix_app.
  destruct l as [|a l]; [done|].
  assert (strip_prefix "]" (join ", " (enc <$> a :: l) +:+ "]" +:+ rest) = None)
    as ->.
  { destruct l as [|a' l]; [apply enc_not_close|].
    change (join ", " (enc <$> a :: a' :: l))
      with (enc a +:+ ", " +:+ join ", " (enc <$> a' :: l)).
    rewrite str_app_assoc. apply enc_not_close. }
  apply parse_items_join; [done|]. apply join_length.
Qed.
End parse.

Lemma parse_token_json_str c rest :
  parse_token (json_str (TicPieceState.value c) +:+ rest) = Some (c, rest).
Proof. by destruct c. Qed.

(** Decoding the snapshot of a board gives back its grid. *)
Lemma decode_get_board b : decode_board (get_board_value b) = Some (board b).
Proof.
  unfold decode_board, get_board_value. rewrite board_tokens.
  rewrite <- (str_app_nil_r (json_list _ (board b))).
  rewrite (parse_list_json_list (json_list (λ c, json_str (TicPieceState.value c)))).
  - done.
  - intros row rest. apply parse_list_json_list.
    + apply parse_token_json_str.
    + by intros [].
  - done.
Qed.

(** ** Construction *)

Lemma fmap_const_replicate {A B} (x : B) (l : list A) :
  (λ _, x) <$> l = replicate (length l) x.
Proof. induction l as [|a l IH]; [done|]. simpl. by rewrite <- IH. Qed.

Lemma init_Ok size b :
  TicTacToe.init size = Ok b ↔
  3 ≤ size ≤ 25 ∧
  b = TicTacToe.Build size
        (replicate (Z.to_nat size) (replicate (Z.to_nat size) TicPieceState.Empty)).
Proof.
  unfold TicTacToe.init, range.
  rewrite !fmap_const_replicate, !length_seqZ.
  destruct (Z.ltb_spec size 3), (Z.gtb_spec size 25); simpl;
    (split; [intros [= <-] || done|intros [? ->]]); (done || lia).
Qed.

Lemma init_Raise size e :
  TicTacToe.init size = Raise e ↔
  (size < 3 ∨ size > 25) ∧
  e = MaxSizeException "Invalid board size. Size must be between 3 and 25.".
Proof.
  unfold TicTacToe.init.
  destruct (Z.ltb_spec size 3), (Z.gtb_spec size 25); simpl;
    (split; [intros [= <-] || done|intros [? ->]]); (done || lia || (split; [lia|done])).
Qed.

Lemma init_wf size b : TicTacToe.init size = Ok b → wf b.
Proof.
  intros [Hsz ->]%init_Ok. split; simpl.
  - rewrite length_replicate. lia.
  - rewrite length_replicate. apply Forall_replicate, length_replicate.
Qed.

Lemma init_cells size b i j :
  TicTacToe.init size = Ok b → (i < Z.to_nat size)%nat → (j < Z.to_nat size)%nat →
  cell_at b i j = Some TicPieceState.Empty.
Proof.
  intros [_ ->]%init_Ok Hi Hj. unfold cell_at. simpl.
  rewrite lookup_replicate_2 by done. simpl. by rewrite lookup_replicate_2.
Qed.

(** ** Placement sequences *)

Lemma place_all_cells moves b b' :
  place_all moves b = Some b' →
  side b' = side b ∧
  ∀ i j, cell_at b' i j =
         match cell_at b i j with
         | Some c => Some (last_mark moves i j c)
         | None => None
         end.
Proof.
  revert b. induction moves as [|m moves IH]; intros b; simpl.
  - intros [= <-]. split; [done|]. intros i j. by destruct (cell_at b i j).
  - destruct (place_piece _ _ _ b) as [[[]|] b1] eqn:E; [|done..].
    intros H. destruct (IH b1 H) as (Hside & Hcells).
    apply place_piece_true in E as (Hx & Hy & _ & Hside1 & _ & Hc & Hcells1).
    split; [congruence|]. intros i j. rewrite Hcells, Hcells1.
    case_bool_decide as Hd.
    + destruct Hd as [-> ->]. rewrite Hc.
      rewrite bool_decide_eq_true_2 by lia. done.
    + rewrite bool_decide_eq_false_2 by lia. done.
Qed.

(** C9. After any sequence of successful placements on a freshly
    constructed board, the snapshot decodes to exactly the grid of the
    board; this grid has [size] rows of [size] cells, each cell holding the
    mark of the last placement made on it, or Empty when there was none;
    and [get_board] leaves the board as it was. *)
Theorem snapshot_round_trip size moves b0 b :
  TicTacToe.init size = Ok b0 →
  place_all moves b0 = Some b →
  ∃ s, get_board b = (Ok s, b) ∧
       decode_board s = Some (board b) ∧
       wf b ∧ size = TicTacToe.size b ∧
       ∀ i j, (i < Z.to_nat size)%nat → (j < Z.to_nat size)%nat →
              cell_at b i j = Some (last_mark moves i j TicPieceState.Empty).
Proof.
  intros Hinit Hall. exists (get_board_value b). split_and!.
  - done.
  - apply decode_get_board.
  - clear -Hinit Hall. apply init_wf in Hinit. revert b0 Hinit Hall.
    induction moves as [|m moves IH]; intros b0 Hwf; simpl.
    + by intros [= <-].
    + destruct (place_piece _ _ _ b0) as [[[]|] b1] eqn:E; [|done..].
      apply IH.
      pose proof (place_piece_wf b0 (Position.x m) (Position.y m) (Position.type m) Hwf)
        as H.
      by rewrite E in H.
  - clear -Hinit Hall. apply init_Ok in Hinit as [_ ->].
    set (b0 := TicTacToe.Build _ _) in Hall.
    change size with (TicTacToe.size b0). clearbody b0. revert b0 Hall.
    induction moves as [|m moves IH]; intros b0; simpl.
    + by intros [= <-].
    + destruct (place_piece _ _ _ b0) as [[[]|] b1] eqn:E; [|done..].
      intros H. rewrite <- (IH b1 H).
      by apply place_piece_true in E as (_ & _ & -> & _).
  - intros i j Hi Hj. destruct (place_all_cells moves b0 b Hall) as (_ & ->).
    by rewrite (init_cells size b0 i j).
Qed.

(** C9, witness: the snapshot after Check was placed on (0, 0) of a fresh
    board of side 3. *)
Lemma snapshot_round_trip_witness :
  TicTacToe.init 3 = Ok fresh3 ∧
  place_all [move 0 0 TicPieceState.Check] fresh3 = Some check_corner3 ∧
  ∃ s, get_board check_corner3 = (Ok s, check_corner3) ∧
       decode_board s = Some (TicTacToe.board check_corner3).
Proof.
  assert (TicTacToe.init 3 = Ok fresh3) as Hinit by reflexivity.
  assert (place_all [move 0 0 TicPieceState.Check] fresh3 = Some check_corner3)
    as Hall by reflexivity.
  split; [exact Hinit|]. split; [exact Hall|].
  destruct (snapshot_round_trip 3 [move 0 0 TicPieceState.Check] fresh3 check_corner3
              Hinit Hall) as (s & Hget & Hdec & _).
  exists s. split; [exact Hget|exact Hdec].
Defined.

(** ** Board operations on a well-formed board never raise *)

Lemma collect_Ok {A B} (f : A → result (list B)) (l : list A) :
  (∀ a, a ∈ l → ∃ bs, f a = Ok bs) → ∃ r, collect f l = Ok r.
Proof.
  induction l as [|a l IH]; intros Hok; simpl; [eauto|].
  destruct (Hok a) as [bs ->]; [left|]. simpl.
  destruct IH as [rest ->]; [intros a' Ha'; apply Hok; by right|]. simpl. eauto.
Qed.

Lemma empty_cells_wf b : wf b → ∃ cells, empty_cells b = Ok cells.
Proof.
  intros Hwf. unfold empty_cells. apply collect_Ok. intros i Hi%elem_of_range.
  apply collect_Ok. intros j Hj%elem_of_range.
  destruct (get_cell_wf b i j Hwf Hi Hj) as (c & -> & _). simpl. eauto.
Qed.

Lemma place_piece_wf_result b x y p :
  wf b → ∃ r, fst (place_piece x y p b) = Ok r.
Proof.
  intros Hwf. destruct (decide (placeable b x y)) as [Hp|Hp].
  - destruct (place_piece_accepted b x y p Hwf Hp) as (b' & -> & _). eauto.
  - rewrite (place_piece_refused b x y p Hwf Hp). eauto.
Qed.

Lemma place_random_piece_wf_result rnd b p :
  wf b → ∃ r, fst (place_random_piece rnd p b) = Ok r.
Proof.
  intros Hwf. unfold place_random_piece.
  destruct (empty_cells_wf b Hwf) as [cells Hcells]. rewrite Hcells.
  destruct cells as [|c0 cells']; [eauto|].
  destruct (random_choice rnd (c0 :: cells')) as [x y] eqn:Hch.
  assert ((x, y) ∈ c0 :: cells') as Hin.
  { rewrite <- Hch. by apply random_choice_elem. }
  pose proof (empty_cells_elem b _ x y Hcells Hin) as Hget.
  destruct (set_cell_after_get b x y _ p Hget) as (? & ? & ? & -> & _). eauto.
Qed.

Lemma place_random_piece_wf rnd b p : wf b → wf (snd (place_random_piece rnd p b)).
Proof.
  intros Hwf. unfold place_random_piece.
  destruct (empty_cells b) as [[|c0 cells']|]; [done| |done].
  destruct (random_choice rnd (c0 :: cells')) as [x y].
  destruct (set_cell b x y p) eqn:E; [|done]. simpl. by eapply set_cell_wf.
Qed.

Lemma board_after_turn_wf ai position rnd b :
  wf b → wf (board_after_turn ai position rnd b).
Proof.
  intros Hwf. unfold board_after_turn.
  destruct ai; [apply place_random_piece_wf|]; by apply place_piece_wf.
Qed.

(** ** The steps of a handler *)

Lemma bind_run {A B} (m : Handler A) (k : A → Handler B) w :
  (m ≫= k) w = match m w with
               | (Ok a, w') => k a w'
               | (Raise e, w') => (Raise e, w')
               end.
Proof. reflexivity. Qed.

Lemma add_outbox_nil w : add_outbox [] w = w.
Proof. destruct w. unfold add_outbox. simpl. by rewrite app_nil_r. Qed.

Lemma add_outbox_app l1 l2 w : add_outbox l2 (add_outbox l1 w) = add_outbox (l1 ++ l2) w.
Proof. unfold add_outbox. simpl. by rewrite app_assoc. Qed.

Lemma for_each_send players text w :
  for_each players (λ p, send p text) w = (Ok (), add_outbox (broadcast players text) w).
Proof.
  revert w. induction players as [|p players IH]; intros w.
  - simpl. by rewrite add_outbox_nil.
  - simpl. rewrite bind_run. unfold send at 1.
    rewrite IH. f_equal. unfold add_outbox, broadcast. simpl.
    by rewrite <- app_assoc.
Qed.

Lemma set_session_twice g s1 s2 w :
  set_session g s2 (set_session g s1 w) = set_session g s2 w.
Proof. unfold set_session. simpl. by rewrite list_insert_insert_eq. Qed.

Lemma set_session_lookup g s w :
  (g < length (heap w))%nat → heap (set_session g s w) !! g = Some s.
Proof. intros Hg. simpl. by apply list_lookup_insert_eq. Qed.

Lemma board_call_run {A} g (m : TicTacToe.Method A) w s r b' :
  heap w !! g = Some s → m (GameSession.board s) = (r, b') →
  board_call g m w = (r, set_session g (with_board s b') w).
Proof.
  intros Hs Hm. unfold board_call. rewrite bind_run. unfold deref.
  rewrite (list_lookup_total_correct _ _ _ Hs), Hm. rewrite bind_run. done.
Qed.

(** One turn of the loop on a registered object with a well-formed board:
    the board is updated, the state update goes to every player, and then
    either the outcome is announced and the session unregistered, or the
    registry is swept. *)
Lemma game_message_run g ai position rnd now w s :
  heap w !! g = Some s → wf (GameSession.board s) →
  ∃ st,
    check_game_status (board_after_turn ai position rnd (GameSession.board s)) = Ok st ∧
    game_message g ai position rnd now w =
      let b2 := board_after_turn ai position rnd (GameSession.board s) in
      let w1 := add_outbox (broadcast (GameSession.players s) (state_update b2))
                  (set_session g (with_board s b2) w) in
      if bool_decide (st ≠ GameState.Playing) then
        let w2 := add_outbox (broadcast (GameSession.players s) (terminal_message st))
                    w1 in
        match py_remove g (game_instances w) with
        | Ok l' => (Ok (Terminated None), set_registry l' w2)
        | Raise e => (Raise e, w2)
        end
      else (Ok (Active g ai), set_registry (filter (young now w) (game_instances w)) w1).
Proof.
  intros Hs Hwf.
  assert (g < length (heap w))%nat as Hg by (by eapply lookup_lt_Some).
  set (b2 := board_after_turn ai position rnd (GameSession.board s)).
  destruct (check_game_status_sound b2) as (st & Hst & _);
    [by apply board_after_turn_wf|].
  exists st. split; [done|]. unfold game_message.
  (* the attempt of the player *)
  destruct (place_piece (Position.x position) (Position.y position)
              (Position.type position) (GameSession.board s)) as [r1 b1] eqn:E1.
  destruct (place_piece_wf_result (GameSession.board s) (Position.x position)
              (Position.y position) (Position.type position) Hwf) as [v1 Hv1].
  rewrite E1 in Hv1. simpl in Hv1. subst r1.
  rewrite bind_run, (board_call_run _ _ _ _ _ _ Hs E1).
  assert (wf b1) as Hwf1.
  { pose proof (place_piece_wf (GameSession.board s) (Position.x position)
                  (Position.y position) (Position.type position) Hwf) as H.
    by rewrite E1 in H. }
  (* the automated opponent *)
  rewrite bind_run.
  assert ((if ai
           then if bool_decide (Position.type position = TicPieceState.Check)
                then board_call g (place_random_piece rnd TicPieceState.Circle)
                else board_call g (place_random_piece rnd TicPieceState.Check)
           else mret false) (set_session g (with_board s b1) w)
          = (Ok (if ai then negb (bool_decide (fst (place_random_piece rnd
                      (if bool_decide (Position.type position = TicPieceState.Check)
                       then TicPieceState.Circle else TicPieceState.Check) b1)
                      = Ok false)) else false),
             set_session g (with_board s b2) w)) as ->.
  { unfold b2, board_after_turn. rewrite E1. simpl. destruct ai; [|done].
    set (p := if bool_decide (Position.type position = TicPieceState.Check)
              then TicPieceState.Circle else TicPieceState.Check).
    destruct (place_random_piece rnd p b1) as [r2 b2'] eqn:E2.
    destruct (place_random_piece_wf_result rnd b1 p Hwf1) as [v2 Hv2].
    rewrite E2 in Hv2. simpl in Hv2. subst r2.
    pose proof (set_session_lookup g (with_board s b1) w Hg) as Hs1.
    assert (board_call g (place_random_piece rnd p) (set_session g (with_board s b1) w)
            = (Ok v2, set_session g (with_board s b2') w)) as Hcall.
    { rewrite (board_call_run _ _ _ _ _ _ Hs1 E2). by rewrite set_session_twice. }
    unfold p in *. case_bool_decide; rewrite Hcall; simpl; by destruct v2. }
  (* the state update *)
  pose proof (set_session_lookup g (with_board s b2) w Hg) as Hs2.
  rewrite bind_run.
  rewrite (board_call_run g get_board _ _ (Ok (get_board_value b2)) b2 Hs2 eq_refl).
  rewrite set_session_twice. change (with_board (with_board s b2) b2) with (with_board s b2).
  rewrite replace_get_board. rewrite bind_run. unfold deref at 1.
  rewrite (list_lookup_total_correct _ _ _ Hs2). rewrite bind_run.
  change (GameSession.players (with_board s b2)) with (GameSession.players s).
  rewrite for_each_send. fold (state_update b2).
  set (w1 := add_outbox _ (set_session g (with_board s b2) w)).
  assert (heap w1 !! g = Some (with_board s b2)) as Hs3 by done.
  rewrite bind_run. unfold deref at 1. rewrite (list_lookup_total_correct _ _ _ Hs3).
  rewrite bind_run. unfold lift_result at 1.
  change (GameSession.board (with_board s b2)) with b2. rewrite Hst.
  case_bool_decide as Hterm.
  - rewrite bind_run. unfold deref at 1. rewrite (list_lookup_total_correct _ _ _ Hs3).
    rewrite bind_run.
    change (GameSession.players (with_board s b2)) with (GameSession.players s).
    rewrite for_each_send. fold (terminal_message st).
    rewrite bind_run. unfold get_instances at 1. rewrite bind_run.
    unfold lift_result at 1. simpl.
    destruct (py_remove g (game_instances w)) as [l'|e]; done.
  - rewrite bind_run. unfold sweep. unfold set_instances. simpl.
    unfold set_registry. simpl. do 2 f_equal.
    apply list_filter_iff. intros g'. unfold young.
    destruct (decide (g = g')) as [<-|Hne].
    + rewrite list_lookup_total_insert_eq by done.
      by rewrite (list_lookup_total_correct _ _ _ Hs).
    + by rewrite list_lookup_total_insert_ne.
Qed.

(** ** [list.remove] *)

Lemma py_remove_Ok x l l' :
  py_remove x l = Ok l' ↔ ∃ l1 l2, l = l1 ++ x :: l2 ∧ (x ∉ l1) ∧ l' = l1 ++ l2.
Proof.
  revert l'. induction l as [|y l IH]; intros l'; simpl.
  - split; [done|]. intros (l1 & l2 & H & _). by destruct l1.
  - case_bool_decide as Hy.
    + subst y. split.
      * intros [= <-]. exists [], l. split_and!; [done| |done]. apply not_elem_of_nil.
      * intros (l1 & l2 & H & Hnot & ->). destruct l1 as [|z l1]; simpl in *.
        { by injection H as ->. }
        injection H as -> _. exfalso. apply Hnot. left.
    + destruct (py_remove x l) as [l''|] eqn:E; simpl.
      * split.
        -- intros [= <-]. destruct (proj1 (IH l'') eq_refl) as (l1 & l2 & -> & Hnot & ->).
           exists (y :: l1), l2. split_and!; [done| |done].
           intros [->|?]%elem_of_cons; done.
        -- intros (l1 & l2 & H & Hnot & ->). destruct l1 as [|z l1]; simpl in *.
           { injection H as -> _. done. }
           injection H as <- ->. f_equal.
           assert (Ok l'' = Ok (l1 ++ l2)) as [= ->]; [|done].
           apply IH. exists l1, l2. split_and!; [done| |done].
           intros ?. apply Hnot. by right.
      * split; [done|]. intros (l1 & l2 & H & Hnot & ->).
        destruct l1 as [|z l1]; simpl in *.
        { injection H as -> _. done. }
        injection H as <- ->.
        assert (Raise e = Ok (l1 ++ l2)) as [=].
        apply IH. exists l1, l2. split_and!; [done| |done].
        intros ?. apply Hnot. by right.
Qed.

(** Removing an absent element raises [ValueError]. *)
Lemma py_remove_absent x l : x ∉ l ↔ py_remove x l = Raise ValueError.
Proof.
  induction l as [|y l IH]; simpl.
  - split; [done|]. intros _. apply not_elem_of_nil.
  - case_bool_decide as Hy.
    + subst y. split; [|done]. intros H. exfalso. apply H. left.
    + rewrite not_elem_of_cons. destruct (py_remove x l) as [l'|e]; simpl.
      * split; [|done]. intros [_ H]. by apply IH in H.
      * split.
        -- intros [_ H]. apply IH in H. by injection H as ->.
        -- intros [= ->]. split; [done|]. by apply IH.
Qed.

Lemma py_remove_present x l : x ∈ l → ∃ l', py_remove x l = Ok l'.
Proof.
  intros Hin. destruct (py_remove x l) as [l'|e] eqn:E; [eauto|].
  assert (e = ValueError) as ->.
  { clear Hin. revert e E. induction l as [|y l IH]; intros e; simpl.
    - by intros [= <-].
    - case_bool_decide; [done|]. destruct (py_remove x l); [done|].
      simpl. intros [= <-]. by apply IH. }
  by apply py_remove_absent in E.
Qed.

Lemma py_remove_NoDup x l l' :
  NoDup l → py_remove x l = Ok l' → (x ∉ l') ∧ ∀ y, y ≠ x → (y ∈ l' ↔ y ∈ l).
Proof.
  intros Hnd (l1 & l2 & -> & Hnot & ->)%py_remove_Ok.
  apply NoDup_app in Hnd as (_ & Hdisj & Hnd2). apply NoDup_cons in Hnd2 as [Hx2 _].
  split.
  - intros [?|?]%elem_of_app; done.
  - intros y Hy. rewrite !elem_of_app, elem_of_cons. tauto.
Qed.

(** ** One event on a connection *)

Lemma step_message c g ai position rnd now w :
  conns w !! c = Some (Active g ai) →
  step (Message c position rnd now) w
  = run_conn c (game_message g ai position rnd now) w.
Proof. intros H. simpl. by rewrite H. Qed.





(** The world after one turn of the loop. *)
Lemma step_message_world c g ai position rnd now w s :
  conns w !! c = Some (Active g ai) →
  heap w !! g = Some s → wf (GameSession.board s) →
  ∃ st,
    check_game_status (board_after_turn ai position rnd (GameSession.board s)) = Ok st ∧
    heap (step (Message c position rnd now) w)
    = <[g := with_board s (board_after_turn ai position rnd (GameSession.board s))]>
        (heap w) ∧
    outbox (step (Message c position rnd now) w)
    = outbox w
      ++ broadcast (GameSession.players s)
           (state_update (board_after_turn ai position rnd (GameSession.board s)))
      ++ (if bool_decide (st = GameState.Playing) then []
          else broadcast (GameSession.players s) (terminal_message st)) ∧
    (st = GameState.Playing →
     conns (step (Message c position rnd now) w) = <[c := Active g ai]> (conns w) ∧
     game_instances (step (Message c position rnd now) w)
     = filter (young now w) (game_instances w)).
Proof.
  intros Hc Hs Hwf.
  rewrite (step_message c g ai position rnd now w Hc). unfold run_conn.
  destruct (game_message_run g ai position rnd now w s Hs Hwf) as (st & Hst & ->).
  exists st. split; [done|]. simpl.
  destruct (decide (st = GameState.Playing)) as [->|Hne].
  - rewrite bool_decide_eq_false_2 by (by intros H; apply H).
    rewrite bool_decide_eq_true_2 by done. simpl. by rewrite app_nil_r.
  - rewrite bool_decide_eq_true_2 by done. rewrite bool_decide_eq_false_2 by done.
    destruct (py_remove g (game_instances w)); simpl;
      (split_and!; [done|by rewrite <- app_assoc|done]).
Qed.

Lemma opponent_mark_code (t : TicPieceState.t) :
  (if bool_decide (t = TicPieceState.Check)
   then TicPieceState.Circle else TicPieceState.Check) = opponent_mark t.
Proof. by destruct t. Qed.

(** A check of [players_connected] by computation. *)
Lemma players_connected_check w s :
  forallb (λ p, match conns w !! p with
                | Some (Active _ _) => true
                | _ => false
                end) (GameSession.players s) = true →
  players_connected w s.
Proof.
  intros Hall p Hp. rewrite forallb_forall in Hall.
  specialize (Hall p (proj1 (list_elem_of_In _ _) Hp)).
  destruct (conns w !! p) as [[g ai|]|]; [eauto|done..].
Qed.

(** C6 (as amended). On a session all of whose players are still
    connected, a move whose placement is invalid (coordinates out of range
    or cell occupied) is refused with no change of the board and no
    exception, and the turn goes on as for any move: the automated
    opponent moves when it is on, the only messages sent are the op 0
    state update to every player and, when the outcome after the turn is
    terminal, the op 1 terminal message, and the connection stays in its
    loop when that outcome is Playing (and leaves it without an exception
    when the outcome is terminal and the session is registered). With the
    automated opponent on, the board after the turn is, whether or not the
    placement was accepted, the one left by a random placement on the
    board left by the attempt of the player, of Circle when the type
    received is Check and of Check when it is Circle or "-". *)
Theorem invalid_move_and_opponent c g ai position rnd now w s :
  conns w !! c = Some (Active g ai) →
  heap w !! g = Some s →
  wf (GameSession.board s) →
  players_connected w s →
  (ai = true →
   GameSession.board (heap (step (Message c position rnd now) w) !!! g)
   = snd (place_random_piece rnd (opponent_mark (Position.type position))
            (snd (place_piece (Position.x position) (Position.y position)
                    (Position.type position) (GameSession.board s))))) ∧
  (¬ placeable (GameSession.board s) (Position.x position) (Position.y position) →
   place_piece (Position.x position) (Position.y position) (Position.type position)
     (GameSession.board s) = (Ok false, GameSession.board s) ∧
   ∃ b2 st,
     b2 = (if ai
           then snd (place_random_piece rnd (opponent_mark (Position.type position))
                       (GameSession.board s))
           else GameSession.board s) ∧
     GameSession.board (heap (step (Message c position rnd now) w) !!! g) = b2 ∧
     check_game_status b2 = Ok st ∧
     outbox (step (Message c position rnd now) w)
     = outbox w
       ++ broadcast (GameSession.players s) (state_update b2)
       ++ (if bool_decide (st = GameState.Playing) then []
           else broadcast (GameSession.players s) (terminal_message st)) ∧
     (st = GameState.Playing →
      conns (step (Message c position rnd now) w) !! c = Some (Active g ai)) ∧
     (st ≠ GameState.Playing → g ∈ game_instances w →
      conns (step (Message c position rnd now) w) !! c = Some (Terminated None))).
Proof.
  intros Hc Hs Hwf _.
  assert (g < length (heap w))%nat as Hg by (by eapply lookup_lt_Some).
  assert (∃ st,
    check_game_status (board_after_turn ai position rnd (GameSession.board s)) = Ok st ∧
    GameSession.board (heap (step (Message c position rnd now) w) !!! g)
    = board_after_turn ai position rnd (GameSession.board s) ∧
    outbox (step (Message c position rnd now) w)
    = outbox w
      ++ broadcast (GameSession.players s)
           (state_update (board_after_turn ai position rnd (GameSession.board s)))
      ++ (if bool_decide (st = GameState.Playing) then []
          else broadcast (GameSession.players s) (terminal_message st)) ∧
    (st = GameState.Playing →
     conns (step (Message c position rnd now) w) !! c = Some (Active g ai)) ∧
    (st ≠ GameState.Playing → g ∈ game_instances w →
     conns (step (Message c position rnd now) w) !! c = Some (Terminated None)))
    as (st & Hst & Hboard & Hout & Hplay & Hterm).
  { rewrite (step_message c g ai position rnd now w Hc). unfold run_conn.
    destruct (game_message_run g ai position rnd now w s Hs Hwf) as (st & Hst & ->).
    exists st. split; [done|]. simpl.
    destruct (decide (st = GameState.Playing)) as [->|Hne].
    - rewrite bool_decide_eq_false_2 by (by intros H; apply H).
      rewrite bool_decide_eq_true_2 by done. simpl.
      rewrite list_lookup_total_insert_eq, app_nil_r, lookup_insert_eq by done.
      by split_and!.
    - rewrite bool_decide_eq_true_2 by done. rewrite bool_decide_eq_false_2 by done.
      destruct (py_remove g (game_instances w)) as [l'|e] eqn:Hrm; simpl;
        rewrite list_lookup_total_insert_eq, <- app_assoc, lookup_insert_eq by done;
        (split_and!; [done|done|done|]).
      + by intros _ _.
      + intros _ Hin. destruct (py_remove_present g _ Hin) as [l' Hl']. congruence. }
  split.
  - intros ->. rewrite Hboard. unfold board_after_turn.
    by rewrite opponent_mark_code.
  - intros Hinvalid.
    pose proof (place_piece_refused (GameSession.board s) (Position.x position)
                  (Position.y position) (Position.type position) Hwf Hinvalid) as Hrej.
    split; [done|].
    assert (board_after_turn ai position rnd (GameSession.board s)
            = (if ai
               then snd (place_random_piece rnd (opponent_mark (Position.type position))
                           (GameSession.board s))
               else GameSession.board s)) as Hb2.
    { unfold board_after_turn. rewrite Hrej. simpl. by rewrite opponent_mark_code. }
    rewrite Hb2 in *.
    eexists _, st. split; [reflexivity|]. by split_and!.
Qed.

(** C6, witness. With the opponent off, on the board with Check on
    (0, 0) and two connected players, a second move on (0, 0) changes
    nothing and the connection stays in its loop. With the opponent on,
    after two moves off the board, a third one is refused, the opponent
    completes row 0 with Check and the connection leaves its loop. *)
Lemma invalid_move_and_opponent_witness :
  (conns joined_after_move !! 1%nat = Some (Active 0 false) ∧
   players_connected joined_after_move (heap joined_after_move !!! 0%nat) ∧
   ¬ placeable check_corner3 0 0 ∧
   GameSession.board
     (heap (step (Message 1 (move 0 0 TicPieceState.Circle) 0 5) joined_after_move)
      !!! 0%nat) = check_corner3 ∧
   conns (step (Message 1 (move 0 0 TicPieceState.Circle) 0 5) joined_after_move)
   !! 1%nat = Some (Active 0 false)) ∧
  (conns off_board_twice !! 1%nat = Some (Active 0 true) ∧
   players_connected off_board_twice (heap off_board_twice !!! 0%nat) ∧
   ¬ placeable check_pair3 5 5 ∧
   GameSession.board
     (heap (step (Message 1 (move 5 5 TicPieceState.Circle) 0 3) off_board_twice)
      !!! 0%nat) = check_row3 ∧
   conns (step (Message 1 (move 5 5 TicPieceState.Circle) 0 3) off_board_twice)
   !! 1%nat = Some (Terminated None)).
Proof.
  split.
  - assert (conns joined_after_move !! 1%nat = Some (Active 0 false)) as Hc
      by (by vm_compute).
    assert (players_connected joined_after_move (heap joined_after_move !!! 0%nat))
      as Hlive by (apply players_connected_check; reflexivity).
    assert (¬ placeable check_corner3 0 0) as Hinv.
    { intros (_ & _ & H). vm_compute in H. discriminate H. }
    split; [exact Hc|]. split; [exact Hlive|]. split; [exact Hinv|].
    destruct (invalid_move_and_opponent 1 0 false (move 0 0 TicPieceState.Circle) 0 5
                joined_after_move (heap joined_after_move !!! 0%nat) Hc) as [_ H].
    + by vm_compute.
    + split; [reflexivity|]. vm_compute. repeat constructor.
    + exact Hlive.
    + destruct (H Hinv) as (_ & b2 & st & Hb2 & Hboard & Hst & _ & Hplay & _).
      split; [rewrite Hboard, Hb2; reflexivity|].
      apply Hplay. rewrite Hb2 in Hst. vm_compute in Hst. by injection Hst.
  - assert (conns off_board_twice !! 1%nat = Some (Active 0 true)) as Hc
      by (by vm_compute).
    assert (players_connected off_board_twice (heap off_board_twice !!! 0%nat))
      as Hlive by (apply players_connected_check; reflexivity).
    assert (¬ placeable check_pair3 5 5) as Hinv.
    { intros (H & _). simpl in H. lia. }
    split; [exact Hc|]. split; [exact Hlive|]. split; [exact Hinv|].
    destruct (invalid_move_and_opponent 1 0 true (move 5 5 TicPieceState.Circle) 0 3
                off_board_twice (heap off_board_twice !!! 0%nat) Hc) as [_ H].
    + by vm_compute.
    + split; [reflexivity|]. vm_compute. repeat constructor.
    + exact Hlive.
    + destruct (H Hinv) as (_ & b2 & st & Hb2 & Hboard & Hst & _ & _ & Hend).
      split; [rewrite Hboard, Hb2; reflexivity|].
      rewrite Hb2 in Hst. vm_compute in Hst. injection Hst as <-.
      apply Hend; [discriminate|]. vm_compute. left.
Defined.

(** C6, counterexample to the claim as stated. First, the loop does not
    always continue after an invalid move: with the automated opponent
    on, a third move off the board is refused, the opponent completes
    row 0 with Check, the terminal message is sent and the connection
    leaves its loop. Second, the mark of the opponent is not always the
    other mark of the player's: for the type "-", which is neither Check
    nor Circle, the opponent is invoked all the same and plays Check. *)
Lemma opponent_on_invalid_move :
  (conns off_board_twice !! 1%nat = Some (Active 0 true) ∧
   game_instances off_board_twice = [0%nat] ∧
   GameSession.players (heap off_board_twice !!! 0%nat) = [1%nat] ∧
   GameSession.board (heap off_board_twice !!! 0%nat) = check_pair3 ∧
   TicTacToe.place_piece 5 5 TicPieceState.Circle check_pair3 = (Ok false, check_pair3) ∧
   let w' := step (Message 1 (move 5 5 TicPieceState.Circle) 0 3) off_board_twice in
   GameSession.board (heap w' !!! 0%nat) = check_row3 ∧
   outbox w' = outbox off_board_twice
               ++ [(1%nat, state_update check_row3);
                   (1%nat, terminal_message GameState.Check)] ∧
   game_instances w' = [] ∧
   conns w' !! 1%nat = Some (Terminated None)) ∧
  (conns with_opponent !! 1%nat = Some (Active 0 true) ∧
   GameSession.board (heap with_opponent !!! 0%nat) = fresh3 ∧
   other_mark TicPieceState.Empty = None ∧
   GameSession.board
     (heap (step (Message 1 (move 0 0 TicPieceState.Empty) 0 5) with_opponent) !!! 0%nat)
   = check_corner3).
Proof. by vm_compute. Qed.

(** The automated opponent answers a refused move: the player aims outside
    the grid and Circle appears on the first empty cell drawn. *)
Example opponent_moves_after_refused_move :
  GameSession.board
    (heap (step (Message 1 (move 5 5 TicPieceState.Check) 0 5) with_opponent) !!! 0%nat)
  = TicTacToe.Build 3
      [[TicPieceState.Circle; TicPieceState.Empty; TicPieceState.Empty];
       [TicPieceState.Empty; TicPieceState.Empty; TicPieceState.Empty];
       [TicPieceState.Empty; TicPieceState.Empty; TicPieceState.Empty]].
Proof. by vm_compute. Qed.

(** The scenario of the specification: Check on (0, 0), then one Circle
    on a remaining empty cell. *)
Example scenario_opponent :
  GameSession.board
    (heap (step (Message 1 (move 0 0 TicPieceState.Check) 3 5) with_opponent) !!! 0%nat)
  = TicTacToe.Build 3
      [[TicPieceState.Check; TicPieceState.Empty; TicPieceState.Empty];
       [TicPieceState.Empty; TicPieceState.Circle; TicPieceState.Empty];
       [TicPieceState.Empty; TicPieceState.Empty; TicPieceState.Empty]].
Proof. by vm_compute. Qed.

(** ** Names and creation times never change *)






















(** ** The sweep *)

Lemma find_game_result name w :
  fst (find_game name w)
  = Ok (head (filter (λ g, GameSession.name (heap w !!! g) = name) (game_instances w))).
Proof. reflexivity. Qed.

Lemma find_game_registered name w g :
  fst (find_game name w) = Ok (Some g) →
  g ∈ game_instances w ∧ GameSession.name (heap w !!! g) = name.
Proof.
  rewrite find_game_result. intros [= H].
  apply head_Some_elem_of, list_elem_of_filter in H. tauto.
Qed.

Lemma find_game_none name w :
  (∀ g, g ∈ game_instances w → GameSession.name (heap w !!! g) ≠ name) →
  fst (find_game name w) = Ok None.
Proof.
  intros H. rewrite find_game_result. f_equal. apply head_None.
  induction (game_instances w) as [|g l IH]; [done|].
  rewrite filter_cons_False by (apply H; left).
  apply IH. intros g' Hg'. apply H. by right.
Qed.




(** ** Creation of sessions *)

Lemma create_game_accepted size name uuid now w b :
  TicTacToe.init size = Ok b →
  create_game size name uuid now w
  = (Ok (resolved_name name uuid),
     MkWorld (heap w ++ [GameSession.Build (resolved_name name uuid) [] b now])
       (game_instances w ++ [length (heap w)]) (conns w) (outbox w)).
Proof.
  intros Hinit. unfold create_game. rewrite bind_run. unfold lift_result at 1.
  rewrite Hinit. reflexivity.
Qed.

Lemma create_game_refused size name uuid now w e :
  TicTacToe.init size = Raise e →
  create_game size name uuid now w = (Raise e, w).
Proof.
  intros Hinit. unfold create_game. rewrite bind_run. unfold lift_result at 1.
  by rewrite Hinit.
Qed.

(** C5. For every size from 3 to 25, [create_game] returns the name of the
    session and appends to the registry a new session with this name, no
    player, a fresh board of that size and the current time, all else
    unchanged. For a size below 3 or above 25 it raises
    [MaxSizeException] and the world, hence the registry, is unchanged. *)
Theorem create_game_spec size name uuid now w :
  (3 ≤ size ≤ 25 →
   ∃ b, TicTacToe.init size = Ok b ∧
     create_game size name uuid now w
     = (Ok (resolved_name name uuid),
        MkWorld (heap w ++ [GameSession.Build (resolved_name name uuid) [] b now])
          (game_instances w ++ [length (heap w)]) (conns w) (outbox w)) ∧
     game_instances (step (Create size name uuid now) w)
     = game_instances w ++ [length (heap w)] ∧
     fst (find_game (resolved_name name uuid) (step (Create size name uuid now) w))
     ≠ Ok None) ∧
  (size < 3 ∨ size > 25 →
   create_game size name uuid now w
   = (Raise (MaxSizeException "Invalid board size. Size must be between 3 and 25."), w) ∧
   step (Create size name uuid now) w = w).
Proof.
  split.
  - intros Hsize.
    destruct (TicTacToe.init size) as [b|e] eqn:Hinit; last first.
    { apply init_Raise in Hinit as [? _]. lia. }
    exists b. split; [done|].
    pose proof (create_game_accepted size name uuid now w b Hinit) as Hrun.
    assert (step (Create size name uuid now) w
            = MkWorld (heap w ++ [GameSession.Build (resolved_name name uuid) [] b now])
                (game_instances w ++ [length (heap w)]) (conns w) (outbox w)) as Hstep.
    { unfold step. by rewrite Hrun. }
    rewrite Hstep. split_and!; [done..|].
    rewrite find_game_result. intros [= Hhead]. apply head_None in Hhead.
    assert (length (heap w) ∈ @nil nat) as Hin; [|by apply elem_of_nil in Hin].
    rewrite <- Hhead. apply list_elem_of_filter. split.
    + cbn [heap]. by rewrite lookup_total_app_r, Nat.sub_diag.
    + cbn [game_instances]. apply elem_of_app. right. left.
  - intros Hsize.
    destruct (TicTacToe.init size) as [b|e] eqn:Hinit.
    { apply init_Ok in Hinit as [? _]. lia. }
    pose proof (create_game_refused size name uuid now w e Hinit) as Hrun.
    apply init_Raise in Hinit as [_ ->].
    split; [done|]. unfold step. by rewrite Hrun.
Qed.

(** C5, witness: size 3 is accepted and size 26 is refused. *)
Lemma create_game_spec_witness :
  game_instances (step (Create 3 (Some "g1") "uuid" 0) empty_world) = [0%nat] ∧
  step (Create 26 (Some "g1") "uuid" 0) empty_world = empty_world.
Proof.
  split.
  - destruct (create_game_spec 3 (Some "g1") "uuid" 0 empty_world) as [Hok _].
    destruct Hok as (b & _ & _ & Hreg & _); [lia|]. exact Hreg.
  - destruct (create_game_spec 26 (Some "g1") "uuid" 0 empty_world) as [_ Hbad].
    destruct Hbad as [_ Hsame]; [right; lia|]. exact Hsame.
Defined.

(** ** The first message of a connection *)

(** A connection that finds its session becomes a player and is sent the
    snapshot as [get_board] returns it. *)
Lemma game_accept_initial_message c name ai w g :
  fst (find_game name w) = Ok (Some g) → (g < length (heap w))%nat →
  outbox (step (Connect c name ai) w)
  = outbox w
    ++ [(c, ServerResponse.json
              (ServerResponse.Build 0
                 (get_board_value (GameSession.board (heap w !!! g)))))] ∧
  conns (step (Connect c name ai) w) !! c = Some (Active g ai).
Proof.
  intros Hfind Hg. simpl. unfold run_conn, game_accept.
  rewrite bind_run. destruct (find_game name w) as [r w0] eqn:E.
  assert (w0 = w) as -> by (by unfold find_game in E; injection E as _ <-).
  simpl in Hfind. subst r.
  rewrite bind_run. unfold deref at 1. rewrite bind_run. unfold store at 1.
  set (s := heap w !!! g).
  set (s' := GameSession.Build _ (GameSession.players s ++ [c]) _ _).
  set (w1 := MkWorld _ _ _ _).
  assert (heap w1 !! g = Some s') as Hs' by (by apply list_lookup_insert_eq).
  rewrite bind_run.
  rewrite (board_call_run g get_board w1 s' (Ok (get_board_value (GameSession.board s)))
             (GameSession.board s) Hs' eq_refl).
  rewrite bind_run. unfold send at 1. simpl.
  split; [done|]. by rewrite lookup_insert_eq.
Qed.

(** C3, at the failing input: the second player joins after Check was
    placed on (0, 0). The message it is sent first carries the snapshot
    with the token "Check", not the array of display tokens with "X" that
    the broadcast of the move carried. *)
Lemma initial_message_not_substituted :
  GameSession.board (heap joined_after_move !!! 0%nat) = check_corner3 ∧
  outbox joined_after_move !! 1%nat = Some (1%nat, state_update check_corner3) ∧
  outbox joined_after_move !! 2%nat
  = Some (2%nat,
          ServerResponse.json (ServerResponse.Build 0 (get_board_value check_corner3))) ∧
  get_board_value check_corner3 ≠ display_board check_corner3 ∧
  outbox joined_after_move !! 2%nat ≠ Some (2%nat, state_update check_corner3).
Proof. by vm_compute. Qed.

(** ** Disconnection *)

(** C8, at the failing input: the only player of a session moves 700 time
    units after the creation, so that the sweep of this very turn takes
    the session out of the registry; when the player then disconnects, the
    cleanup calls [remove] for a session the registry no longer holds and
    is ended by [ValueError]. *)
Lemma disconnect_after_sweep_raises :
  conns moved_late !! 1%nat = Some (Active 0 false) ∧
  game_instances moved_late = [] ∧
  py_remove 0 (game_instances moved_late) = Raise ValueError ∧
  conns (step (Disconnect 1) moved_late) !! 1%nat = Some (Terminated (Some ValueError)).
Proof. by vm_compute. Qed.

(** While the session is registered, the cleanup of the last player
    removes it and ends without an exception. *)
Example disconnect_of_last_player :
  game_instances (step (Disconnect 1) one_player) = [] ∧
  conns (step (Disconnect 1) one_player) !! 1%nat = Some (Terminated None).
Proof. by vm_compute. Qed.

(** ** Reachable worlds *)

Lemma world_ok_empty : world_ok empty_world.
Proof.
  split_and!; [constructor|constructor|constructor|].
  intros c g ai H. simpl in H. by rewrite lookup_empty in H.
Qed.

Lemma py_remove_sublist x l l' : py_remove x l = Ok l' → l' `sublist_of` l.
Proof.
  intros (l1 & l2 & -> & _ & ->)%py_remove_Ok.
  apply sublist_app; [done|]. by apply sublist_cons.
Qed.

(** The invariant survives a change that keeps the objects in place with
    well-formed boards, drops references from the registry and records
    the new state of one connection. *)
Lemma world_ok_update w hp reg c st out :
  world_ok w →
  length hp = length (heap w) →
  Forall (λ s, wf (GameSession.board s)) hp →
  reg `sublist_of` game_instances w →
  (∀ g ai, st = Active g ai → (g < length (heap w))%nat) →
  world_ok (MkWorld hp reg (<[c := st]> (conns w)) out).
Proof.
  intros (Hb & Hreg & Hnd & Hc) Hlen Hhp Hsub Hst. split_and!; simpl.
  - done.
  - rewrite Hlen. rewrite Forall_forall in Hreg |- *.
    intros g Hg. apply Hreg. by eapply elem_of_sublist.
  - by eapply sublist_NoDup.
  - intros c' g ai. rewrite Hlen. destruct (decide (c = c')) as [<-|Hne].
    + rewrite lookup_insert_eq. intros [= ->]. by eapply Hst.
    + rewrite lookup_insert_ne by done. apply Hc.
Qed.

Lemma game_accept_run c name ai w :
  (∀ g, g ∈ game_instances w → (g < length (heap w))%nat) →
  game_accept c name ai w
  = match fst (find_game name w) with
    | Ok (Some g) =>
        (Ok (Active g ai),
         add_outbox
           [(c, ServerResponse.json
                  (ServerResponse.Build 0
                     (get_board_value (GameSession.board (heap w !!! g)))))]
           (set_session g
              (with_players (heap w !!! g) (GameSession.players (heap w !!! g) ++ [c]))
              w))
    | _ => (Ok (Terminated None), w)
    end.
Proof.
  intros Hreg. unfold game_accept. rewrite bind_run.
  destruct (find_game name w) as [r w0] eqn:E.
  assert (w0 = w) as -> by (by unfold find_game in E; injection E as _ <-).
  assert (fst (find_game name w) = r) as Hr by (by rewrite E).
  rewrite find_game_result in Hr. subst r. simpl.
  destruct (head _) as [g|] eqn:Hhead; [|done].
  assert (g < length (heap w))%nat as Hg.
  { apply Hreg. apply head_Some_elem_of, list_elem_of_filter in Hhead. tauto. }
  rewrite bind_run. unfold deref at 1. rewrite bind_run. unfold store at 1.
  set (s := heap w !!! g).
  set (s' := GameSession.Build _ (GameSession.players s ++ [c]) _ _).
  set (w1 := MkWorld _ _ _ _).
  assert (heap w1 !! g = Some s') as Hs' by (by apply list_lookup_insert_eq).
  rewrite bind_run.
  rewrite (board_call_run g get_board w1 s' (Ok (get_board_value (GameSession.board s)))
             (GameSession.board s) Hs' eq_refl).
  rewrite bind_run. unfold send at 1. simpl. do 2 f_equal.
  unfold add_outbox, set_session. simpl. f_equal.
  by rewrite list_insert_insert_eq.
Qed.

Lemma world_ok_step e w : world_ok w → world_ok (step e w).
Proof.
  intros Hok. pose proof Hok as (Hb & Hreg & Hnd & Hc).
  destruct e as [size name uuid now|c name ai|c position rnd now|c].
  - (* a creation *)
    destruct (TicTacToe.init size) as [b|e0] eqn:Hinit.
    + unfold step. rewrite (create_game_accepted size name uuid now w b Hinit).
      simpl. split_and!; simpl.
      * apply Forall_app. split; [done|]. constructor; [|constructor]. simpl.
        by eapply init_wf.
      * rewrite length_app. simpl. apply Forall_app. split.
        -- eapply Forall_impl; [done|]. simpl. lia.
        -- constructor; [lia|constructor].
      * apply NoDup_app. split_and!; [done| |apply NoDup_singleton].
        intros g Hg ->%list_elem_of_singleton.
        rewrite Forall_forall in Hreg. specialize (Hreg _ Hg). lia.
      * intros c g ai H. rewrite length_app. specialize (Hc _ _ _ H). lia.
    + unfold step. by rewrite (create_game_refused size name uuid now w e0 Hinit).
  - (* a connection *)
    unfold step, run_conn. rewrite game_accept_run by (by apply Forall_forall).
    destruct (fst (find_game name w)) as [[g|]|e] eqn:Hfind.
    + apply find_game_registered in Hfind as [Hin _].
      rewrite Forall_forall in Hreg. specialize (Hreg _ Hin).
      apply (world_ok_update w); simpl; [done|by rewrite length_insert| |done|].
      * apply Forall_insert; [done|]. simpl.
        rewrite Forall_lookup in Hb. eapply (Hb g).
        by apply list_lookup_lookup_total_lt.
      * by intros ?? [= <- _].
    + destruct w. by apply (world_ok_update _).
    + destruct w. by apply (world_ok_update _).
  - (* a move *)
    unfold step. destruct (conns w !! c) as [[g ai|]|] eqn:Hconn; [|done..].
    pose proof (Hc _ _ _ Hconn) as Hg.
    pose proof (list_lookup_lookup_total_lt _ _ Hg) as Hs.
    assert (wf (GameSession.board (heap w !!! g))) as Hwf.
    { rewrite Forall_lookup in Hb. by eapply (Hb g). }
    unfold run_conn.
    destruct (game_message_run g ai position rnd now w _ Hs Hwf) as (st & _ & ->).
    assert (Forall (λ s, wf (GameSession.board s))
              (<[g := with_board (heap w !!! g)
                        (board_after_turn ai position rnd
                           (GameSession.board (heap w !!! g)))]> (heap w))) as Hb'.
    { apply Forall_insert; [done|]. simpl. by apply board_after_turn_wf. }
    simpl. case_bool_decide.
    + destruct (py_remove g (game_instances w)) as [l'|e] eqn:Hrm; simpl.
      * apply (world_ok_update w); [done|by rewrite length_insert|done| |done].
        by eapply py_remove_sublist.
      * by apply (world_ok_update w); [done|by rewrite length_insert|done|..].
    + simpl. apply (world_ok_update w); [done|by rewrite length_insert|done| |].
      * apply sublist_filter.
      * by intros ?? [= <- _].
  - (* a disconnection *)
    unfold step. destruct (conns w !! c) as [[g ai|]|] eqn:Hconn; [|done..].
    unfold run_conn, game_disconnect. rewrite bind_run. unfold deref at 1.
    rewrite bind_run. unfold lift_result at 1.
    destruct (py_remove c (GameSession.players (heap w !!! g))) as [players'|e].
    2:{ destruct w. by apply (world_ok_update _). }
    rewrite bind_run. unfold store at 1.
    assert (Forall (λ s, wf (GameSession.board s))
              (<[g := GameSession.Build (GameSession.name (heap w !!! g)) players'
                        (GameSession.board (heap w !!! g))
                        (GameSession.time (heap w !!! g))]> (heap w))) as Hb'.
    { apply Forall_insert; [done|]. simpl.
      pose proof (Hc _ _ _ Hconn) as Hg.
      rewrite Forall_lookup in Hb. eapply (Hb g).
      by apply list_lookup_lookup_total_lt. }
    case_bool_decide.
    + rewrite bind_run. unfold get_instances at 1. rewrite bind_run.
      unfold lift_result at 1. simpl.
      destruct (py_remove g (game_instances w)) as [l'|e] eqn:Hrm; simpl.
      * apply (world_ok_update w); [done|by rewrite length_insert|done| |done].
        by eapply py_remove_sublist.
      * by apply (world_ok_update w); [done|by rewrite length_insert|done|..].
    + simpl. by apply (world_ok_update w); [done|by rewrite length_insert|done|..].
Qed.

(** Every world reached from the empty one satisfies the invariant. *)
Lemma world_ok_run es : world_ok (run es empty_world).
Proof.
  unfold run. generalize world_ok_empty. generalize empty_world.
  induction es as [|e es IH]; intros w Hw; simpl; [done|].
  apply IH. by apply world_ok_step.
Qed.

(** In a reachable world a connection in its loop refers to an object
    with a well-formed board. *)
Lemma reachable_connection es c g ai :
  conns (run es empty_world) !! c = Some (Active g ai) →
  ∃ s, heap (run es empty_world) !! g = Some s ∧ wf (GameSession.board s).
Proof.
  intros Hconn. destruct (world_ok_run es) as (Hb & _ & _ & Hc).
  specialize (Hc _ _ _ Hconn).
  exists (heap (run es empty_world) !!! g).
  pose proof (list_lookup_lookup_total_lt _ _ Hc) as Hs. split; [done|].
  rewrite Forall_lookup in Hb. by eapply (Hb g).
Qed.

(** * Further properties of the board engine *)

(** X1. On a well-formed board [check_win piece] returns, and it returns
    [True] exactly when some full row, some full column, the main diagonal
    or the anti-diagonal consists entirely of [piece]. *)
Theorem check_win_lines b p :
  wf b → ∃ r, check_win b p = Ok r ∧ (r = true ↔ has_line b p).
Proof. intros Hwf. by apply check_win_spec. Qed.

(** X1, witness: Circle holds row 1 of the sample board. *)
Lemma check_win_lines_witness :
  wf two_lines3 ∧
  ∃ r, check_win two_lines3 TicPieceState.Circle = Ok r ∧
       (r = true ↔ has_line two_lines3 TicPieceState.Circle).
Proof.
  assert (wf two_lines3) as Hwf by (split; [reflexivity|repeat constructor]).
  split; [exact Hwf|]. exact (check_win_lines two_lines3 TicPieceState.Circle Hwf).
Defined.

(** X2. The row and column scans at the head of [check_game_status] never
    change whether a game is decided: the answer is a win exactly when
    [check_win] holds for Circle or for Check, and it is the win of Check
    only if [check_win] holds for Check. *)
Theorem status_win_iff_check_win b :
  wf b →
  ∃ s w1 w2,
    check_game_status b = Ok s ∧
    check_win b TicPieceState.Circle = Ok w1 ∧
    check_win b TicPieceState.Check = Ok w2 ∧
    (s = GameState.Circle ∨ s = GameState.Check ↔ w1 = true ∨ w2 = true) ∧
    (s = GameState.Circle → w1 = true) ∧
    (s = GameState.Check → w2 = true).
Proof.
  intros Hwf.
  destruct (check_game_status_sound b Hwf) as (s & Hs & Hmatch).
  destruct (check_win_spec b TicPieceState.Circle Hwf) as (w1 & Hw1 & Hiff1).
  destruct (check_win_spec b TicPieceState.Check Hwf) as (w2 & Hw2 & Hiff2).
  exists s, w1, w2. split_and!; [done..| | |].
  - rewrite Hiff1, Hiff2. destruct s; split; try tauto; intros [?|?]; done.
  - intros ->. by apply Hiff1.
  - intros ->. by apply Hiff2.
Qed.

(** X2, witness: the board on which both marks hold a row. *)
Lemma status_win_iff_check_win_witness :
  wf two_lines3 ∧
  ∃ s w1 w2,
    check_game_status two_lines3 = Ok s ∧
    check_win two_lines3 TicPieceState.Circle = Ok w1 ∧
    check_win two_lines3 TicPieceState.Check = Ok w2 ∧
    (s = GameState.Circle ∨ s = GameState.Check ↔ w1 = true ∨ w2 = true).
Proof.
  assert (wf two_lines3) as Hwf by (split; [reflexivity|repeat constructor]).
  split; [exact Hwf|].
  destruct (status_win_iff_check_win two_lines3 Hwf)
    as (s & w1 & w2 & H1 & H2 & H3 & H4 & _).
  exists s, w1, w2. split; [exact H1|]. split; [exact H2|]. split; [exact H3|exact H4].
Defined.

(** X3. A board constructed with a size from 3 to 25 is square of that
    side, holds Empty everywhere, and its outcome is Playing. *)
Theorem fresh_board_in_progress size b :
  TicTacToe.init size = Ok b →
  wf b ∧ TicTacToe.size b = size ∧
  (∀ i j, (i < Z.to_nat size)%nat → (j < Z.to_nat size)%nat →
          cell_at b i j = Some TicPieceState.Empty) ∧
  check_game_status b = Ok GameState.Playing.
Proof.
  intros Hinit. pose proof (init_wf size b Hinit) as Hwf.
  pose proof (init_cells size b) as Hcells.
  pose proof Hinit as [Hsize Hb]%init_Ok.
  assert (side b = Z.to_nat size) as Hside.
  { subst b. unfold side. simpl. by rewrite length_replicate. }
  assert (cell_at b 0 0 = Some TicPieceState.Empty) as H00
    by (apply Hcells; [done|lia..]).
  assert (∀ p, p ≠ TicPieceState.Empty → ¬ has_line b p) as Hnoline.
  { intros p Hp [(i & Hi & Hrow)|[(j & Hj & Hcol)|[Hd|Ha]]].
    - specialize (Hrow 0%nat). rewrite Hcells in Hrow by (done || lia).
      injection Hrow; [done|lia].
    - specialize (Hcol 0%nat). rewrite Hcells in Hcol by (done || lia).
      injection Hcol; [done|lia].
    - specialize (Hd 0%nat). rewrite H00 in Hd. injection Hd; [done|lia].
    - specialize (Ha 0%nat). rewrite Hcells in Ha by (done || lia).
      injection Ha; [done|lia]. }
  split_and!; [done|by subst b|by intros; apply Hcells|].
  destruct (check_game_status_sound b Hwf) as (s & -> & Hmatch). f_equal.
  destruct s; try done.
  - by apply Hnoline in Hmatch.
  - by apply Hnoline in Hmatch.
  - destruct Hmatch as (_ & _ & Hfull). by destruct (Hfull 0%nat 0%nat).
Qed.

(** X3, witness: size 3. *)
Lemma fresh_board_in_progress_witness :
  TicTacToe.init 3 = Ok fresh3 ∧ check_game_status fresh3 = Ok GameState.Playing.
Proof.
  assert (TicTacToe.init 3 = Ok fresh3) as Hinit by reflexivity.
  split; [exact Hinit|].
  destruct (fresh_board_in_progress 3 fresh3 Hinit) as (_ & _ & _ & H). exact H.
Defined.

Lemma apply_op_wf o b : wf b → wf (apply_op o b).
Proof.
  intros Hwf. destruct o; simpl; [by apply place_piece_wf|by apply place_random_piece_wf].
Qed.

Lemma apply_ops_wf os b : wf b → wf (apply_ops os b).
Proof.
  revert b. induction os as [|o os IH]; intros b Hwf; [done|].
  unfold apply_ops. simpl. fold (apply_ops os (apply_op o b)).
  by apply IH, apply_op_wf.
Qed.

(** A sequence of operations keeps the side and every mark. *)
Lemma apply_ops_cells os b :
  side (apply_ops os b) = side b ∧
  ∀ i j p, cell_at b i j = Some p → p ≠ TicPieceState.Empty →
           cell_at (apply_ops os b) i j = Some p.
Proof.
  revert b. induction os as [|o os IH]; intros b; [done|].
  unfold apply_ops. simpl. fold (apply_ops os (apply_op o b)).
  destruct (IH (apply_op o b)) as (Hside & Hcells).
  destruct (apply_op_cells o b) as (_ & Hside' & Hcells').
  split; [congruence|]. intros i j p Hp Hne. apply Hcells; [|done].
  destruct (Hcells' i j) as [->|Hempty]; [done|congruence].
Qed.

(** X4. A decided game stays decided: once Check or Circle holds a full
    row, column or diagonal of a well-formed board, then after any further
    sequence of placements and random placements that mark still holds its
    line and the outcome is a win, never Playing and never Draw. *)
Theorem win_is_final os b p :
  wf b → p ≠ TicPieceState.Empty → has_line b p →
  has_line (apply_ops os b) p ∧
  ∃ s, check_game_status (apply_ops os b) = Ok s ∧
       (s = GameState.Circle ∨ s = GameState.Check).
Proof.
  intros Hwf Hp Hline.
  destruct (apply_ops_cells os b) as (Hside & Hcells).
  assert (has_line (apply_ops os b) p) as Hline'.
  { unfold has_line, row_full, col_full, diag_full, anti_full in *.
    rewrite Hside.
    destruct Hline as [(i & Hi & H)|[(j & Hj & H)|[H|H]]].
    - left. exists i. split; [done|]. intros j Hj. apply Hcells; [by apply H|done].
    - right; left. exists j. split; [done|]. intros i Hi. apply Hcells; [by apply H|done].
    - right; right; left. intros i Hi. apply Hcells; [by apply H|done].
    - right; right; right. intros i Hi. apply Hcells; [by apply H|done]. }
  split; [done|].
  destruct (check_game_status_sound _ (apply_ops_wf os b Hwf)) as (s & Hs & Hmatch).
  exists s. split; [done|].
  destruct s; [by left|by right|..]; destruct Hmatch as (Hn1 & Hn2 & _);
    destruct p; done.
Qed.

(** X4, witness: Check keeps row 0 when Circle goes on playing. *)
Lemma win_is_final_witness :
  wf two_lines3 ∧ has_line two_lines3 TicPieceState.Check ∧
  has_line
    (apply_ops [Place 2 0 TicPieceState.Circle; PlaceRandom 1 TicPieceState.Circle]
       two_lines3) TicPieceState.Check.
Proof.
  assert (wf two_lines3) as Hwf by (split; [reflexivity|repeat constructor]).
  assert (has_line two_lines3 TicPieceState.Check) as Hline.
  { left. exists 0%nat. split; [vm_compute; lia|].
    intros j Hj. change (side two_lines3) with 3%nat in Hj.
    destruct j as [|[|[|j]]]; [reflexivity..|lia]. }
  split; [exact Hwf|]. split; [exact Hline|].
  destruct (win_is_final
              [Place 2 0 TicPieceState.Circle; PlaceRandom 1 TicPieceState.Circle]
              two_lines3 TicPieceState.Check Hwf) as [H _]; [discriminate|exact Hline|].
  exact H.
Defined.

(** ** The candidates of the random placement *)

Lemma collect_pure {A B} (f : A → result (list B)) (g : A → list B) (l : list A) :
  (∀ a, a ∈ l → f a = Ok (g a)) → collect f l = Ok (l ≫= g).
Proof.
  induction l as [|a l IH]; intros Hf; [done|]. simpl.
  rewrite (Hf a) by left. simpl. rewrite IH by (intros a' Ha'; apply Hf; by right).
  done.
Qed.

Lemma empty_cells_wf_list b :
  wf b →
  empty_cells b
  = Ok (range (size b) ≫= λ i, range (size b) ≫= λ j,
          if bool_decide (cell_at b (Z.to_nat i) (Z.to_nat j) = Some TicPieceState.Empty)
          then [(i, j)] else []).
Proof.
  intros Hwf. unfold empty_cells. apply collect_pure. intros i Hi%elem_of_range.
  apply collect_pure. intros j Hj%elem_of_range.
  destruct (get_cell_wf b i j Hwf Hi Hj) as (c & -> & ->). simpl. f_equal.
  destruct (decide (c = TicPieceState.Empty)) as [->|Hne].
  - by rewrite !bool_decide_eq_true_2.
  - rewrite !bool_decide_eq_false_2; [done|congruence|done].
Qed.

Lemma empty_cells_exact b :
  wf b →
  ∃ cells, empty_cells b = Ok cells ∧ NoDup cells ∧
           ∀ x y, (x, y) ∈ cells ↔ placeable b x y.
Proof.
  intros Hwf. rewrite (empty_cells_wf_list b Hwf). eexists. split; [done|]. split.
  - apply NoDup_bind; [| |apply NoDup_seqZ].
    + intros i1 i2 [x y] _ _ (j1 & H1 & _)%list_elem_of_bind
        (j2 & H2 & _)%list_elem_of_bind.
      repeat case_bool_decide;
        repeat match goal with
               | H : _ ∈ [] |- _ => by apply elem_of_nil in H
               | H : _ ∈ [_] |- _ => apply list_elem_of_singleton in H
               end; congruence.
    + intros i _. apply NoDup_bind; [| |apply NoDup_seqZ].
      * intros j1 j2 [x y] _ _ H1 H2.
        repeat case_bool_decide;
          repeat match goal with
                 | H : _ ∈ [] |- _ => by apply elem_of_nil in H
                 | H : _ ∈ [_] |- _ => apply list_elem_of_singleton in H
                 end; congruence.
      * intros j _. case_bool_decide; [apply NoDup_singleton|constructor].
  - intros x y. unfold placeable. split.
    + intros (i & (j & Hin & Hj%elem_of_range)%list_elem_of_bind
                & Hi%elem_of_range)%list_elem_of_bind.
      case_bool_decide as Hc; [|by apply elem_of_nil in Hin].
      apply list_elem_of_singleton in Hin. by simplify_eq.
    + intros (Hx & Hy & Hc). apply list_elem_of_bind. exists x.
      split; [|by apply elem_of_range]. apply list_elem_of_bind. exists y.
      split; [|by apply elem_of_range]. rewrite bool_decide_eq_true_2 by done.
      by apply list_elem_of_singleton.
Qed.

(** X5. On a well-formed board the list [place_random_piece] chooses from
    holds exactly the coordinates inside the grid whose cell is Empty,
    each of them once. *)
Theorem empty_cells_spec b :
  wf b →
  ∃ cells, empty_cells b = Ok cells ∧ NoDup cells ∧
           ∀ x y, (x, y) ∈ cells ↔ placeable b x y.
Proof. intros Hwf. by apply empty_cells_exact. Qed.

(** X5, witness: after Check on (0, 0) eight candidates are left. *)
Lemma empty_cells_spec_witness :
  wf check_corner3 ∧
  ∃ cells, empty_cells check_corner3 = Ok cells ∧ NoDup cells ∧
           ∀ x y, (x, y) ∈ cells ↔ placeable check_corner3 x y.
Proof.
  assert (wf check_corner3) as Hwf by (split; [reflexivity|repeat constructor]).
  split; [exact Hwf|]. exact (empty_cells_spec check_corner3 Hwf).
Defined.

(** ** The random placement *)

Lemma place_piece_set_cell b x y p b' :
  place_piece x y p b = (Ok true, b') → set_cell b x y p = Ok b'.
Proof.
  unfold place_piece. destruct (is_coordinate_valid b x y) as [[]|]; [|done..].
  destruct (set_cell b x y p); by intros [= <-].
Qed.

Lemma place_random_piece_cases rnd b p :
  wf b →
  ∃ cells, empty_cells b = Ok cells ∧
    (cells = [] ↔ no_empty b) ∧
    (cells = [] → place_random_piece rnd p b = (Ok false, b)) ∧
    (cells ≠ [] →
     ∃ x y b',
       cells !! (rnd `mod` length cells)%nat = Some (x, y) ∧
       placeable b x y ∧
       place_random_piece rnd p b = place_piece x y p b ∧
       place_random_piece rnd p b = (Ok true, b') ∧
       wf b' ∧ size b' = size b ∧
       ∀ i j, cell_at b' i j =
              if bool_decide (i = Z.to_nat x ∧ j = Z.to_nat y)
              then Some p else cell_at b i j).
Proof.
  intros Hwf. destruct (empty_cells_exact b Hwf) as (cells & Hcells & _ & Hmem).
  exists cells. split; [done|]. split_and!.
  - split.
    + intros -> i j Hc.
      destruct (cell_at_lt b i j _ Hwf Hc) as [Hi Hj].
      assert (placeable b (Z.of_nat i) (Z.of_nat j)) as Hp.
      { unfold placeable. rewrite (wf_size b Hwf), !Nat2Z.id. split_and!; (done || lia). }
      apply Hmem in Hp. by apply elem_of_nil in Hp.
    + intros Hfull. destruct cells as [|[x y] cells']; [done|].
      assert (placeable b x y) as (_ & _ & Hc) by (apply Hmem; left).
      by destruct (Hfull _ _ Hc).
  - intros ->. unfold place_random_piece. by rewrite Hcells.
  - intros Hne.
    assert (rnd `mod` length cells < length cells)%nat as Hlt.
    { apply Nat.mod_upper_bound. by destruct cells. }
    destruct (lookup_lt_is_Some_2 cells _ Hlt) as [[x y] Hxy].
    assert (placeable b x y) as Hp.
    { apply Hmem. by eapply list_elem_of_lookup_2. }
    destruct (place_piece_accepted b x y p Hwf Hp) as (b' & Hrun & Hwf' & Hsz & Hc).
    assert (place_random_piece rnd p b = (Ok true, b')) as Hrnd.
    { unfold place_random_piece. rewrite Hcells.
      destruct cells as [|c0 cells']; [done|].
      unfold random_choice. rewrite (list_lookup_total_correct _ _ _ Hxy).
      by rewrite (place_piece_set_cell _ _ _ _ _ Hrun). }
    exists x, y, b'. split_and!; try done. by rewrite Hrnd, Hrun.
Qed.

(** X6. On a well-formed board [place_random_piece] never raises. When no
    cell is Empty it returns [False] and leaves the board as it is.
    Otherwise it returns [True] and does what [place_piece] does on the
    candidate whose position in the list of empty cells is the drawn
    number modulo the length of the list: that cell receives the mark and
    nothing else changes. *)
Theorem place_random_piece_spec rnd b p :
  wf b →
  ∃ cells, empty_cells b = Ok cells ∧
    (cells = [] ↔ no_empty b) ∧
    (cells = [] → place_random_piece rnd p b = (Ok false, b)) ∧
    (cells ≠ [] →
     ∃ x y b',
       cells !! (rnd `mod` length cells)%nat = Some (x, y) ∧
       placeable b x y ∧
       place_random_piece rnd p b = place_piece x y p b ∧
       place_random_piece rnd p b = (Ok true, b') ∧
       wf b' ∧ size b' = size b ∧
       ∀ i j, cell_at b' i j =
              if bool_decide (i = Z.to_nat x ∧ j = Z.to_nat y)
              then Some p else cell_at b i j).
Proof. intros Hwf. by apply place_random_piece_cases. Qed.

(** X6, witness: a draw of 3 on the board with Check on (0, 0). *)
Lemma place_random_piece_spec_witness :
  wf check_corner3 ∧
  ∃ cells, empty_cells check_corner3 = Ok cells ∧ (cells = [] ↔ no_empty check_corner3).
Proof.
  assert (wf check_corner3) as Hwf by (split; [reflexivity|repeat constructor]).
  split; [exact Hwf|].
  destruct (place_random_piece_spec 3 check_corner3 TicPieceState.Circle Hwf)
    as (cells & H1 & H2 & _).
  exists cells. split; [exact H1|exact H2].
Defined.

(** X7. A game in progress can go on: when the outcome of a well-formed
    board is Playing, some placement is acceptable and every random
    placement returns [True]; so a random placement that returns [False]
    means that the outcome is not Playing. *)
Theorem playing_has_a_move b :
  wf b →
  (check_game_status b = Ok GameState.Playing →
   (∃ x y, placeable b x y) ∧
   ∀ rnd p, fst (place_random_piece rnd p b) = Ok true) ∧
  (∀ rnd p, fst (place_random_piece rnd p b) = Ok false →
            check_game_status b ≠ Ok GameState.Playing).
Proof.
  intros Hwf.
  assert (check_game_status b = Ok GameState.Playing → ¬ no_empty b) as Hplay.
  { intros Hs. destruct (check_game_status_sound b Hwf) as (s & Hs' & Hmatch).
    assert (s = GameState.Playing) as -> by congruence. tauto. }
  split.
  - intros Hs. specialize (Hplay Hs). split.
    + destruct (place_random_piece_cases 0 b TicPieceState.Empty Hwf)
        as (cells & _ & Hempty & _ & Hsome).
      destruct Hsome as (x & y & _ & _ & Hp & _); [by intros ?%Hempty|eauto].
    + intros rnd p.
      destruct (place_random_piece_cases rnd b p Hwf)
        as (cells & _ & Hempty & _ & Hsome).
      destruct Hsome as (x & y & b' & _ & _ & _ & -> & _); [by intros ?%Hempty|done].
  - intros rnd p Hfalse Hs. specialize (Hplay Hs).
    destruct (place_random_piece_cases rnd b p Hwf) as (cells & _ & Hempty & _ & Hsome).
    destruct Hsome as (x & y & b' & _ & _ & _ & Hrun & _); [by intros ?%Hempty|].
    by rewrite Hrun in Hfalse.
Qed.

(** X7, witness: the fresh board of side 3. *)
Lemma playing_has_a_move_witness :
  wf fresh3 ∧ check_game_status fresh3 = Ok GameState.Playing ∧
  ∃ x y, placeable fresh3 x y.
Proof.
  assert (wf fresh3) as Hwf by (split; [reflexivity|repeat constructor]).
  assert (check_game_status fresh3 = Ok GameState.Playing) as Hs by reflexivity.
  split; [exact Hwf|]. split; [exact Hs|].
  destruct (playing_has_a_move fresh3 Hwf) as [H _].
  destruct (H Hs) as [Hmove _]. exact Hmove.
Defined.

(** ** Placements on different cells *)

Lemma board_ext b1 b2 :
  wf b1 → wf b2 → size b1 = size b2 →
  (∀ i j, cell_at b1 i j = cell_at b2 i j) → b1 = b2.
Proof.
  intros Hwf1 Hwf2 Hsz Hcells.
  assert (side b1 = side b2) as Hside.
  { rewrite (wf_size b1 Hwf1), (wf_size b2 Hwf2) in Hsz. lia. }
  destruct b1 as [n1 g1], b2 as [n2 g2]. simpl in *. subst n2. f_equal.
  apply list_eq. intros i. unfold side in Hside. simpl in Hside.
  destruct (g1 !! i) as [r1|] eqn:E1; destruct (g2 !! i) as [r2|] eqn:E2.
  - f_equal. apply list_eq. intros j. specialize (Hcells i j).
    unfold cell_at in Hcells. simpl in Hcells. by rewrite E1, E2 in Hcells.
  - apply lookup_lt_Some in E1. apply lookup_ge_None in E2. lia.
  - apply lookup_lt_Some in E2. apply lookup_ge_None in E1. lia.
  - done.
Qed.

Lemma placeable_after_other b x1 y1 m1 x2 y2 :
  wf b → (x1, y1) ≠ (x2, y2) →
  placeable (snd (place_piece x1 y1 m1 b)) x2 y2 ↔ placeable b x2 y2.
Proof.
  intros Hwf Hne. destruct (place_piece x1 y1 m1 b) as [r b1] eqn:E. simpl.
  destruct (decide (r = Ok true)) as [->|Hr].
  - apply place_piece_true in E as (Hx1 & Hy1 & Hsz & _ & _ & _ & Hcells).
    unfold placeable. rewrite Hsz, Hcells.
    assert (0 ≤ x2 → 0 ≤ y2 →
            bool_decide (Z.to_nat x2 = Z.to_nat x1 ∧ Z.to_nat y2 = Z.to_nat y1) = false)
      as Hbd.
    { intros ??. apply bool_decide_eq_false_2. intros [??]. apply Hne. f_equal; lia. }
    split; intros (Hx2 & Hy2 & Hc); (split; [done|]; split; [done|]);
      [rewrite Hbd in Hc by lia|rewrite Hbd by lia]; done.
  - by apply place_piece_not_true in E as ->.
Qed.

(** X8. Placements on two different cells of a well-formed board commute:
    in either order they leave the same board, and each of them returns
    what it returns when it is made first. *)
Theorem place_piece_commute b x1 y1 m1 x2 y2 m2 :
  wf b → (x1, y1) ≠ (x2, y2) →
  snd (place_piece x2 y2 m2 (snd (place_piece x1 y1 m1 b)))
  = snd (place_piece x1 y1 m1 (snd (place_piece x2 y2 m2 b))) ∧
  fst (place_piece x2 y2 m2 (snd (place_piece x1 y1 m1 b)))
  = fst (place_piece x2 y2 m2 b) ∧
  fst (place_piece x1 y1 m1 (snd (place_piece x2 y2 m2 b)))
  = fst (place_piece x1 y1 m1 b).
Proof.
  intros Hwf Hne.
  assert ((x2, y2) ≠ (x1, y1)) as Hne' by congruence.
  pose proof (placeable_after_other b x1 y1 m1 x2 y2 Hwf Hne) as H12.
  pose proof (placeable_after_other b x2 y2 m2 x1 y1 Hwf Hne') as H21.
  pose proof (place_piece_wf b x1 y1 m1 Hwf) as Hwf1.
  pose proof (place_piece_wf b x2 y2 m2 Hwf) as Hwf2.
  destruct (decide (placeable b x1 y1)) as [P1|P1];
    destruct (decide (placeable b x2 y2)) as [P2|P2].
  - destruct (place_piece_accepted b x1 y1 m1 Hwf P1) as (b1 & E1 & _ & Hs1 & Hc1).
    destruct (place_piece_accepted b x2 y2 m2 Hwf P2) as (b2 & E2 & _ & Hs2 & Hc2).
    rewrite E1, E2 in *. simpl in *.
    destruct (place_piece_accepted b1 x2 y2 m2 Hwf1 (proj2 H12 P2))
      as (b12 & E12 & Hwf12 & Hs12 & Hc12).
    destruct (place_piece_accepted b2 x1 y1 m1 Hwf2 (proj2 H21 P1))
      as (b21 & E21 & Hwf21 & Hs21 & Hc21).
    rewrite E12, E21. simpl. split_and!; [|done..].
    apply board_ext; [done|done|congruence|].
    intros i j. rewrite Hc12, Hc21, Hc1, Hc2.
    destruct P1 as (? & ? & _), P2 as (? & ? & _).
    repeat case_bool_decide; try done.
    exfalso. apply Hne. f_equal; lia.
  - destruct (place_piece_accepted b x1 y1 m1 Hwf P1) as (b1 & E1 & _).
    rewrite (place_piece_refused b x2 y2 m2 Hwf P2) in *. rewrite E1 in *.
    simpl in *.
    rewrite (place_piece_refused b1 x2 y2 m2 Hwf1) by (by rewrite H12).
    by rewrite E1.
  - destruct (place_piece_accepted b x2 y2 m2 Hwf P2) as (b2 & E2 & _).
    rewrite (place_piece_refused b x1 y1 m1 Hwf P1) in *. rewrite E2 in *.
    simpl in *.
    rewrite (place_piece_refused b2 x1 y1 m1 Hwf2) by (by rewrite H21).
    by rewrite E2.
  - rewrite (place_piece_refused b x1 y1 m1 Hwf P1).
    rewrite (place_piece_refused b x2 y2 m2 Hwf P2). simpl.
    rewrite (place_piece_refused b x1 y1 m1 Hwf P1).
    by rewrite (place_piece_refused b x2 y2 m2 Hwf P2).
Qed.

(** X8, witness: Check on (0, 0) and Circle on (1, 1) of the fresh board. *)
Lemma place_piece_commute_witness :
  wf fresh3 ∧
  snd (place_piece 1 1 TicPieceState.Circle
         (snd (place_piece 0 0 TicPieceState.Check fresh3)))
  = snd (place_piece 0 0 TicPieceState.Check
           (snd (place_piece 1 1 TicPieceState.Circle fresh3))).
Proof.
  assert (wf fresh3) as Hwf by (split; [reflexivity|repeat constructor]).
  split; [exact Hwf|].
  destruct (place_piece_commute fresh3 0 0 TicPieceState.Check 1 1 TicPieceState.Circle
              Hwf) as [H _]; [discriminate|exact H].
Defined.

(** ** Which winner is reported *)

Lemma for_return_first {A R} (body : A → result (option R)) (l : list A) v :
  for_return l body = Ok (Some v) →
  ∃ l1 a l2, l = l1 ++ a :: l2 ∧ body a = Ok (Some v) ∧
             ∀ a', a' ∈ l1 → body a' = Ok None.
Proof.
  induction l as [|a l IH]; simpl; [done|].
  destruct (body a) as [[v'|]|] eqn:Ha; simpl; [| |done].
  - intros [= ->]. exists [], a, l. split_and!; [done..|].
    intros a' Ha'. by apply elem_of_nil in Ha'.
  - intros H. destruct (IH H) as (l1 & a0 & l2 & -> & Ha0 & Hl1).
    exists (a :: l1), a0, l2. split_and!; [done..|].
    intros a' [->|Ha']%elem_of_cons; auto.
Qed.

(** X9. When some row of a well-formed board is full of one mark, the
    answer of [check_game_status] is the win of the mark of the topmost
    such row, whatever the columns, the diagonals and the rows below
    hold. *)
Theorem topmost_row_wins b i :
  wf b → (i < side b)%nat →
  (∀ i', (i' < i)%nat → ¬ row_full b TicPieceState.Circle i' ∧
                         ¬ row_full b TicPieceState.Check i') →
  (row_full b TicPieceState.Circle i → check_game_status b = Ok GameState.Circle) ∧
  (row_full b TicPieceState.Check i → check_game_status b = Ok GameState.Check).
Proof.
  intros Hwf Hi Habove.
  destruct (lookup_lt_is_Some_2 (board b) i Hi) as [row Hrow].
  assert (length row = side b) as Hlen by (by eapply wf_row_length).
  assert (∀ s, (if row_all TicPieceState.Circle row then Ok (Some GameState.Circle)
                else if row_all TicPieceState.Check row then Ok (Some GameState.Check)
                else Ok None) = Ok (Some s) →
               check_game_status b = Ok s) as Hfirst.
  { intros s Hbody. unfold check_game_status.
    set (rows := λ row : list TicPieceState.t,
           if row_all TicPieceState.Circle row then Ok (Some GameState.Circle) else
           if row_all TicPieceState.Check row then Ok (Some GameState.Check)
           else Ok None).
    change (rows row = Ok (Some s)) in Hbody.
    destruct (for_return_spec rows (board b)) as (r & Hr & Hcases).
    { intros row' _. unfold rows. repeat case_match; eauto. }
    rewrite Hr. simpl. destruct r as [v|]; last first.
    { rewrite (Hcases row) in Hbody; [done|]. by eapply list_elem_of_lookup_2. }
    f_equal.
    destruct (for_return_first rows (board b) v Hr) as (l1 & a & l2 & Hsplit & Ha & Hl1).
    destruct (Nat.lt_trichotomy (length l1) i) as [Hlt|[Heq|Hgt]].
    - exfalso. destruct (Habove _ Hlt) as [Hn1 Hn2].
      assert (board b !! length l1 = Some a) as Hla.
      { rewrite Hsplit. by rewrite list_lookup_middle. }
      unfold rows in Ha.
      destruct (row_all TicPieceState.Circle a) eqn:E1.
      { apply Hn1. by apply (row_full_row_all b _ _ a). }
      destruct (row_all TicPieceState.Check a) eqn:E2; [|done].
      apply Hn2. by apply (row_full_row_all b _ _ a).
    - subst i. rewrite Hsplit, list_lookup_middle in Hrow by done.
      injection Hrow as ->. congruence.
    - exfalso. assert (row ∈ l1) as Hin.
      { apply list_elem_of_lookup. exists i. rewrite Hsplit in Hrow.
        by rewrite lookup_app_l in Hrow. }
      rewrite (Hl1 row Hin) in Hbody. done. }
  split; intros Hfull; apply Hfirst.
  - by rewrite (proj1 (row_full_row_all b _ i row Hwf Hrow) Hfull).
  - assert (row_all TicPieceState.Circle row = false) as ->.
    { destruct (row_all TicPieceState.Circle row) eqn:E; [|done].
      apply (row_full_row_all b _ i row Hwf Hrow) in E.
      specialize (E 0%nat). specialize (Hfull 0%nat).
      rewrite Hfull in E by lia. by injection E; [|lia]. }
    by rewrite (proj1 (row_full_row_all b _ i row Hwf Hrow) Hfull).
Qed.

(** X9, witness: row 0 of the sample board is full of Check and row 1 of
    Circle. *)
Lemma topmost_row_wins_witness :
  wf two_lines3 ∧ row_full two_lines3 TicPieceState.Check 0 ∧
  check_game_status two_lines3 = Ok GameState.Check.
Proof.
  assert (wf two_lines3) as Hwf by (split; [reflexivity|repeat constructor]).
  assert (row_full two_lines3 TicPieceState.Check 0) as Hrow.
  { intros j Hj. change (side two_lines3) with 3%nat in Hj.
    destruct j as [|[|[|j]]]; [reflexivity..|lia]. }
  split; [exact Hwf|]. split; [exact Hrow|].
  destruct (topmost_row_wins two_lines3 0 Hwf) as [_ H].
  - vm_compute. lia.
  - intros i' Hi'. lia.
  - exact (H Hrow).
Defined.

(** ** The data of a state update *)

Lemma parse_display_token_json_str c rest :
  parse_display_token (json_str (display c) +:+ rest) = Some (c, rest).
Proof. by destruct c. Qed.

Lemma decode_display_board b : decode_display (display_board b) = Some (board b).
Proof.
  unfold decode_display, display_board. rewrite board_tokens.
  rewrite <- (str_app_nil_r (json_list _ (board b))).
  rewrite (parse_list_json_list (json_list (λ c, json_str (display c)))).
  - done.
  - intros row rest. apply parse_list_json_list.
    + apply parse_display_token_json_str.
    + by intros [].
  - done.
Qed.

(** X10. The display substitution of the broadcast loses nothing: the
    data obtained from the snapshot by the two replacements reads back,
    with the tokens "X", "O" and "-", to the grid of the board, so two
    boards with the same data have the same grid. *)
Theorem broadcast_data_determines_grid b1 b2 :
  decode_display
    (str_replace (str_replace (get_board_value b1) "Circle" "O") "Check" "X")
  = Some (board b1) ∧
  (str_replace (str_replace (get_board_value b1) "Circle" "O") "Check" "X"
   = str_replace (str_replace (get_board_value b2) "Circle" "O") "Check" "X" →
   board b1 = board b2).
Proof.
  rewrite !replace_get_board. split; [apply decode_display_board|].
  intros Heq. pose proof (decode_display_board b1) as H1.
  rewrite Heq, decode_display_board in H1. congruence.
Qed.

(** * Further properties of the protocol loop *)

(** X11. Every turn of the loop on a session all of whose players are
    still connected, whatever the move, sends to each player of the
    session, in join order and before anything else, one op 0 message
    whose data is the array of display tokens of the board after the
    turn; the only messages that may follow are the op 1 messages of a
    terminal outcome. The turn changes nothing of the session but its
    board, and nothing of the other sessions. *)
Theorem turn_state_update c g ai position rnd now w s :
  conns w !! c = Some (Active g ai) →
  heap w !! g = Some s →
  wf (GameSession.board s) →
  players_connected w s →
  ∃ st,
    check_game_status (board_after_turn ai position rnd (GameSession.board s)) = Ok st ∧
    outbox (step (Message c position rnd now) w)
    = outbox w
      ++ broadcast (GameSession.players s)
           (ServerResponse.json
              (ServerResponse.Build 0
                 (display_board
                    (board_after_turn ai position rnd (GameSession.board s)))))
      ++ (if bool_decide (st = GameState.Playing) then []
          else broadcast (GameSession.players s)
                 (ServerResponse.json
                    (ServerResponse.Build 1 (GameState.value st)))) ∧
    heap (step (Message c position rnd now) w) !!! g
    = GameSession.Build (GameSession.name s) (GameSession.players s)
        (board_after_turn ai position rnd (GameSession.board s)) (GameSession.time s) ∧
    ∀ g', g' ≠ g → heap (step (Message c position rnd now) w) !!! g' = heap w !!! g'.
Proof.
  intros Hc Hs Hwf _.
  destruct (step_message_world c g ai position rnd now w s Hc Hs Hwf)
    as (st & Hst & Hheap & Hout & _).
  exists st. split_and!; [done|done| |].
  - rewrite Hheap. by rewrite list_lookup_total_insert_eq by (by eapply lookup_lt_Some).
  - intros g' Hne. rewrite Hheap. by rewrite list_lookup_total_insert_ne.
Qed.

(** X11, witness: the second move of the first player, with two players
    in the session. *)
Lemma turn_state_update_witness :
  conns joined_after_move !! 1%nat = Some (Active 0 false) ∧
  GameSession.players (heap one_to_go !!! 0%nat) = [1%nat; 2%nat].
Proof.
  assert (conns joined_after_move !! 1%nat = Some (Active 0 false)) as Hc
    by (by vm_compute).
  split; [exact Hc|].
  destruct (turn_state_update 1 0 false (move 0 1 TicPieceState.Check) 0 2
              joined_after_move (heap joined_after_move !!! 0%nat) Hc)
    as (st & _ & _ & Hg & _).
  - by vm_compute.
  - split; [reflexivity|]. vm_compute. repeat constructor.
  - apply players_connected_check. reflexivity.
  - unfold one_to_go. rewrite Hg. by vm_compute.
Defined.

(** X12. When the recomputed outcome is terminal but the session is no
    longer in the registry (the sweep removed it) while all its players
    are still connected, the state update and the terminal message are
    still sent to every player, then [remove] raises [ValueError]: the
    registry is left as it is and the connection is ended by the
    exception. *)
Theorem terminal_on_unregistered c g ai position rnd now w s st :
  conns w !! c = Some (Active g ai) →
  heap w !! g = Some s →
  wf (GameSession.board s) →
  players_connected w s →
  check_game_status (board_after_turn ai position rnd (GameSession.board s)) = Ok st →
  st ≠ GameState.Playing →
  g ∉ game_instances w →
  outbox (step (Message c position rnd now) w)
  = outbox w
    ++ broadcast (GameSession.players s)
         (state_update (board_after_turn ai position rnd (GameSession.board s)))
    ++ broadcast (GameSession.players s) (terminal_message st) ∧
  game_instances (step (Message c position rnd now) w) = game_instances w ∧
  conns (step (Message c position rnd now) w) !! c = Some (Terminated (Some ValueError)).
Proof.
  intros Hc Hs Hwf _ Hst Hterm Hreg.
  rewrite (step_message c g ai position rnd now w Hc). unfold run_conn.
  destruct (game_message_run g ai position rnd now w s Hs Hwf) as (st' & Hst' & ->).
  assert (st' = st) as -> by congruence.
  rewrite bool_decide_eq_true_2 by done.
  apply py_remove_absent in Hreg. simpl. rewrite Hreg. simpl.
  split_and!; [by rewrite <- !app_assoc|done|by rewrite lookup_insert_eq].
Qed.

(** X12, witness: the player of the swept session completes row 0. *)
Lemma terminal_on_unregistered_witness :
  conns late_one_to_go !! 1%nat = Some (Active 0 false) ∧
  game_instances late_one_to_go = [] ∧
  conns (step (Message 1 (move 0 2 TicPieceState.Check) 0 702) late_one_to_go) !! 1%nat
  = Some (Terminated (Some ValueError)).
Proof.
  assert (conns late_one_to_go !! 1%nat = Some (Active 0 false)) as Hc
    by (by vm_compute).
  split; [exact Hc|]. split; [by vm_compute|].
  destruct (terminal_on_unregistered 1 0 false (move 0 2 TicPieceState.Check) 0 702
              late_one_to_go (heap late_one_to_go !!! 0%nat) GameState.Check Hc)
    as (_ & _ & H).
  - by vm_compute.
  - split; [reflexivity|]. vm_compute. repeat constructor.
  - apply players_connected_check. reflexivity.
  - by vm_compute.
  - discriminate.
  - vm_compute. apply not_elem_of_nil.
  - exact H.
Defined.

(** ** Joining *)

Lemma find_game_first name w l1 g l2 :
  game_instances w = l1 ++ g :: l2 →
  GameSession.name (heap w !!! g) = name →
  (∀ g', g' ∈ l1 → GameSession.name (heap w !!! g') ≠ name) →
  fst (find_game name w) = Ok (Some g).
Proof.
  intros Hreg Hg Hl1. rewrite find_game_result, Hreg. f_equal.
  rewrite filter_app.
  assert (filter (λ g0, GameSession.name (heap w !!! g0) = name) l1 = []) as ->.
  { clear Hreg. induction l1 as [|g' l1 IH]; [done|].
    rewrite filter_cons_False by (apply Hl1; left).
    apply IH. intros g'' Hg''. apply Hl1. by right. }
  by rewrite filter_cons_True.
Qed.

(** X13. A connection that asks for a name no registered session has is
    closed at once: nothing is sent and nothing else changes. Otherwise
    it joins the first session of that name in the registry, even when a
    later one has the same name: it is appended to the players of that
    session, is sent one message, the snapshot of the board as
    [get_board] returns it, and enters its loop; the registry, the board
    and the other sessions are unchanged. *)
Theorem join_spec c name ai w :
  (∀ g, g ∈ game_instances w → (g < length (heap w))%nat) →
  ((∀ g, g ∈ game_instances w → GameSession.name (heap w !!! g) ≠ name) →
   step (Connect c name ai) w
   = MkWorld (heap w) (game_instances w) (<[c := Terminated None]> (conns w))
       (outbox w)) ∧
  (∀ l1 g l2,
     game_instances w = l1 ++ g :: l2 →
     GameSession.name (heap w !!! g) = name →
     (∀ g', g' ∈ l1 → GameSession.name (heap w !!! g') ≠ name) →
     conns (step (Connect c name ai) w) !! c = Some (Active g ai) ∧
     heap (step (Connect c name ai) w) !!! g
     = with_players (heap w !!! g) (GameSession.players (heap w !!! g) ++ [c]) ∧
     (∀ g', g' ≠ g → heap (step (Connect c name ai) w) !!! g' = heap w !!! g') ∧
     game_instances (step (Connect c name ai) w) = game_instances w ∧
     outbox (step (Connect c name ai) w)
     = outbox w
       ++ [(c, ServerResponse.json
                 (ServerResponse.Build 0
                    (get_board_value (GameSession.board (heap w !!! g)))))]).
Proof.
  intros Hvalid. split.
  - intros Hnone. unfold step, run_conn. rewrite (game_accept_run c name ai w Hvalid).
    by rewrite (find_game_none name w Hnone).
  - intros l1 g l2 Hreg Hname Hl1.
    assert (g < length (heap w))%nat as Hg.
    { apply Hvalid. rewrite Hreg. apply elem_of_app. right. left. }
    unfold step, run_conn. rewrite (game_accept_run c name ai w Hvalid).
    rewrite (find_game_first name w l1 g l2 Hreg Hname Hl1). simpl.
    split_and!; [|by rewrite list_lookup_total_insert_eq| |done..].
    + by rewrite lookup_insert_eq.
    + intros g' Hne. by rewrite list_lookup_total_insert_ne.
Qed.

(** X13, witness: of the two sessions named "g1" the first is joined. *)
Lemma join_spec_witness :
  game_instances same_name_before = [0%nat; 1%nat] ∧
  conns (step (Connect 7 "g1" true) same_name_before) !! 7%nat = Some (Active 0 true).
Proof.
  split; [by vm_compute|].
  destruct (join_spec 7 "g1" true same_name_before) as [_ H].
  - intros g Hg. vm_compute in Hg.
    apply elem_of_cons in Hg as [->|Hg]; [vm_compute; lia|].
    apply list_elem_of_singleton in Hg as ->. vm_compute. lia.
  - destruct (H [] 0%nat [1%nat]) as [Hc _].
    + by vm_compute.
    + by vm_compute.
    + intros g' Hg'. by apply elem_of_nil in Hg'.
    + exact Hc.
Defined.

(** ** Leaving *)

Lemma game_disconnect_run c g w :
  game_disconnect c g w
  = match py_remove c (GameSession.players (heap w !!! g)) with
    | Raise e => (Raise e, w)
    | Ok players' =>
        let w1 := set_session g (with_players (heap w !!! g) players') w in
        if bool_decide (players' = []) then
          match py_remove g (game_instances w) with
          | Ok l' => (Ok (Terminated None), set_registry l' w1)
          | Raise e => (Raise e, w1)
          end
        else (Ok (Terminated None), w1)
    end.
Proof.
  unfold game_disconnect. rewrite bind_run. unfold deref at 1.
  rewrite bind_run. unfold lift_result at 1.
  destruct (py_remove c (GameSession.players (heap w !!! g))) as [players'|e]; [|done].
  rewrite bind_run. unfold store at 1. simpl. case_bool_decide; [|done].
  rewrite bind_run. unfold get_instances at 1. rewrite bind_run.
  unfold lift_result at 1. simpl.
  by destruct (py_remove g (game_instances w)).
Qed.

(** X14. When a connection in its loop is disconnected, its first entry
    is taken out of the players of its session and no message is sent.
    If players remain, the registry is unchanged. If none remains and the
    session is registered, the session is taken out of the registry. In
    both cases the connection ends without an exception. If none remains
    and the session is not in the registry any more, [remove] raises
    [ValueError], which ends the connection. *)
Theorem disconnect_spec c g ai w s :
  conns w !! c = Some (Active g ai) →
  heap w !! g = Some s →
  c ∈ GameSession.players s →
  ∃ players',
    py_remove c (GameSession.players s) = Ok players' ∧
    heap (step (Disconnect c) w) = <[g := with_players s players']> (heap w) ∧
    outbox (step (Disconnect c) w) = outbox w ∧
    (players' ≠ [] →
     game_instances (step (Disconnect c) w) = game_instances w ∧
     conns (step (Disconnect c) w) !! c = Some (Terminated None)) ∧
    (players' = [] → g ∈ game_instances w →
     py_remove g (game_instances w) = Ok (game_instances (step (Disconnect c) w)) ∧
     conns (step (Disconnect c) w) !! c = Some (Terminated None)) ∧
    (players' = [] → g ∉ game_instances w →
     game_instances (step (Disconnect c) w) = game_instances w ∧
     conns (step (Disconnect c) w) !! c = Some (Terminated (Some ValueError))).
Proof.
  intros Hc Hs Hin.
  destruct (py_remove_present c _ Hin) as [players' Hrm]. exists players'.
  split; [done|].
  unfold step. rewrite Hc. unfold run_conn. rewrite game_disconnect_run.
  rewrite (list_lookup_total_correct _ _ _ Hs), Hrm. simpl.
  case_bool_decide as Hempty.
  - destruct (py_remove g (game_instances w)) as [l'|e] eqn:Hreg; simpl.
    + split_and!; [done..| | |].
      * by intros.
      * intros _ _. split; [done|]. by rewrite lookup_insert_eq.
      * intros _ Habs. apply py_remove_absent in Habs. congruence.
    + split_and!; [done..| | |].
      * by intros.
      * intros _ Hpres. destruct (py_remove_present g _ Hpres) as [l' Hl']. congruence.
      * intros _ Habs. apply py_remove_absent in Habs.
        assert (e = ValueError) as -> by congruence.
        split; [done|]. by rewrite lookup_insert_eq.
  - simpl. split_and!; [done..| | |].
    + intros _. split; [done|]. by rewrite lookup_insert_eq.
    + by intros.
    + by intros.
Qed.

(** X14, witness: the first of two players leaves; the session stays. *)
Lemma disconnect_spec_witness :
  conns joined_after_move !! 1%nat = Some (Active 0 false) ∧
  GameSession.players (heap joined_after_move !!! 0%nat) = [1%nat; 2%nat] ∧
  game_instances (step (Disconnect 1) joined_after_move) = [0%nat].
Proof.
  assert (conns joined_after_move !! 1%nat = Some (Active 0 false)) as Hc
    by (by vm_compute).
  split; [exact Hc|]. split; [by vm_compute|].
  destruct (disconnect_spec 1 0 false joined_after_move
              (heap joined_after_move !!! 0%nat) Hc)
    as (players' & Hrm & _ & _ & Hrest & _).
  - by vm_compute.
  - vm_compute. left.
  - vm_compute in Hrm. injection Hrm as <-.
    destruct Hrest as [Hreg _]; [discriminate|]. rewrite Hreg. by vm_compute.
Defined.

(** ** What holds in every reachable world *)

Lemma board_after_turn_size ai position rnd b :
  size (board_after_turn ai position rnd b) = size b.
Proof.
  unfold board_after_turn.
  pose proof (apply_op_cells (Place (Position.x position) (Position.y position)
                                (Position.type position)) b) as (H1 & _).
  simpl in H1. destruct ai; [|done].
  set (p := if bool_decide _ then _ else _).
  pose proof (apply_op_cells (PlaceRandom rnd p)
                (snd (place_piece (Position.x position) (Position.y position)
                        (Position.type position) b))) as (H2 & _).
  simpl in H2. congruence.
Qed.

Lemma sizes_step e w :
  world_ok w →
  Forall (λ s, 3 ≤ size (GameSession.board s) ≤ 25) (heap w) →
  Forall (λ s, 3 ≤ size (GameSession.board s) ≤ 25) (heap (step e w)).
Proof.
  intros (Hb & Hreg & Hnd & Hc) Hsz.
  assert (∀ g, (g < length (heap w))%nat →
               3 ≤ size (GameSession.board (heap w !!! g)) ≤ 25) as Hsz'.
  { intros g Hg. rewrite Forall_lookup in Hsz. apply (Hsz g).
    by apply list_lookup_lookup_total_lt. }
  destruct e as [sz name uuid now|c name ai|c position rnd now|c].
  - unfold step. destruct (TicTacToe.init sz) as [b|e0] eqn:Hinit.
    + rewrite (create_game_accepted sz name uuid now w b Hinit). simpl.
      apply Forall_app. split; [done|]. constructor; [|constructor]. simpl.
      by apply init_Ok in Hinit as [? ->].
    + by rewrite (create_game_refused sz name uuid now w e0 Hinit).
  - unfold step, run_conn. rewrite game_accept_run by (by apply Forall_forall).
    destruct (fst (find_game name w)) as [[g|]|e] eqn:Hfind; [|done..].
    apply find_game_registered in Hfind as [Hin _].
    rewrite Forall_forall in Hreg. specialize (Hreg _ Hin). simpl.
    apply Forall_insert; [done|]. simpl. by apply Hsz'.
  - unfold step. destruct (conns w !! c) as [[g ai|]|] eqn:Hconn; [|done..].
    pose proof (Hc _ _ _ Hconn) as Hg.
    pose proof (list_lookup_lookup_total_lt _ _ Hg) as Hs.
    assert (wf (GameSession.board (heap w !!! g))) as Hwf.
    { rewrite Forall_lookup in Hb. by eapply (Hb g). }
    unfold run_conn.
    destruct (game_message_run g ai position rnd now w _ Hs Hwf) as (st & _ & ->).
    assert (Forall (λ s, 3 ≤ size (GameSession.board s) ≤ 25)
              (<[g := with_board (heap w !!! g)
                        (board_after_turn ai position rnd
                           (GameSession.board (heap w !!! g)))]> (heap w))) as Hsz''.
    { apply Forall_insert; [done|]. simpl. rewrite board_after_turn_size.
      by apply Hsz'. }
    simpl. case_bool_decide; [|done].
    by destruct (py_remove g (game_instances w)).
  - unfold step. destruct (conns w !! c) as [[g ai|]|] eqn:Hconn; [|done..].
    pose proof (Hc _ _ _ Hconn) as Hg.
    unfold run_conn. rewrite game_disconnect_run.
    destruct (py_remove c (GameSession.players (heap w !!! g))) as [players'|e];
      [|done].
    assert (Forall (λ s, 3 ≤ size (GameSession.board s) ≤ 25)
              (<[g := with_players (heap w !!! g) players']> (heap w))) as Hsz''.
    { apply Forall_insert; [done|]. simpl. by apply Hsz'. }
    simpl. case_bool_decide; [|done].
    by destruct (py_remove g (game_instances w)).
Qed.

(** X15. In every world reached from the empty one by any sequence of
    creations, connections, moves and disconnections, every board is a
    square grid whose side is its [size], a number from 3 to 25; the
    registry holds no session twice; and the registry and every
    connection in its loop refer to existing sessions. *)
Theorem reachable_worlds (es : list event) :
  Forall (λ s, wf (GameSession.board s) ∧ 3 ≤ size (GameSession.board s) ≤ 25)
    (heap (run es empty_world)) ∧
  NoDup (game_instances (run es empty_world)) ∧
  (∀ g, g ∈ game_instances (run es empty_world) →
        (g < length (heap (run es empty_world)))%nat) ∧
  (∀ c g ai, conns (run es empty_world) !! c = Some (Active g ai) →
             (g < length (heap (run es empty_world)))%nat).
Proof.
  assert (∀ w, world_ok w →
               Forall (λ s, 3 ≤ size (GameSession.board s) ≤ 25) (heap w) →
               world_ok (run es w) ∧
               Forall (λ s, 3 ≤ size (GameSession.board s) ≤ 25) (heap (run es w)))
    as Hrun.
  { unfold run. induction es as [|e es IH]; intros w Hok Hsz; simpl; [done|].
    apply IH; [by apply world_ok_step|by apply sizes_step]. }
  destruct (Hrun empty_world world_ok_empty) as [(Hb & Hreg & Hnd & Hc) Hsz];
    [constructor|].
  split_and!; [|done| |done].
  - rewrite Forall_forall in Hb, Hsz |- *. intros s Hs. split; auto.
  - by apply Forall_forall.
Qed.

(** * Counting marks *)

Lemma set_cell_board b x y p c :
  get_cell b x y = Ok c →
  ∃ ki kj row, board b !! ki = Some row ∧ row !! kj = Some c ∧
    set_cell b x y p = Ok (TicTacToe.Build (size b) (<[ki := <[kj := p]> row]> (board b))).
Proof.
  intros (ki & kj & row & H1 & H2 & H3 & H4)%get_cell_Ok.
  exists ki, kj, row. split_and!; [done..|].
  unfold set_cell. unfold side in H1.
  assert (py_getitem (board b) x = Ok row) as -> by (apply py_getitem_Ok; eauto).
  simpl. unfold py_setitem. rewrite H3. simpl. by rewrite H1.
Qed.

Lemma filter_length_insert {A} (P : A → Prop) `{∀ a, Decision (P a)}
    (l : list A) j a p :
  l !! j = Some a → ¬ P a → P p →
  length (filter P (<[j := p]> l)) = S (length (filter P l)).
Proof.
  intros Hj Ha Hp.
  rewrite insert_take_drop by (by eapply lookup_lt_Some).
  rewrite <- (take_drop_middle l j a Hj) at 3.
  rewrite !filter_app, !length_app.
  rewrite filter_cons_True, filter_cons_False by done. simpl. lia.
Qed.

Lemma filled_insert (g : list (list TicPieceState.t)) i j row p :
  g !! i = Some row → row !! j = Some TicPieceState.Empty → p ≠ TicPieceState.Empty →
  length (filter (λ c, c ≠ TicPieceState.Empty) (concat (<[i := <[j := p]> row]> g)))
  = S (length (filter (λ c, c ≠ TicPieceState.Empty) (concat g))).
Proof.
  intros Hi Hj Hp.
  rewrite insert_take_drop by (by eapply lookup_lt_Some).
  rewrite <- (take_drop_middle g i row Hi) at 3.
  rewrite !concat_app. simpl. rewrite !filter_app, !length_app.
  rewrite (filter_length_insert _ row j TicPieceState.Empty p Hj); [lia| |done].
  by intros H.
Qed.

(** An accepted placement of a mark fills one more cell. *)
Lemma place_piece_filled b x y p b' :
  place_piece x y p b = (Ok true, b') → p ≠ TicPieceState.Empty →
  filled b' = S (filled b).
Proof.
  intros Hrun Hp. pose proof (place_piece_set_cell _ _ _ _ _ Hrun) as Hset.
  assert (get_cell b x y = Ok TicPieceState.Empty) as Hget.
  { unfold place_piece in Hrun.
    destruct (is_coordinate_valid b x y) as [[]|] eqn:Hv; [|done..].
    by apply is_coordinate_valid_Ok_true in Hv as (_ & _ & ?). }
  destruct (set_cell_board b x y p _ Hget) as (ki & kj & row & Hrow & Hcell & Hset').
  rewrite Hset in Hset'. injection Hset' as ->. unfold filled. simpl.
  by apply filled_insert.
Qed.

Lemma filled_fresh size b : TicTacToe.init size = Ok b → filled b = 0%nat.
Proof.
  intros [_ ->]%init_Ok. unfold filled. simpl.
  generalize (Z.to_nat size) at 1. intros n. induction n as [|n IH]; [done|].
  simpl. rewrite filter_app, length_app, IH.
  generalize (Z.to_nat size). intros m. induction m as [|m IHm]; [done|].
  simpl. rewrite filter_cons_False by (by intros H). done.
Qed.

Lemma concat_length_square (g : list (list TicPieceState.t)) k :
  Forall (λ row, length row = k) g → length (concat g) = (length g * k)%nat.
Proof.
  induction 1 as [|row g Hrow _ IH]; [done|]. simpl. rewrite length_app. lia.
Qed.

Lemma filled_le b : wf b → (filled b ≤ side b * side b)%nat.
Proof.
  intros [_ Hrows]. unfold filled.
  etrans; [apply length_filter|]. by rewrite (concat_length_square _ (side b)).
Qed.

(** X16. From a fresh board every accepted placement of Check or Circle
    fills one more cell, so the number of filled cells equals the number
    of accepted placements, and no more than [size * size] placements can
    be accepted. *)
Theorem accepted_moves_bounded size moves b0 b :
  TicTacToe.init size = Ok b0 →
  place_all moves b0 = Some b →
  Forall (λ m, Position.type m ≠ TicPieceState.Empty) moves →
  filled b = length moves ∧
  (length moves ≤ Z.to_nat size * Z.to_nat size)%nat.
Proof.
  intros Hinit Hall Hmarks.
  assert (filled b = (filled b0 + length moves)%nat) as Hcount.
  { clear Hinit. revert b0 Hall. induction Hmarks as [|m moves Hm _ IH];
      intros b0; simpl.
    - intros [= <-]. lia.
    - destruct (place_piece _ _ _ b0) as [[[]|] b1] eqn:E; [|done..].
      intros Hall. rewrite (IH b1 Hall), (place_piece_filled _ _ _ _ _ E Hm). lia. }
  rewrite (filled_fresh size b0 Hinit) in Hcount. simpl in Hcount.
  split; [done|]. rewrite <- Hcount.
  assert (wf b ∧ side b = Z.to_nat size) as [Hwf <-].
  { pose proof (init_wf size b0 Hinit) as Hwf0.
    assert (side b0 = Z.to_nat size) as <-.
    { apply init_Ok in Hinit as [_ ->]. unfold side. simpl. by rewrite length_replicate. }
    clear Hinit Hmarks Hcount. revert b0 Hall Hwf0.
    induction moves as [|m moves IH]; intros b0; simpl.
    - by intros [= <-].
    - destruct (place_piece _ _ _ b0) as [[[]|] b1] eqn:E; [|done..].
      intros Hall Hwf0.
      pose proof (place_piece_wf b0 (Position.x m) (Position.y m) (Position.type m) Hwf0)
        as Hwf1.
      rewrite E in Hwf1. simpl in Hwf1.
      destruct (IH b1 Hall Hwf1) as [Hwf Hside]. split; [done|].
      apply place_piece_true in E as (_ & _ & _ & Hs & _). congruence. }
  by apply filled_le.
Qed.

(** X16, witness: one accepted placement on the fresh board of side 3. *)
Lemma accepted_moves_bounded_witness :
  TicTacToe.init 3 = Ok fresh3 ∧
  place_all [move 0 0 TicPieceState.Check] fresh3 = Some check_corner3 ∧
  filled check_corner3 = 1%nat.
Proof.
  assert (TicTacToe.init 3 = Ok fresh3) as Hinit by reflexivity.
  assert (place_all [move 0 0 TicPieceState.Check] fresh3 = Some check_corner3)
    as Hall by reflexivity.
  split; [exact Hinit|]. split; [exact Hall|].
  destruct (accepted_moves_bounded 3 [move 0 0 TicPieceState.Check] fresh3 check_corner3
              Hinit Hall) as [H _].
  - constructor; [discriminate|constructor].
  - exact H.
Defined.

(** * More on the registry *)

Lemma list_filter_ext_in {A} (P1 P2 : A → Prop)
    `{!∀ x, Decision (P1 x), !∀ x, Decision (P2 x)} (l : list A) :
  (∀ x, x ∈ l → P1 x ↔ P2 x) → filter P1 l = filter P2 l.
Proof.
  induction l as [|a l IH]; intros HP; [done|].
  assert (filter P1 l = filter P2 l) as Hl by (apply IH; intros x Hx; apply HP; by right).
  destruct (decide (P1 a)) as [Ha|Ha].
  - rewrite !filter_cons_True; [by rewrite Hl| |done]. apply HP; [left|done].
  - rewrite !filter_cons_False; [done| |done]. intros Ha'. apply Ha, HP; [left|done].
Qed.

(** X17. Sweeping at a time and again at a later time leaves the registry
    that one sweep at the later time leaves; in particular a sweep
    repeated at the same time changes nothing. *)
Theorem sweep_compose now now' w :
  now ≤ now' →
  snd (sweep now' (snd (sweep now w))) = snd (sweep now' w).
Proof.
  intros Hle. unfold sweep, set_instances. simpl. f_equal.
  rewrite list_filter_filter. apply list_filter_iff. intros g. lia.
Qed.

(** X17, witness: the sweeps at times 600 and 700 of two sessions created
    at times 0 and 500. *)
Lemma sweep_compose_witness :
  game_instances (snd (sweep 700 (snd (sweep 600 same_name_before)))) = [1%nat].
Proof.
  rewrite (sweep_compose 600 700 same_name_before); [by vm_compute|lia].
Defined.

(** X18. A creation never changes what [find] returns for a name under
    which a session was found before: when the name asked for is taken,
    the new session is registered behind the old one and is not found
    under that name while the old one is registered. *)
Theorem create_keeps_found size name uuid now w n g :
  (∀ g', g' ∈ game_instances w → (g' < length (heap w))%nat) →
  fst (find_game n w) = Ok (Some g) →
  fst (find_game n (step (Create size name uuid now) w)) = Ok (Some g).
Proof.
  intros Hvalid Hfind. unfold step.
  destruct (TicTacToe.init size) as [b|e] eqn:Hinit; last first.
  { by rewrite (create_game_refused size name uuid now w e Hinit). }
  rewrite (create_game_accepted size name uuid now w b Hinit).
  rewrite find_game_result in Hfind |- *. cbn [snd heap game_instances].
  injection Hfind as Hfind. f_equal. rewrite filter_app.
  rewrite (list_filter_ext_in _
             (λ g0, GameSession.name (heap w !!! g0) = n) (game_instances w)).
  - apply head_app_Some. by left.
  - intros g' Hg'. by rewrite lookup_total_app_l by (by apply Hvalid).
Qed.

(** X18, witness: a third session named "g1" is created; the first one is
    still the one found. *)
Lemma create_keeps_found_witness :
  fst (find_game "g1" same_name_before) = Ok (Some 0%nat) ∧
  fst (find_game "g1" (step (Create 5 (Some "g1") "uuid3" 900) same_name_before))
  = Ok (Some 0%nat).
Proof.
  assert (fst (find_game "g1" same_name_before) = Ok (Some 0%nat)) as Hfind
    by (by vm_compute).
  split; [exact Hfind|].
  apply (create_keeps_found 5 (Some "g1") "uuid3" 900 same_name_before "g1" 0);
    [|exact Hfind].
  intros g Hg. vm_compute in Hg.
  apply elem_of_cons in Hg as [->|Hg]; [vm_compute; lia|].
  apply list_elem_of_singleton in Hg as ->. vm_compute. lia.
Defined.

(** * Marks across the protocol *)

Lemma board_after_turn_cells ai position rnd b i j p :
  cell_at b i j = Some p → p ≠ TicPieceState.Empty →
  cell_at (board_after_turn ai position rnd b) i j = Some p.
Proof.
  intros Hc Hp.
  set (q := if bool_decide (Position.type position = TicPieceState.Check)
            then TicPieceState.Circle else TicPieceState.Check).
  destruct ai.
  - destruct (apply_ops_cells
                [Place (Position.x position) (Position.y position)
                   (Position.type position); PlaceRandom rnd q] b) as [_ H].
    by apply (H i j p).
  - destruct (apply_ops_cells
                [Place (Position.x position) (Position.y position)
                   (Position.type position)] b) as [_ H].
    by apply (H i j p).
Qed.

(** X19. Marks are permanent across the whole protocol: in a world that
    satisfies the invariant of the reachable worlds, no creation,
    connection, move or disconnection changes a cell of any session that
    holds Check or Circle. *)
Theorem marks_survive_events e w g i j p :
  world_ok w →
  cell_at (GameSession.board (heap w !!! g)) i j = Some p →
  p ≠ TicPieceState.Empty →
  cell_at (GameSession.board (heap (step e w) !!! g)) i j = Some p.
Proof.
  intros (Hb & Hreg & Hnd & Hc) Hcell Hp.
  assert (g < length (heap w))%nat as Hg.
  { destruct (decide (g < length (heap w))%nat) as [|Hge]; [done|].
    rewrite list_lookup_total_alt, lookup_ge_None_2 in Hcell by lia. done. }
  destruct e as [sz name uuid now|c name ai|c position rnd now|c].
  - unfold step. destruct (TicTacToe.init sz) as [b|e0] eqn:Hinit.
    + rewrite (create_game_accepted sz name uuid now w b Hinit). simpl.
      by rewrite lookup_total_app_l.
    + by rewrite (create_game_refused sz name uuid now w e0 Hinit).
  - unfold step, run_conn. rewrite game_accept_run by (by apply Forall_forall).
    destruct (fst (find_game name w)) as [[g0|]|e] eqn:Hfind; [|done..]. simpl.
    destruct (decide (g0 = g)) as [->|Hne].
    + by rewrite list_lookup_total_insert_eq.
    + by rewrite list_lookup_total_insert_ne.
  - unfold step. destruct (conns w !! c) as [[g0 ai|]|] eqn:Hconn; [|done..].
    pose proof (Hc _ _ _ Hconn) as Hg0.
    pose proof (list_lookup_lookup_total_lt _ _ Hg0) as Hs.
    assert (wf (GameSession.board (heap w !!! g0))) as Hwf.
    { rewrite Forall_lookup in Hb. by eapply (Hb g0). }
    unfold run_conn.
    destruct (game_message_run g0 ai position rnd now w _ Hs Hwf) as (st & _ & ->).
    assert (cell_at (GameSession.board
              (<[g0 := with_board (heap w !!! g0)
                         (board_after_turn ai position rnd
                            (GameSession.board (heap w !!! g0)))]> (heap w) !!! g))
              i j = Some p) as Hkeep.
    { destruct (decide (g0 = g)) as [->|Hne].
      - rewrite list_lookup_total_insert_eq by done. simpl.
        by apply board_after_turn_cells.
      - by rewrite list_lookup_total_insert_ne. }
    simpl. case_bool_decide; [|done].
    by destruct (py_remove g0 (game_instances w)).
  - unfold step. destruct (conns w !! c) as [[g0 ai|]|] eqn:Hconn; [|done..].
    unfold run_conn. rewrite game_disconnect_run.
    destruct (py_remove c (GameSession.players (heap w !!! g0))) as [players'|e];
      [|done].
    assert (cell_at (GameSession.board
              (<[g0 := with_players (heap w !!! g0) players']> (heap w) !!! g))
              i j = Some p) as Hkeep.
    { destruct (decide (g0 = g)) as [->|Hne].
      - by rewrite list_lookup_total_insert_eq.
      - by rewrite list_lookup_total_insert_ne. }
    simpl. case_bool_decide; [|done].
    by destruct (py_remove g0 (game_instances w)).
Qed.

(** X19, witness: the corner taken by Check survives the move that
    completes row 0. *)
Lemma marks_survive_events_witness :
  cell_at (GameSession.board (heap one_to_go !!! 0%nat)) 0 0
  = Some TicPieceState.Check ∧
  cell_at (GameSession.board (heap row_completed !!! 0%nat)) 0 0
  = Some TicPieceState.Check.
Proof.
  assert (cell_at (GameSession.board (heap one_to_go !!! 0%nat)) 0 0
          = Some TicPieceState.Check) as Hcell by (by vm_compute).
  split; [exact Hcell|].
  apply (marks_survive_events (Message 1 (move 0 2 TicPieceState.Check) 0 3)
           one_to_go 0 0 0 TicPieceState.Check); [|exact Hcell|discriminate].
  unfold one_to_go, joined_after_move. apply world_ok_step, world_ok_run.
Defined.

(** ** The players of a registered session are connected *)

Lemma registry_live_empty : registry_live empty_world.
Proof. split; [by intros g s ?%elem_of_nil|by intros g s p ?]. Qed.

(** The end of connection [c], in its loop on [g], possibly with the
    removal of [g] from the registry and a change of the board. *)
Lemma registry_live_leave w c g ai s' reg st out :
  registry_live w →
  conns w !! c = Some (Active g ai) →
  (g < length (heap w))%nat →
  reg ⊆ game_instances w →
  GameSession.players s' ⊆ GameSession.players (heap w !!! g) →
  (g ∈ reg → NoDup (GameSession.players s') ∧ (c ∈ GameSession.players s' → st = Active g ai)) →
  (∀ g' ai', st = Active g' ai' → g' = g) →
  registry_live (MkWorld (<[g := s']> (heap w)) reg (<[c := st]> (conns w)) out).
Proof.
  intros [Hreg Hdom] Hc Hg Hsub Hpl Hin Hst. split; simpl.
  - intros g' s Hg' Hs. destruct (decide (g' = g)) as [->|Hne].
    + rewrite list_lookup_insert_eq in Hs by done. injection Hs as <-.
      destruct (Hin Hg') as [Hnd Hcs]. split; [done|].
      intros p Hp. destruct (decide (p = c)) as [->|Hpc].
      * rewrite lookup_insert_eq. rewrite (Hcs Hp). eauto.
      * rewrite lookup_insert_ne by done.
        eapply (Hreg g (heap w !!! g)); [by apply Hsub| |by apply Hpl].
        by apply list_lookup_lookup_total_lt.
    + rewrite list_lookup_insert_ne in Hs by done.
      destruct (Hreg g' s (Hsub _ Hg') Hs) as [Hnd Hact]. split; [done|].
      intros p Hp. destruct (Hact p Hp) as [ai' Hp'].
      assert (p ≠ c) by (intros ->; congruence).
      rewrite lookup_insert_ne by done. eauto.
  - intros g' s p Hs Hp. destruct (decide (p = c)) as [->|Hpc].
    { by rewrite lookup_insert_eq. }
    rewrite lookup_insert_ne by done.
    destruct (decide (g' = g)) as [->|Hne].
    + rewrite list_lookup_insert_eq in Hs by done. injection Hs as <-.
      eapply (Hdom g (heap w !!! g)); [|by apply Hpl].
      by apply list_lookup_lookup_total_lt.
    + rewrite list_lookup_insert_ne in Hs by done. by eapply Hdom.
Qed.

Lemma registry_live_step e w :
  world_ok w → registry_live w →
  match e with
  | Connect c _ _ => conns w !! c = None
  | _ => True
  end →
  registry_live (step e w).
Proof.
  intros (Hb & Hregok & Hnd & Hcok) Hlive Hfresh.
  pose proof Hlive as [Hreg Hdom].
  destruct e as [size name uuid now|c name ai|c position rnd now|c].
  - (* a creation *)
    destruct (TicTacToe.init size) as [b|e0] eqn:Hinit; unfold step.
    2:{ by rewrite (create_game_refused size name uuid now w e0 Hinit). }
    rewrite (create_game_accepted size name uuid now w b Hinit). simpl.
    split; simpl.
    + intros g s [Hg| ->%list_elem_of_singleton]%elem_of_app Hs.
      * rewrite Forall_forall in Hregok. specialize (Hregok _ Hg).
        rewrite lookup_app_l in Hs by done. by apply Hreg.
      * rewrite list_lookup_middle in Hs by done. injection Hs as <-. simpl.
        split; [constructor|]. by intros p ?%elem_of_nil.
    + intros g s p Hs Hp. apply lookup_app_Some in Hs as [Hs|[_ Hs]].
      * by eapply Hdom.
      * apply list_lookup_singleton_Some in Hs as [_ <-]. simpl in Hp.
        by apply elem_of_nil in Hp.
  - (* a connection *)
    unfold step, run_conn. rewrite game_accept_run by (by apply Forall_forall).
    assert (∀ g s, heap w !! g = Some s → c ∉ GameSession.players s) as Hnew.
    { intros g s Hs Hin. destruct (Hdom g s c Hs Hin) as [x Hx]. congruence. }
    destruct (fst (find_game name w)) as [[g|]|e] eqn:Hfind; simpl.
    + apply find_game_registered in Hfind as [Hin _].
      rewrite Forall_forall in Hregok. pose proof (Hregok _ Hin) as Hg.
      pose proof (list_lookup_lookup_total_lt _ _ Hg) as Hs.
      split; simpl.
      * intros g' s Hg' Hs'. destruct (decide (g' = g)) as [->|Hne].
        -- rewrite list_lookup_insert_eq in Hs' by done. injection Hs' as <-. simpl.
           destruct (Hreg g _ Hin Hs) as [Hnd' Hact]. split.
           ++ apply NoDup_app. split_and!; [done| |apply NoDup_singleton].
              intros p Hp ->%list_elem_of_singleton. by eapply Hnew.
           ++ intros p [Hp| ->%list_elem_of_singleton]%elem_of_app.
              ** destruct (Hact p Hp) as [ai' Hp'].
                 assert (p ≠ c) by (intros ->; congruence).
                 rewrite lookup_insert_ne by done. eauto.
              ** rewrite lookup_insert_eq. eauto.
        -- rewrite list_lookup_insert_ne in Hs' by done.
           destruct (Hreg g' s Hg' Hs') as [Hnd' Hact]. split; [done|].
           intros p Hp. destruct (Hact p Hp) as [ai' Hp'].
           assert (p ≠ c) by (intros ->; congruence).
           rewrite lookup_insert_ne by done. eauto.
      * intros g' s p Hs' Hp. destruct (decide (p = c)) as [->|Hpc].
        { by rewrite lookup_insert_eq. }
        rewrite lookup_insert_ne by done.
        destruct (decide (g' = g)) as [->|Hne].
        -- rewrite list_lookup_insert_eq in Hs' by done. injection Hs' as <-.
           simpl in Hp. apply elem_of_app in Hp as [Hp| ->%list_elem_of_singleton];
             [|done]. by eapply Hdom.
        -- rewrite list_lookup_insert_ne in Hs' by done. by eapply Hdom.
    + split; simpl.
      * intros g s Hg Hs. destruct (Hreg g s Hg Hs) as [Hnd' Hact]. split; [done|].
        intros p Hp. destruct (Hact p Hp) as [ai' Hp'].
        assert (p ≠ c) by (intros ->; congruence).
        rewrite lookup_insert_ne by done. eauto.
      * intros g s p Hs Hp. destruct (decide (p = c)) as [->|Hpc].
        { by rewrite lookup_insert_eq. }
        rewrite lookup_insert_ne by done. by eapply Hdom.
    + split; simpl.
      * intros g s Hg Hs. destruct (Hreg g s Hg Hs) as [Hnd' Hact]. split; [done|].
        intros p Hp. destruct (Hact p Hp) as [ai' Hp'].
        assert (p ≠ c) by (intros ->; congruence).
        rewrite lookup_insert_ne by done. eauto.
      * intros g s p Hs Hp. destruct (decide (p = c)) as [->|Hpc].
        { by rewrite lookup_insert_eq. }
        rewrite lookup_insert_ne by done. by eapply Hdom.
  - (* a move *)
    unfold step. destruct (conns w !! c) as [[g ai|]|] eqn:Hconn; [|done..].
    pose proof (Hcok _ _ _ Hconn) as Hg.
    pose proof (list_lookup_lookup_total_lt _ _ Hg) as Hs.
    assert (wf (GameSession.board (heap w !!! g))) as Hwf.
    { rewrite Forall_lookup in Hb. by eapply (Hb g). }
    unfold run_conn.
    destruct (game_message_run g ai position rnd now w _ Hs Hwf) as (st & _ & ->).
    simpl. case_bool_decide.
    + destruct (py_remove g (game_instances w)) as [l'|e] eqn:Hrm; simpl.
      * apply (registry_live_leave w c g ai); simpl; [done|done|done| |done| |done].
        -- intros x Hx. eapply elem_of_sublist; [done|]. by eapply py_remove_sublist.
        -- intros Hin. by destruct (py_remove_NoDup _ _ _ Hnd Hrm) as [Hnot _].
      * apply (registry_live_leave w c g ai); simpl; [done|done|done|done|done| |done].
        intros Hin. apply py_remove_present in Hin as [l' Hl']. congruence.
    + simpl. apply (registry_live_leave w c g ai); simpl; [done|done|done| |done| |].
      * intros x [_ Hx]%list_elem_of_filter. done.
      * intros [_ Hin]%list_elem_of_filter. split; [|done].
        by destruct (Hreg g _ Hin Hs).
      * by intros ?? [= <- _].
  - (* a disconnection *)
    unfold step. destruct (conns w !! c) as [[g ai|]|] eqn:Hconn; [|done..].
    pose proof (Hcok _ _ _ Hconn) as Hg.
    pose proof (list_lookup_lookup_total_lt _ _ Hg) as Hs.
    unfold run_conn. rewrite game_disconnect_run.
    destruct (py_remove c (GameSession.players (heap w !!! g))) as [players'|e] eqn:Hrm.
    + assert (players' ⊆ GameSession.players (heap w !!! g)) as Hsub.
      { intros x Hx. eapply elem_of_sublist; [done|]. by eapply py_remove_sublist. }
      assert (g ∈ game_instances w →
              NoDup players' ∧ (c ∈ players' → Terminated None = Active g ai)) as Hpl.
      { intros Hin. destruct (Hreg g _ Hin Hs) as [Hnd' _].
        destruct (py_remove_NoDup _ _ _ Hnd' Hrm) as [Hnot _]. split; [|done].
        eapply sublist_NoDup; [exact Hnd'|]. by eapply py_remove_sublist. }
      simpl. case_bool_decide.
      * destruct (py_remove g (game_instances w)) as [l'|e] eqn:Hrm'; simpl.
        -- apply (registry_live_leave w c g ai); simpl; [done|done|done| |done| |done].
           ++ intros x Hx. eapply elem_of_sublist; [done|]. by eapply py_remove_sublist.
           ++ intros Hin. by destruct (py_remove_NoDup _ _ _ Hnd Hrm') as [Hnot _].
        -- apply (registry_live_leave w c g ai); simpl; [done|done|done|done|done| |done].
           intros Hin. apply py_remove_present in Hin as [l' Hl']. congruence.
      * simpl. by apply (registry_live_leave w c g ai); simpl.
    + simpl.
      assert (c ∉ GameSession.players (heap w !!! g)) as Hnot.
      { intros Hin. apply py_remove_present in Hin as [l' Hl']. congruence. }
      replace (heap w) with (<[g := heap w !!! g]> (heap w)) at 1
        by (by apply list_insert_id).
      apply (registry_live_leave w c g ai); simpl; [done|done|done|done|done| |done].
      intros Hin. split; [|done]. by destruct (Hreg g _ Hin Hs).
Qed.

Lemma registry_live_run es w :
  world_ok w → registry_live w → fresh_connections es w → registry_live (run es w).
Proof.
  unfold run. revert w. induction es as [|e es IH]; intros w Hok Hlive Hfresh; [done|].
  destruct Hfresh as [He Hes]. simpl. apply IH; [by apply world_ok_step| |done].
  by apply registry_live_step.
Qed.

(** In a world reached from the empty one by events whose connections
    are distinct sockets, all the players of a registered session are
    connected: on a registered session no message is sent to a connection
    that has ended. *)
Lemma reachable_players_connected es g s :
  fresh_connections es empty_world →
  g ∈ game_instances (run es empty_world) →
  heap (run es empty_world) !! g = Some s →
  players_connected (run es empty_world) s.
Proof.
  intros Hfresh Hg Hs p Hp.
  destruct (registry_live_run es empty_world world_ok_empty registry_live_empty Hfresh)
    as [Hreg _].
  destruct (Hreg g s Hg Hs) as [_ Hact]. destruct (Hact p Hp) as [ai Hai]. eauto.
Qed.
